(** * Room / role / reconnection state machine of server.js

    A shallow embedding of the WebSocket relay in [src/server.js]: the room
    table, the per-connection fields the handlers keep on each socket, the
    pending timeouts, and the handlers for [join], [request_state],
    [syncState], [chat], socket close and the two timer callbacks.

    Modelling choices, all read off the source:
    - a socket object [ws] is identified by a number; its mutable fields
      live in the [sockets] table of the server state;
    - [rooms] is the global object used as a map from room id to room;
    - the four per-slot arrays of a room are only read and written by index
      (never iterated, their length never read).  A JS array is an object
      keyed by index: [a[i] = v] writes key [i] whatever the length and a
      missing key reads [undefined].  They are finite maps from index to
      value, [[x, y]] being [{[0 := x; 1 := y]}];
    - [spectators] is a JS [Set], iterated in insertion order: a
      duplicate-free list;
    - [setTimeout] allocates a fresh handle and records the callback with
      the time it was armed and the delay Node arms, which is 1 ms for a
      delay below 1 or above [2^31 - 1]; [clearTimeout] forgets it; a
      timer event runs the callback of a handle that is still pending.
      Timer events are not ordered by their due time: every order of
      firing is a run;
    - [Date.now()] is an input of every event;
    - [ws.send] appends a frame to [wire]; every call of [JSON.stringify]
      on an outgoing frame is counted in [stringified];
    - a tick of the heartbeat interval is a function on the socket table.

    Outside the model: the coercion [String(x)] of non-string [room] /
    [deviceId] fields, a [ROLE_LEASE_MS] variable that does not parse to
    an integer, and exceptions thrown by [ws.send] and [ws.ping] (they are
    caught and dropped by the source).  Room ids that name a property of
    [Object.prototype] ([Object_prototype_names]) are outside it too: a
    join with such an id throws and ends the process, so the real server
    has no state after it, while the model treats the id like any other.
    Every state the real server reaches is therefore a state of the model;
    what is proved of a join that creates a room is to be read for ids
    that are none of these names, and the theorem on the first join of an
    id has that as a hypothesis. *)

From Stdlib Require Import ZArith.
From stdpp Require Import gmap strings list fin_maps.

Local Open Scope Z_scope.

(** ** Values *)

(** Parsed JSON values, as far as the handlers look at them. *)
#[local] Unset Elimination Schemes.
Inductive JsVal :=
  | JNull
  | JBool (b : bool)
  | JNum (n : Z)
  | JStr (s : string)
  | JArr (items : list JsVal)
  | JObj (fields : list (string * JsVal)).
#[local] Set Elimination Schemes.

(** [if (v)] on a JSON value. *)
Definition truthy (v : JsVal) : bool :=
  match v with
  | JNull => false
  | JBool b => b
  | JNum n => negb (n =? 0)
  | JStr s => negb (bool_decide (s = ""%string))
  | JArr _ | JObj _ => true
  end.

(** [typeof v === "object"]. *)
Definition typeof_object (v : JsVal) : bool :=
  match v with
  | JNull | JArr _ | JObj _ => true
  | _ => false
  end.

(** [msg.state && typeof msg.state === "object"]; an absent field is
    [undefined]. *)
Definition is_state_payload (state : option JsVal) : bool :=
  match state with
  | Some v => truthy v && typeof_object v
  | None => false
  end.

Inductive ReadyState := CONNECTING | OPEN | CLOSING | CLOSED.

Global Instance ReadyState_eq_dec : EqDecision ReadyState.
Proof. solve_decision. Defined.

(** The fields the server keeps on a socket. *)
Record WS := mkWS {
  readyState : ReadyState;
  isAlive : bool;
  roomId : option string;
  roleIdx : option nat;
  deviceId : option string;
}.

(** [wss.on("connection")]. *)
Definition new_ws : WS :=
  {| readyState := OPEN; isAlive := true;
     roomId := None; roleIdx := None; deviceId := None |}.

Inductive Label := P1 | P2 | Kansen (ordinal : option nat).

(** Frames the server sends. *)
Inductive OutMsg :=
  | MsgRole (index : nat)
  | MsgSyncState (state : JsVal)
  | MsgChat (from : Label) (text : string) (time : string).

(** Frames the server understands; any other frame is dropped. *)
Inductive InMsg :=
  | Join (room : option string) (device : option string)
  | RequestState
  | SyncState (state : option JsVal)
  | Chat (text : option string) (time : option string).

(** Timer callbacks.  The lease callback closes over the values of
    [roomId] and [roleIdx]; the cleanup callback closes over the socket
    object and reads [ws.roomId] when it runs. *)
Inductive Callback :=
  | LeaseExpire (roomId : string) (roleIdx : nat)
  | Cleanup (ws : nat).

Record Timeout := mkTimeout {
  armed_at : Z;
  delay : Z;
  callback : Callback;
}.

Record Room := mkRoom {
  slots : gmap nat (option nat);
  spectators : list nat;
  specQueue : list string;
  playerToken : gmap nat (option string);
  playerLeaseExpiry : gmap nat Z;
  playerLeaseTimer : gmap nat (option nat);
  state : option JsVal;
  lastUpdated : Z;
  cleanupTimer : option nat;
}.

Record Server := mkServer {
  rooms : gmap string Room;
  sockets : gmap nat WS;
  timeouts : gmap nat Timeout;
  next_timeout : nat;
  next_socket : nat;
  wire : list (nat * OutMsg);
  stringified : nat;
}.

(** ** Field updates *)

Definition set_slots (f : gmap nat (option nat) → gmap nat (option nat)) (r : Room) : Room :=
  mkRoom (f (slots r)) (spectators r) (specQueue r) (playerToken r)
         (playerLeaseExpiry r) (playerLeaseTimer r) (state r) (lastUpdated r)
         (cleanupTimer r).
Definition set_spectators (f : list nat → list nat) (r : Room) : Room :=
  mkRoom (slots r) (f (spectators r)) (specQueue r) (playerToken r)
         (playerLeaseExpiry r) (playerLeaseTimer r) (state r) (lastUpdated r)
         (cleanupTimer r).
Definition set_specQueue (f : list string → list string) (r : Room) : Room :=
  mkRoom (slots r) (spectators r) (f (specQueue r)) (playerToken r)
         (playerLeaseExpiry r) (playerLeaseTimer r) (state r) (lastUpdated r)
         (cleanupTimer r).
Definition set_playerToken (f : gmap nat (option string) → gmap nat (option string)) (r : Room) : Room :=
  mkRoom (slots r) (spectators r) (specQueue r) (f (playerToken r))
         (playerLeaseExpiry r) (playerLeaseTimer r) (state r) (lastUpdated r)
         (cleanupTimer r).
Definition set_playerLeaseExpiry (f : gmap nat Z → gmap nat Z) (r : Room) : Room :=
  mkRoom (slots r) (spectators r) (specQueue r) (playerToken r)
         (f (playerLeaseExpiry r)) (playerLeaseTimer r) (state r) (lastUpdated r)
         (cleanupTimer r).
Definition set_playerLeaseTimer (f : gmap nat (option nat) → gmap nat (option nat)) (r : Room) : Room :=
  mkRoom (slots r) (spectators r) (specQueue r) (playerToken r)
         (playerLeaseExpiry r) (f (playerLeaseTimer r)) (state r) (lastUpdated r)
         (cleanupTimer r).
Definition set_state (v : option JsVal) (r : Room) : Room :=
  mkRoom (slots r) (spectators r) (specQueue r) (playerToken r)
         (playerLeaseExpiry r) (playerLeaseTimer r) v (lastUpdated r)
         (cleanupTimer r).
Definition set_lastUpdated (t : Z) (r : Room) : Room :=
  mkRoom (slots r) (spectators r) (specQueue r) (playerToken r)
         (playerLeaseExpiry r) (playerLeaseTimer r) (state r) t
         (cleanupTimer r).
Definition set_cleanupTimer (t : option nat) (r : Room) : Room :=
  mkRoom (slots r) (spectators r) (specQueue r) (playerToken r)
         (playerLeaseExpiry r) (playerLeaseTimer r) (state r) (lastUpdated r) t.

Definition set_rooms (f : gmap string Room → gmap string Room) (st : Server) : Server :=
  mkServer (f (rooms st)) (sockets st) (timeouts st) (next_timeout st)
           (next_socket st) (wire st) (stringified st).
Definition set_sockets (f : gmap nat WS → gmap nat WS) (st : Server) : Server :=
  mkServer (rooms st) (f (sockets st)) (timeouts st) (next_timeout st)
           (next_socket st) (wire st) (stringified st).
Definition set_timeouts (f : gmap nat Timeout → gmap nat Timeout) (st : Server) : Server :=
  mkServer (rooms st) (sockets st) (f (timeouts st)) (next_timeout st)
           (next_socket st) (wire st) (stringified st).

Definition set_readyState (s : ReadyState) (w : WS) : WS :=
  mkWS s (isAlive w) (roomId w) (roleIdx w) (deviceId w).
Definition set_roomId (v : option string) (w : WS) : WS :=
  mkWS (readyState w) (isAlive w) v (roleIdx w) (deviceId w).
Definition set_roleIdx (v : option nat) (w : WS) : WS :=
  mkWS (readyState w) (isAlive w) (roomId w) v (deviceId w).
Definition set_deviceId (v : option string) (w : WS) : WS :=
  mkWS (readyState w) (isAlive w) (roomId w) (roleIdx w) v.

(** [room.f = ...] and [ws.f = ...] on the objects held in the tables. *)
Definition update_room (rid : string) (f : Room → Room) (st : Server) : Server :=
  set_rooms (alter f rid) st.
Definition update_ws (c : nat) (f : WS → WS) (st : Server) : Server :=
  set_sockets (alter f c) st.

(** ** Configuration *)

(** [parseInt(process.env.ROLE_LEASE_MS || "90000", 10)]; [env] is the
    integer the variable parses to, [None] when it is unset or empty. *)
Definition ROLE_LEASE_MS (env : option Z) : Z :=
  match env with
  | Some ms => ms
  | None => 90000
  end.

(** [15 * 60 * 1000] in the close handler. *)
Definition TTL : Z := 15 * 60 * 1000.

(** ** Room table *)

(** A property read [rooms[k]] turns [k] into a string: [ws.roomId] is
    [null] before the first join and reads key ["null"]. *)
Definition room_key (k : option string) : string := default "null"%string k.

Definition fresh_room (now : Z) : Room :=
  {| slots := {[0%nat := None; 1%nat := None]};
     spectators := [];
     specQueue := [];
     playerToken := {[0%nat := None; 1%nat := None]};
     playerLeaseExpiry := {[0%nat := 0; 1%nat := 0]};
     playerLeaseTimer := {[0%nat := None; 1%nat := None]};
     state := None;
     lastUpdated := now;
     cleanupTimer := None |}.

(** [rooms] is a plain object, so a read [rooms[k]] that finds no room
    stored under [k] goes on to [Object.prototype].  Under the names below
    it finds a function or an object there, which is truthy and is not a
    room: [getOrCreateRoom] then stores nothing, and the join handler
    throws at [room.slots[0]].  The table [rooms st] holds the rooms that
    were stored, and [getOrCreateRoom] and the handlers are the code for
    the ids that are none of these names. *)
Definition Object_prototype_names : list string :=
  ["constructor"; "__proto__"; "hasOwnProperty"; "isPrototypeOf";
   "propertyIsEnumerable"; "toLocaleString"; "toString"; "valueOf";
   "__defineGetter__"; "__defineSetter__"; "__lookupGetter__";
   "__lookupSetter__"]%string.

Definition getOrCreateRoom (rid : string) (now : Z) (st : Server) : Room * Server :=
  match rooms st !! rid with
  | Some room => (room, st)
  | None => (fresh_room now, set_rooms <[rid := fresh_room now]> st)
  end.

(** [room.slots[r]], with [null] and [undefined] both read as empty. *)
Definition slot (room : Room) (r : nat) : option nat := mjoin (slots room !! r).
Definition token (room : Room) (r : nat) : option string := mjoin (playerToken room !! r).
Definition leaseTimer (room : Room) (r : nat) : option nat := mjoin (playerLeaseTimer room !! r).

(** ** Sending *)

Definition is_open (st : Server) (c : nat) : bool :=
  match sockets st !! c with
  | Some ws => bool_decide (readyState ws = OPEN)
  | None => false
  end.

(** [send(ws, obj)]: one [JSON.stringify] and one frame, only to an open
    socket. *)
Definition send (c : nat) (m : OutMsg) (st : Server) : Server :=
  if is_open st c
  then mkServer (rooms st) (sockets st) (timeouts st) (next_timeout st)
                (next_socket st) (wire st ++ [(c, m)]) (S (stringified st))
  else st.

(** [if (room.state) send(ws, {type: "syncState", state: room.state})]. *)
Definition send_state (room : Room) (c : nat) (st : Server) : Server :=
  match state room with
  | Some v => if truthy v then send c (MsgSyncState v) st else st
  | None => st
  end.

(** [[room.slots[0], room.slots[1], ...room.spectators].filter(Boolean)]. *)
Definition targets (room : Room) : list nat :=
  omap id [slot room 0; slot room 1] ++ spectators room.

(** [broadcast(roomId, obj)]: the payload is built once, then handed to
    every open target. *)
Definition broadcast (rid : string) (m : OutMsg) (st : Server) : Server :=
  match rooms st !! rid with
  | None => st
  | Some room =>
      let peers := filter (λ c, is_open st c = true) (targets room) in
      mkServer (rooms st) (sockets st) (timeouts st) (next_timeout st)
               (next_socket st) (wire st ++ ((λ c, (c, m)) <$> peers))
               (S (stringified st))
  end.

(** ** Timers *)

(** Node's [TIMEOUT_MAX], [2^31 - 1] milliseconds. *)
Definition TIMEOUT_MAX : Z := 2147483647.

(** The delay [setTimeout(cb, ms)] arms: Node replaces a delay that is
    below 1 or above [TIMEOUT_MAX] by 1. *)
Definition armed_delay (ms : Z) : Z :=
  if (1 <=? ms) && (ms <=? TIMEOUT_MAX) then ms else 1.

(** [setTimeout(cb, ms)] called at time [now]: a fresh handle, pending with
    the delay Node arms for [ms]. *)
Definition setTimeout (cb : Callback) (ms : Z) (now : Z) (st : Server) : nat * Server :=
  (next_timeout st,
   mkServer (rooms st) (sockets st)
            (<[next_timeout st := mkTimeout now (armed_delay ms) cb]> (timeouts st))
            (S (next_timeout st)) (next_socket st) (wire st) (stringified st)).


Definition clearTimeout (t : nat) (st : Server) : Server :=
  set_timeouts (delete t) st.

(** [if (h) clearTimeout(h)]. *)
Definition clear_if_set (h : option nat) (st : Server) : Server :=
  match h with
  | Some t => clearTimeout t st
  | None => st
  end.

(** ** Roles *)

(** [ws.deviceId || null]. *)
Definition token_of (dev : option string) : option string :=
  match dev with
  | Some d => if bool_decide (d = ""%string) then None else Some d
  | None => None
  end.

(** The writes of [assignRole(room, roleIdx, ws)] to the room object. *)
Definition assignRole_room (r : nat) (c : nat) (dev : option string) (room : Room) : Room :=
  let room1 := set_slots <[r := Some c]> room in
  let room2 := set_playerToken <[r := token_of dev]> room1 in
  let room3 := set_playerLeaseExpiry <[r := 0]> room2 in
  match leaseTimer room r with
  | Some _ => set_playerLeaseTimer <[r := None]> room3
  | None => room3
  end.

(** [assignRole(room, roleIdx, ws)], the room being the one stored under
    [rid]: the room writes, [ws.roleIdx = roleIdx], and the [clearTimeout]
    of a lease timer that was set. *)
Definition assignRole (rid : string) (r : nat) (c : nat) (st : Server) : Server :=
  match rooms st !! rid, sockets st !! c with
  | Some room, Some ws =>
      clear_if_set (leaseTimer room r)
        (update_ws c (set_roleIdx (Some r))
           (set_rooms <[rid := assignRole_room r c (deviceId ws) room]> st))
  | _, _ => st
  end.

(** [Set.prototype.add] and [Set.prototype.delete] on the insertion-ordered
    list. *)
Definition set_add (c : nat) (l : list nat) : list nat :=
  if bool_decide (c ∈ l) then l else l ++ [c].
Definition set_delete (c : nat) (l : list nat) : list nat :=
  filter (λ x, x ≠ c) l.

(** [enqueueSpectator(room, ws)]. *)
Definition enqueueSpectator (c : nat) (dev : option string) (room : Room) : Room :=
  let room := set_spectators (set_add c) room in
  match token_of dev with
  | Some d =>
      if bool_decide (d ∈ specQueue room) then room
      else set_specQueue (λ q, q ++ [d]) room
  | None => room
  end.

(** The inner [for (const s of room.spectators)] of
    [dequeueNextLiveSpectator]: the first open spectator whose [deviceId]
    is [dev]. *)
Definition live_spectator (st : Server) (dev : string) (specs : list nat) : option nat :=
  List.find (λ s, is_open st s &&
                  match sockets st !! s with
                  | Some ws => bool_decide (deviceId ws = Some dev)
                  | None => false
                  end) specs.

(** [dequeueNextLiveSpectator(room)]: the [while] loop runs down the queue;
    the result is the promoted socket, the spectators left and the queue
    left. *)
Fixpoint dequeueNextLiveSpectator (st : Server) (specs : list nat) (queue : list string)
  : option nat * list nat * list string :=
  match queue with
  | [] => (None, specs, [])
  | dev :: rest =>
      match live_spectator st dev specs with
      | Some s => (Some s, set_delete s specs, rest)
      | None => dequeueNextLiveSpectator st specs rest
      end
  end.

(** ** Handlers *)

Section Handlers.

(** The integer [process.env.ROLE_LEASE_MS] parses to, if set. *)
Variable env : option Z.

(** [onLeaseExpire(roomId, roleIdx)]. *)
Definition onLeaseExpire (rid : string) (r : nat) (st : Server) : Server :=
  match rooms st !! rid with
  | None => st
  | Some room =>
      match slot room r with
      | Some _ => st
      | None =>
          match dequeueNextLiveSpectator st (spectators room) (specQueue room) with
          | (Some s, specs, queue) =>
              let room1 := set_specQueue (λ _, queue) (set_spectators (λ _, specs) room) in
              let st1 := assignRole rid r s (set_rooms <[rid := room1]> st) in
              send_state room s (send s (MsgRole r) st1)
          | (None, specs, queue) =>
              let room1 := set_specQueue (λ _, queue) (set_spectators (λ _, specs) room) in
              let room2 :=
                set_playerLeaseTimer <[r := None]>
                  (set_playerLeaseExpiry <[r := 0]>
                     (set_playerToken <[r := None]> room1)) in
              set_rooms <[rid := room2]> st
          end
      end
  end.

(** [startLeaseTimer(roomId, roleIdx)]. *)
Definition startLeaseTimer (rid : string) (r : nat) (now : Z) (st : Server) : Server :=
  match rooms st !! rid with
  | None => st
  | Some room =>
      let st1 := clear_if_set (leaseTimer room r) st in
      let st2 := update_room rid
                   (set_playerLeaseExpiry <[r := now + ROLE_LEASE_MS env]>) st1 in
      let '(t, st3) := setTimeout (LeaseExpire rid r) (ROLE_LEASE_MS env) now st2 in
      update_room rid (set_playerLeaseTimer <[r := Some t]>) st3
  end.

(** The test of the first loop of the join handler, for slot [r]. *)
Definition can_reclaim (room : Room) (dev : string) (now : Z) (r : nat) : bool :=
  match slot room r with
  | Some _ => false
  | None =>
      match token room r with
      | Some tk =>
          negb (bool_decide (tk = ""%string)) && bool_decide (tk = dev) &&
          match playerLeaseExpiry room !! r with
          | Some e => (e =? 0) || (now <? e)
          | None => false
          end
      | None => false
      end
  end.

(** The test of the second loop of the join handler, for slot [r]. *)
Definition can_seat (room : Room) (now : Z) (r : nat) : bool :=
  match slot room r with
  | Some _ => false
  | None =>
      match playerLeaseExpiry room !! r with
      | Some e => (e =? 0) || (now >=? e)
      | None => false
      end
  end.

(** [for (let r=0; r<2; r++) if (test(r)) ... return]: the first index
    that passes. *)
Definition first_slot (test : nat → bool) : option nat :=
  List.find test [0%nat; 1%nat].

(** [String(msg.room || "room1")] and [String(msg.deviceId || "")] on
    string or absent fields. *)
Definition room_of (room : option string) : string :=
  match room with
  | Some s => if bool_decide (s = ""%string) then "room1"%string else s
  | None => "room1"%string
  end.
Definition device_of (device : option string) : string := default ""%string device.

(** The seating shared by both loops: [assignRole], the role frame, the
    snapshot if there is one. *)
Definition seat (rid : string) (r : nat) (c : nat) (room : Room) (st : Server) : Server :=
  send_state room c (send c (MsgRole r) (assignRole rid r c st)).

(** The [join] branch of the message handler. *)
Definition on_join (c : nat) (mroom mdev : option string) (now : Z) (st : Server) : Server :=
  let rid := room_of mroom in
  let dev := device_of mdev in
  let '(room, st1) := getOrCreateRoom rid now st in
  let st2 := update_ws c (λ w, set_deviceId (Some dev) (set_roomId (Some rid) w)) st1 in
  match first_slot (can_reclaim room dev now) with
  | Some r => seat rid r c room st2
  | None =>
      match first_slot (can_seat room now) with
      | Some r => seat rid r c room st2
      | None =>
          let room1 := enqueueSpectator c (Some dev) room in
          let idx := (2 + length (spectators room1) - 1)%nat in
          let st3 := update_ws c (set_roleIdx (Some idx))
                       (set_rooms <[rid := room1]> st2) in
          send_state room1 c (send c (MsgRole idx) st3)
      end
  end.

(** The [request_state] branch. *)
Definition on_request_state (c : nat) (ws : WS) (st : Server) : Server :=
  match rooms st !! room_key (roomId ws) with
  | Some room => send_state room c st
  | None => st
  end.

(** [ws.roleIdx === 0 || ws.roleIdx === 1]. *)
Definition is_player (ws : WS) : bool :=
  bool_decide (roleIdx ws = Some 0%nat) || bool_decide (roleIdx ws = Some 1%nat).

(** The [syncState] branch. *)
Definition on_syncState (ws : WS) (mstate : option JsVal) (now : Z) (st : Server) : Server :=
  let rid := room_key (roomId ws) in
  match rooms st !! rid with
  | None => st
  | Some room =>
      if is_player ws then
        match mstate with
        | Some v =>
            if truthy v && typeof_object v then
              let st1 := update_room rid (λ r, set_lastUpdated now (set_state (Some v) r)) st in
              broadcast rid (MsgSyncState v) st1
            else st
        | None => st
        end
      else st
  end.

(** The sender label of a chat frame. *)
Definition label_of (ws : WS) : Label :=
  if bool_decide (roleIdx ws = Some 0%nat) then P1
  else if bool_decide (roleIdx ws = Some 1%nat) then P2
  else Kansen (roleIdx ws).

(** The [chat] branch; [clock] is [new Date().toLocaleTimeString()]. *)
Definition on_chat (ws : WS) (text time : option string) (clock : string) (st : Server) : Server :=
  let rid := room_key (roomId ws) in
  match rooms st !! rid with
  | None => st
  | Some _ =>
      let time' := match time with
                   | Some t => if bool_decide (t = ""%string) then clock else t
                   | None => clock
                   end in
      broadcast rid (MsgChat (label_of ws) (default ""%string text) time') st
  end.

(** [ws.on("message")] for a frame that parsed. *)
Definition on_message (c : nat) (m : InMsg) (now : Z) (clock : string) (st : Server) : Server :=
  match sockets st !! c with
  | None => st
  | Some ws =>
      match m with
      | Join mroom mdev => on_join c mroom mdev now st
      | RequestState => on_request_state c ws st
      | SyncState v => on_syncState ws v now st
      | Chat text time => on_chat ws text time clock st
      end
  end.

(** [peers] of the close handler. *)
Definition peers (room : Room) : nat :=
  ((if slot room 0 is Some _ then 1 else 0)
   + (if slot room 1 is Some _ then 1 else 0)
   + length (spectators room))%nat.

(** The tail of the close handler: arm the deletion of an empty room. *)
Definition schedule_cleanup (c : nat) (rid : string) (now : Z) (st : Server) : Server :=
  match rooms st !! rid with
  | None => st
  | Some room =>
      if bool_decide (peers room = 0%nat) then
        let st1 := clear_if_set (cleanupTimer room) st in
        let '(t, st2) := setTimeout (Cleanup c) TTL now st1 in
        update_room rid (set_cleanupTimer (Some t)) st2
      else st
  end.

(** [ws.on("close")]; the socket is already [CLOSED] when the handler
    runs. *)
Definition on_close (c : nat) (now : Z) (st : Server) : Server :=
  let st0 := update_ws c (set_readyState CLOSED) st in
  match sockets st0 !! c with
  | None => st0
  | Some ws =>
      let rid := room_key (roomId ws) in
      match rooms st0 !! rid with
      | None => st0
      | Some room =>
          let st1 :=
            if is_player ws then
              match roleIdx ws with
              | Some r =>
                  if bool_decide (slot room r = Some c) then
                    startLeaseTimer rid r now
                      (update_room rid (set_slots <[r := None]>) st0)
                  else st0
              | None => st0
              end
            else update_room rid (set_spectators (set_delete c)) st0 in
          schedule_cleanup c rid now st1
      end
  end.

(** The cleanup callback: [delete rooms[ws.roomId]]. *)
Definition on_cleanup (c : nat) (st : Server) : Server :=
  match sockets st !! c with
  | Some ws => set_rooms (delete (room_key (roomId ws))) st
  | None => st
  end.

(** A pending timeout fires: its handle is spent and its callback runs. *)
Definition on_timeout (t : nat) (st : Server) : Server :=
  match timeouts st !! t with
  | None => st
  | Some tm =>
      let st1 := set_timeouts (delete t) st in
      match callback tm with
      | LeaseExpire rid r => onLeaseExpire rid r st1
      | Cleanup c => on_cleanup c st1
      end
  end.

(** [wss.on("connection")]: a new socket object. *)
Definition on_connection (st : Server) : Server :=
  mkServer (rooms st) (<[next_socket st := new_ws]> (sockets st)) (timeouts st)
           (next_timeout st) (S (next_socket st)) (wire st) (stringified st).

(** ** Events *)

(** What the event loop delivers.  [Drop] is the transport taking a socket
    out of [OPEN] before its close event is delivered. *)
Inductive Event :=
  | Connection
  | Message (c : nat) (m : InMsg) (now : Z) (clock : string)
  | Drop (c : nat)
  | Close (c : nat) (now : Z)
  | Fire (t : nat).

Definition step (st : Server) (e : Event) : Server :=
  match e with
  | Connection => on_connection st
  | Message c m now clock => on_message c m now clock st
  | Drop c => update_ws c (set_readyState CLOSING) st
  | Close c now => on_close c now st
  | Fire t => on_timeout t st
  end.

Definition run (st : Server) (evs : list Event) : Server := fold_left step evs st.

Definition init : Server :=
  {| rooms := ∅; sockets := ∅; timeouts := ∅; next_timeout := 0;
     next_socket := 0; wire := []; stringified := 0 |}.

End Handlers.

(** ** Uncaught exceptions *)

(** The one event whose handler throws: a [join], on a socket that
    exists, for an id of [Object_prototype_names] under which no room is
    stored.  [getOrCreateRoom] returns the inherited property and
    [room.slots[0]] is a read of [undefined[0]].  Nothing catches the
    exception, so the process ends. *)
Definition join_throws (st : Server) (e : Event) : bool :=
  match e with
  | Message c (Join mroom _) _ _ =>
      match sockets st !! c, rooms st !! room_of mroom with
      | Some _, None => bool_decide (room_of mroom ∈ Object_prototype_names)
      | _, _ => false
      end
  | _ => false
  end.

(** The events of the run are handled one after another and none throws:
    the events are a run of the real process. *)
Fixpoint survives (env : option Z) (st : Server) (evs : list Event) : bool :=
  match evs with
  | [] => true
  | e :: evs => negb (join_throws st e) && survives env (step env st e) evs
  end.

(** No room is stored under a name of [Object.prototype] and no socket
    records one as its [roomId]: every read [rooms[ws.roomId]] and
    [rooms[roomId]] of the handlers is then a read of the table. *)
Definition own_ids (st : Server) : Prop :=
  (∀ rid, is_Some (rooms st !! rid) → rid ∉ Object_prototype_names) ∧
  (∀ c ws rid, sockets st !! c = Some ws → roomId ws = Some rid →
               rid ∉ Object_prototype_names).

(** ** Vocabulary of the statements *)

(** The frames a broadcast of [m] to [room] puts on the wire in state [st]. *)
Definition frames (st : Server) (room : Room) (m : OutMsg) : list (nat * OutMsg) :=
  (λ c, (c, m)) <$> filter (λ c, is_open st c = true) (targets room).

(** The snapshot frame a joining, promoted or requesting socket gets: none
    when the room has no snapshot. *)
Definition state_frames (room : Room) (c : nat) : list (nat * OutMsg) :=
  match state room with
  | Some v => if truthy v then [(c, MsgSyncState v)] else []
  | None => []
  end.

(** The room object after the join handler ran for socket [c] with device
    id [dev] at time [now]: the three branches of the handler. *)
Definition join_room (c : nat) (dev : string) (now : Z) (room : Room) : Room :=
  match first_slot (can_reclaim room dev now) with
  | Some r => assignRole_room r c (Some dev) room
  | None =>
      match first_slot (can_seat room now) with
      | Some r => assignRole_room r c (Some dev) room
      | None => enqueueSpectator c (Some dev) room
      end
  end.

(** The slot the join handler seats the socket in, if it seats it. *)
Definition join_slot (dev : string) (now : Z) (room : Room) : option nat :=
  match first_slot (can_reclaim room dev now) with
  | Some r => Some r
  | None => first_slot (can_seat room now)
  end.

(** The role the join handler records on the socket: the slot, or the
    spectator ordinal. *)
Definition join_role (c : nat) (dev : string) (now : Z) (room : Room) : nat :=
  match join_slot dev now room with
  | Some r => r
  | None => (2 + length (spectators (join_room c dev now room)) - 1)%nat
  end.

(** Where a socket can sit in a room. *)
Inductive Place :=
  | InSlot (r : nat)
  | InSpectators.

Definition holds (room : Room) (p : Place) (c : nat) : Prop :=
  match p with
  | InSlot r => slot room r = Some c
  | InSpectators => c ∈ spectators room
  end.

(** Socket [c] sits at place [p] of the room stored under [rid]. *)
Definition occupies (st : Server) (rid : string) (p : Place) (c : nat) : Prop :=
  ∃ room, rooms st !! rid = Some room ∧ holds room p c.

(** No socket sits at two places: not in two slots, not in a slot and
    among the spectators, not in two rooms. *)
Definition one_place (st : Server) : Prop :=
  ∀ c rid1 p1 rid2 p2,
    occupies st rid1 p1 c → occupies st rid2 p2 c → rid1 = rid2 ∧ p1 = p2.

(** Sockets that sit somewhere have joined ([J] lists the joiners so far),
    and nobody sits at two places. *)
Definition seated_once (st : Server) (J : list nat) : Prop :=
  one_place st ∧ ∀ rid p c, occupies st rid p c → c ∈ J.

(** [st'] seats nobody that [st] does not seat at the same place. *)
Definition no_new_seat (st st' : Server) : Prop :=
  ∀ rid room', rooms st' !! rid = Some room' →
    ∃ room, rooms st !! rid = Some room ∧ ∀ p c, holds room' p c → holds room p c.



(** Socket [s] is a connected session of device [d]: it is open and its
    [deviceId] is [d]. *)
Definition live_session (st : Server) (d : string) (s : nat) : Prop :=
  is_open st s = true ∧ ∃ ws, sockets st !! s = Some ws ∧ deviceId ws = Some d.

(** Device [d] has a connected session among the spectators [specs]. *)
Definition has_live_spectator (st : Server) (specs : list nat) (d : string) : Prop :=
  ∃ s, s ∈ specs ∧ live_session st d s.

(** The place the join handler puts the socket at. *)
Definition join_place (dev : string) (now : Z) (room : Room) : Place :=
  match join_slot dev now room with
  | Some r => InSlot r
  | None => InSpectators
  end.

(** The sockets that send a [join] frame in a run, in order. *)
Definition joiners (evs : list Event) : list nat :=
  omap (λ e, match e with
             | Message c (Join _ _) _ _ => Some c
             | _ => None
             end) evs.

(** Every socket sends at most one [join] frame. *)
Definition join_once (evs : list Event) : Prop := NoDup (joiners evs).

(** The room stored under [rid] and the socket numbered [c], for states in
    which they exist. *)
Definition the_room (st : Server) (rid : string) : Room :=
  default (fresh_room 0) (rooms st !! rid).
Definition the_ws (st : Server) (c : nat) : WS :=
  default new_ws (sockets st !! c).

(** ** Sample runs *)

Definition join_as (c : nat) (rid dev : string) (now : Z) : Event :=
  Message c (Join (Some rid) (Some dev)) now ""%string.

(** Two sockets that have not joined. *)
Definition two_sockets : Server := run None init [Connection; Connection].

(** Two sockets of one device ["D"] seated in both slots of ["r1"], a
    third socket connected, and the occupant of slot 0 gone at time 10. *)
Definition same_device_r1 : Server :=
  run None init
    [Connection; Connection; Connection;
     join_as 0 "r1" "D" 0; join_as 1 "r1" "D" 1; Close 0 10].

(** Both players of ["r1"] gone, slot 0 at time 10 (lease handle 0) and
    slot 1 at time 20 (lease handle 1); a third socket is connected. *)
Definition both_leaving_r1 : Server :=
  run None init
    [Connection; Connection; Connection;
     join_as 0 "r1" "a" 0; join_as 1 "r1" "b" 1;
     Close 0 10; Close 1 20].

(** The same once the lease of slot 0 has expired. *)
Definition both_left_r1 : Server := run None both_leaving_r1 [Fire 0].

(** One socket that sent [join] twice for the same room. *)
Definition joined_twice : Server :=
  run None init [Connection; join_as 0 "r1" "a" 0; join_as 0 "r1" "a" 1].

(** A room emptied at time 1000 and joined again at time 2000, inside the
    fifteen minutes of its cleanup timer (handle 1); the lease of slot 0
    (handle 0) has expired meanwhile. *)
Definition rejoined_r1 : Server :=
  run None init
    [Connection; join_as 0 "r1" "a" 0; Close 0 1000;
     Connection; join_as 1 "r1" "b" 2000; Fire 0].

(** Two players in room ["r1"] and a third socket that has not joined. *)
Definition full_r1 : Server :=
  run None init
    [Connection; Connection; Connection;
     join_as 0 "r1" "d1" 0; join_as 1 "r1" "d2" 1].

(** Two players and a spectator in room ["r1"]. *)
Definition three_in_r1 : Server :=
  run None init
    [Connection; Connection; Connection;
     join_as 0 "r1" "d1" 0; join_as 1 "r1" "d2" 1; join_as 2 "r1" "d3" 2].


(** Room ["r1"] with slot 0 on lease, the spectator of the first queued
    device gone, and two spectators still connected. *)
Definition stale_head_r1 : Server :=
  run None init
    [Connection; Connection; Connection; Connection; Connection;
     join_as 0 "r1" "d1" 0; join_as 1 "r1" "d2" 1;
     join_as 2 "r1" "a" 2; join_as 3 "r1" "b" 3; join_as 4 "r1" "c" 4;
     Close 2 5; Close 0 10].

(** ** The heartbeat *)

Definition set_isAlive (b : bool) (w : WS) : WS :=
  mkWS (readyState w) b (roomId w) (roleIdx w) (deviceId w).

(** [ws.on("pong", () => (ws.isAlive = true))]. *)
Definition on_pong (c : nat) (st : Server) : Server :=
  update_ws c (set_isAlive true) st.

(** [client.terminate()]: nothing on a socket that is already [CLOSED],
    otherwise the socket is destroyed and is [CLOSING] until its close
    event is delivered. *)
Definition terminate (w : WS) : WS :=
  if bool_decide (readyState w = CLOSED) then w else set_readyState CLOSING w.

(** Membership of [wss.clients]: the server drops a socket from the set
    when its close event is delivered, that is when it becomes [CLOSED]. *)
Definition is_client (w : WS) : bool :=
  negb (bool_decide (readyState w = CLOSED)).

(** The body of the interval's loop for one client: terminate it if it has
    not answered the last ping, else mark it and ping it.  The ping is a
    control frame; a failed ping is caught and dropped. *)
Definition heartbeat_client (w : WS) : WS :=
  if is_client w then
    if isAlive w then set_isAlive false w else terminate w
  else w.

(** One tick of [setInterval(..., 30000)]. *)
Definition on_heartbeat (st : Server) : Server :=
  set_sockets (fmap heartbeat_client) st.

(** From [st] to [st'] every socket that exists keeps its [isAlive] flag
    and does not become [OPEN], and socket numbers are not given twice. *)
Definition sockets_kept (st st' : Server) : Prop :=
  (next_socket st ≤ next_socket st')%nat ∧
  ∀ c w, sockets st !! c = Some w → (c < next_socket st)%nat →
    ∃ w', sockets st' !! c = Some w' ∧ isAlive w' = isAlive w ∧
          (readyState w' = OPEN → readyState w = OPEN).

(** What a socket records about the place it sits at: its room, and its
    slot with the slot's token being its device id, or a spectator
    ordinal. *)
Definition recorded_at (st : Server) (rid : string) (room : Room) (p : Place) (c : nat)
  : Prop :=
  ∃ ws, sockets st !! c = Some ws ∧ roomId ws = Some rid ∧
        match p with
        | InSlot r => roleIdx ws = Some r ∧ token room r = token_of (deviceId ws)
        | InSpectators => ∃ n, roleIdx ws = Some n ∧ (2 ≤ n)%nat
        end.

Definition places_recorded (st : Server) : Prop :=
  ∀ rid room p c, rooms st !! rid = Some room → holds room p c →
                  recorded_at st rid room p c.

(** Socket numbers in use are below the next one to be given. *)
Definition sockets_numbered (st : Server) : Prop :=
  ∀ c, is_Some (sockets st !! c) → (c < next_socket st)%nat.

(** From [st] to [st'] nobody is seated anew and occupied slots keep their
    token. *)
Definition seats_shrink (st st' : Server) : Prop :=
  ∀ rid room', rooms st' !! rid = Some room' →
    ∃ room, rooms st !! rid = Some room ∧
            (∀ p c, holds room' p c → holds room p c) ∧
            (∀ r c, slot room' r = Some c → token room' r = token room r).

(** From [st] to [st'] the sockets are the same ones and record the same
    room, role and device id. *)
Definition ids_kept (st st' : Server) : Prop :=
  next_socket st' = next_socket st ∧
  ∀ c, match sockets st !! c, sockets st' !! c with
       | Some ws, Some ws' =>
           roomId ws' = roomId ws ∧ roleIdx ws' = roleIdx ws ∧
           deviceId ws' = deviceId ws
       | None, None => True
       | _, _ => False
       end.

(** Every snapshot stored in [st'] is stored under the same id in [st]. *)
Definition snapshots_from (st st' : Server) : Prop :=
  ∀ rid room' v, rooms st' !! rid = Some room' → state room' = Some v →
                 ∃ room, rooms st !! rid = Some room ∧ state room = Some v.

(** ** How a room changes *)

(** The rewrites the handlers apply to a room object: a join, an accepted
    snapshot, the three ways of the close handler, a promotion and a lease
    expiry without promotion. *)
Inductive room_change : Room → Room → Prop :=
  | rc_join c dev now room :
      room_change room (join_room c dev now room)
  | rc_sync v now room :
      is_state_payload (Some v) = true →
      room_change room (set_lastUpdated now (set_state (Some v) room))
  | rc_leave_slot r c e t h room :
      slot room r = Some c →
      room_change room
        (set_cleanupTimer h
           (set_playerLeaseTimer <[r := Some t]>
              (set_playerLeaseExpiry <[r := e]>
                 (set_slots <[r := None]> room))))
  | rc_leave_spectators c h room :
      room_change room (set_cleanupTimer h (set_spectators (set_delete c) room))
  | rc_cleanup_handle h room :
      room_change room (set_cleanupTimer h room)
  | rc_promote r s stale d rest room :
      slot room r = None →
      specQueue room = stale ++ d :: rest →
      s ∈ spectators room →
      room_change room
        (assignRole_room r s (Some d)
           (set_specQueue (λ _, rest)
              (set_spectators (λ _, set_delete s (spectators room)) room)))
  | rc_expire r room :
      slot room r = None →
      room_change room
        (set_playerLeaseTimer <[r := None]>
           (set_playerLeaseExpiry <[r := 0]>
              (set_playerToken <[r := None]>
                 (set_specQueue (λ _, []) room)))).

(** The queue holds each device id once and never the empty id, and no
    token is the empty string. *)
Definition ids_ok (room : Room) : Prop :=
  NoDup (specQueue room) ∧ (""%string ∉ specQueue room) ∧
  ∀ r, token room r ≠ Some ""%string.

(** An occupied slot has expiry 0 and no lease timer on record. *)
Definition occupied_unleased (room : Room) : Prop :=
  ∀ r c, slot room r = Some c →
         playerLeaseExpiry room !! r = Some 0 ∧ leaseTimer room r = None.

(** The snapshot, if any, is a value the [syncState] handler accepts. *)
Definition snapshot_ok (room : Room) : Prop :=
  match state room with
  | Some v => is_state_payload (Some v) = true
  | None => True
  end.

(** From [st] to [st'] no socket changed its [readyState] and the new
    frames all go to socket [c], which is open. *)
Definition sends_only_to (c : nat) (st st' : Server) : Prop :=
  (∀ p, is_open st' p = is_open st p) ∧
  ∃ delta, wire st' = wire st ++ delta ∧
           ∀ p m, (p, m) ∈ delta → p = c ∧ is_open st c = true.

(** The new frames of [st'] over [st] all go to sockets open in [st]. *)
Definition sends_to_open (st st' : Server) : Prop :=
  ∃ delta, wire st' = wire st ++ delta ∧
           ∀ c m, (c, m) ∈ delta → is_open st c = true.

(** A room named ["null"] with a snapshot, and a socket that has not
    joined. *)
Definition room_named_null : Server :=
  run None init
    [Connection; join_as 0 "null" "a" 0;
     Message 0 (SyncState (Some (JObj []))) 1 ""; Connection].

(** The room of [rejoined_r1] deleted by its cleanup timer and created
    again by sockets 2 and 3; socket 1 still records slot 1 of the deleted
    room. *)
Definition recreated_r1 : Server :=
  run None rejoined_r1
    [Fire 1; Connection; join_as 2 "r1" "c" 903000;
     Connection; join_as 3 "r1" "d" 903001].

(** * Properties *)

(** ** What the primitives leave alone *)

Lemma send_rooms c m st : rooms (send c m st) = rooms st.
Proof. unfold send. by destruct (is_open st c). Qed.

Lemma send_sockets c m st : sockets (send c m st) = sockets st.
Proof. unfold send. by destruct (is_open st c). Qed.

Lemma send_timeouts c m st : timeouts (send c m st) = timeouts st.
Proof. unfold send. by destruct (is_open st c). Qed.

Lemma send_next_timeout c m st : next_timeout (send c m st) = next_timeout st.
Proof. unfold send. by destruct (is_open st c). Qed.

Lemma send_open_wire c m st :
  is_open st c = true → wire (send c m st) = wire st ++ [(c, m)].
Proof. intros H. unfold send. by rewrite H. Qed.

Lemma send_state_rooms room c st : rooms (send_state room c st) = rooms st.
Proof.
  unfold send_state. destruct (state room) as [v|]; [|done].
  destruct (truthy v); [apply send_rooms|done].
Qed.

Lemma send_state_sockets room c st : sockets (send_state room c st) = sockets st.
Proof.
  unfold send_state. destruct (state room) as [v|]; [|done].
  destruct (truthy v); [apply send_sockets|done].
Qed.

Lemma send_state_timeouts room c st : timeouts (send_state room c st) = timeouts st.
Proof.
  unfold send_state. destruct (state room) as [v|]; [|done].
  destruct (truthy v); [apply send_timeouts|done].
Qed.

Lemma send_state_next_timeout room c st :
  next_timeout (send_state room c st) = next_timeout st.
Proof.
  unfold send_state. destruct (state room) as [v|]; [|done].
  destruct (truthy v); [apply send_next_timeout|done].
Qed.

Lemma clear_if_set_rooms h st : rooms (clear_if_set h st) = rooms st.
Proof. by destruct h. Qed.

Lemma clear_if_set_sockets h st : sockets (clear_if_set h st) = sockets st.
Proof. by destruct h. Qed.

Lemma clear_if_set_next_timeout h st :
  next_timeout (clear_if_set h st) = next_timeout st.
Proof. by destruct h. Qed.

Lemma clear_if_set_wire h st : wire (clear_if_set h st) = wire st.
Proof. by destruct h. Qed.

Lemma is_open_sockets st st' c :
  sockets st' = sockets st → is_open st' c = is_open st c.
Proof. unfold is_open. by intros ->. Qed.

(** ** The frames of a broadcast *)

Lemma broadcast_wire rid (m : OutMsg) st room :
  rooms st !! rid = Some room →
  wire (broadcast rid m st)
  = wire st ++ ((λ c, (c, m)) <$> filter (λ c, is_open st c = true) (targets room)).
Proof. intros H. unfold broadcast. by rewrite H. Qed.

Lemma broadcast_reaches (m : OutMsg) st room p :
  p ∈ targets room → is_open st p = true →
  (p, m) ∈ ((λ c, (c, m)) <$> filter (λ c, is_open st c = true) (targets room)).
Proof.
  intros Hin Hopen. apply list_elem_of_fmap. exists p. split; [done|].
  by apply list_elem_of_filter.
Qed.



(** ** syncState *)




(** C6.  The handler tests [ws.roleIdx] and nothing else: it does not test
    that the sender still sits in the room its [roomId] names, as the
    close handler does with [room.slots[ws.roleIdx] === ws].  In
    [recreated_r1] socket 1 is open and records role 1 of room ["r1"], but
    that room was deleted under it by the cleanup timer and created again
    by sockets 2 and 3, who hold its two slots.  A [syncState] frame of
    socket 1 is accepted: the room stores the payload and the time, the
    frame goes to sockets 2 and 3, and the sender, who is not in the room,
    gets nothing. *)
Theorem syncState_sender_left_out :
  let st := recreated_r1 in
  let st' := on_message 1 (SyncState (Some (JObj []))) 903002 "" st in
  is_open st 1 = true ∧
  roomId (the_ws st 1) = Some "r1"%string ∧ roleIdx (the_ws st 1) = Some 1%nat ∧
  targets (the_room st "r1") = [2%nat; 3%nat] ∧
  state (the_room st "r1") = None ∧
  state (the_room st' "r1") = Some (JObj []) ∧
  lastUpdated (the_room st' "r1") = 903002 ∧
  wire st' = wire st ++ [(2%nat, MsgSyncState (JObj [])); (3%nat, MsgSyncState (JObj []))].
Proof. vm_compute. repeat split; reflexivity. Qed.

(** ** Broadcast completeness *)





(** ** Joining as a spectator *)

Lemma send_state_open_wire room c st :
  is_open st c = true →
  wire (send_state room c st) = wire st ++ state_frames room c.
Proof.
  intros H. unfold send_state, state_frames.
  destruct (state room) as [v|]; [|by rewrite app_nil_r].
  destruct (truthy v); [by apply send_open_wire|by rewrite app_nil_r].
Qed.

Lemma is_open_update_ws c f st p :
  (∀ w, readyState (f w) = readyState w) →
  is_open (update_ws c f st) p = is_open st p.
Proof.
  intros Hf. unfold is_open, update_ws. simpl.
  destruct (decide (c = p)) as [->|Hne].
  - rewrite lookup_alter_eq. destruct (sockets st !! p); simpl; [|done].
    by rewrite Hf.
  - by rewrite lookup_alter_ne.
Qed.

Lemma set_add_elem c l : c ∈ set_add c l.
Proof.
  unfold set_add. case_bool_decide; [done|]. apply elem_of_app. right.
  by apply list_elem_of_singleton.
Qed.

Lemma getOrCreateRoom_existing rid now st room :
  rooms st !! rid = Some room → getOrCreateRoom rid now st = (room, st).
Proof. intros H. unfold getOrCreateRoom. by rewrite H. Qed.

Lemma enqueueSpectator_spectators c dev room :
  spectators (enqueueSpectator c dev room) = set_add c (spectators room).
Proof.
  unfold enqueueSpectator. destruct (token_of dev); [|done].
  by case_bool_decide.
Qed.

Lemma enqueueSpectator_slots c dev room :
  slots (enqueueSpectator c dev room) = slots room.
Proof.
  unfold enqueueSpectator. destruct (token_of dev); [|done].
  by case_bool_decide.
Qed.

Lemma enqueueSpectator_state c dev room :
  state (enqueueSpectator c dev room) = state room.
Proof.
  unfold enqueueSpectator. destruct (token_of dev); [|done].
  by case_bool_decide.
Qed.

Lemma enqueueSpectator_specQueue c (dev : string) room :
  specQueue (enqueueSpectator c (Some dev) room)
  = if bool_decide (dev ≠ ""%string ∧ dev ∉ specQueue room)
    then specQueue room ++ [dev] else specQueue room.
Proof.
  unfold enqueueSpectator, token_of.
  destruct (bool_decide_reflect (dev = ""%string)) as [->|Hne].
  - rewrite bool_decide_eq_false_2; [done|]. intros [? _]. done.
  - simpl. destruct (bool_decide_reflect (dev ∈ specQueue room)) as [Hin|Hnin].
    + rewrite bool_decide_eq_false_2; [done|]. intros [_ ?]. done.
    + by rewrite bool_decide_eq_true_2.
Qed.

(** C9. A join that neither loop seats goes to the spectator path: the
    socket is added to [spectators]; its device id is appended to
    [specQueue] exactly when it is non-empty and not yet in the queue; the
    slots are untouched; and the role it records and is sent is
    [2 + (spectator count after the insertion - 1)], which is 2 for the
    first spectator. *)
Theorem join_spectator_path c ws mroom mdev now clock room st :
  sockets st !! c = Some ws →
  rooms st !! room_of mroom = Some room →
  first_slot (can_reclaim room (device_of mdev) now) = None →
  first_slot (can_seat room now) = None →
  let rid := room_of mroom in
  let dev := device_of mdev in
  let st' := on_message c (Join mroom mdev) now clock st in
  ∃ room' ws',
    rooms st' !! rid = Some room' ∧ sockets st' !! c = Some ws' ∧
    spectators room' = set_add c (spectators room) ∧
    c ∈ spectators room' ∧
    slots room' = slots room ∧
    specQueue room'
    = (if bool_decide (dev ≠ ""%string ∧ dev ∉ specQueue room)
       then specQueue room ++ [dev] else specQueue room) ∧
    roleIdx ws' = Some (2 + (length (spectators room') - 1))%nat ∧
    (is_open st c = true →
     wire st' = wire st ++ (c, MsgRole (2 + (length (spectators room') - 1))%nat)
                           :: state_frames room c) ∧
    (spectators room = [] → roleIdx ws' = Some 2%nat).
Proof.
  intros Hws Hroom Hre Hse rid dev st'. subst st'.
  unfold on_message. rewrite Hws. unfold on_join. fold rid dev.
  rewrite (getOrCreateRoom_existing _ _ _ _ Hroom). fold dev in Hre. rewrite Hre, Hse.
  set (room1 := enqueueSpectator c (Some dev) room).
  set (idx := (2 + length (spectators room1) - 1)%nat).
  set (st2 := update_ws c _ st).
  set (st3 := update_ws c (set_roleIdx (Some idx)) _).
  assert (Hin : c ∈ spectators room1).
  { subst room1. rewrite enqueueSpectator_spectators. apply set_add_elem. }
  assert (Hlen : (1 ≤ length (spectators room1))%nat).
  { destruct (spectators room1); [by apply elem_of_nil in Hin|simpl; lia]. }
  assert (Hidx : idx = (2 + (length (spectators room1) - 1))%nat) by (subst idx; lia).
  assert (Hsock3 : sockets st3 !! c
                   = Some (set_roleIdx (Some idx)
                             (set_deviceId (Some dev) (set_roomId (Some rid) ws)))).
  { subst st3 st2. simpl. by rewrite !lookup_alter_eq, Hws. }
  exists room1, (set_roleIdx (Some idx) (set_deviceId (Some dev) (set_roomId (Some rid) ws))).
  split; [|split; [|split; [|split; [|split; [|split; [|split; [|split]]]]]]].
  - rewrite send_state_rooms, send_rooms. subst st3. simpl. by rewrite lookup_insert_eq.
  - by rewrite send_state_sockets, send_sockets.
  - apply enqueueSpectator_spectators.
  - done.
  - apply enqueueSpectator_slots.
  - apply enqueueSpectator_specQueue.
  - simpl. by rewrite Hidx.
  - intros Hop.
    assert (Hop3 : is_open st3 c = true).
    { subst st3. rewrite is_open_update_ws by done. simpl.
      unfold is_open in *. simpl. rewrite lookup_alter_eq.
      rewrite Hws in Hop |- *. done. }
    rewrite <- Hidx. rewrite send_state_open_wire.
    + rewrite send_open_wire by done. rewrite <- app_assoc. simpl.
      unfold state_frames. subst room1.
      by rewrite enqueueSpectator_state.
    + rewrite <- Hop3. apply is_open_sockets, send_sockets.
  - intros Hempty. simpl. f_equal. subst idx room1.
    rewrite enqueueSpectator_spectators, Hempty. done.
Qed.

Lemma join_spectator_path_witness :
  let st' := on_message 2 (Join (Some "r1") (Some "d3")) 2 "" full_r1 in
  roleIdx (the_ws st' 2) = Some 2%nat ∧
  spectators (the_room st' "r1") = [2%nat] ∧
  specQueue (the_room st' "r1") = ["d3"%string].
Proof.
  intros st'.
  destruct (join_spectator_path 2 (the_ws full_r1 2) (Some "r1"%string)
              (Some "d3"%string) 2 "" (the_room full_r1 "r1") full_r1)
    as (room' & ws' & Hroom & Hws & Hspec & _ & _ & Hq & _ & _ & Hfirst);
    [vm_compute; reflexivity..|].
  change (room_of (Some "r1"%string)) with "r1"%string in Hroom.
  unfold the_ws, the_room. fold st' in Hroom, Hws. rewrite Hroom, Hws. simpl.
  split; [by apply Hfirst|]. split; [by rewrite Hspec|]. by rewrite Hq.
Defined.

(** ** Disconnection of a seated player *)

Lemma update_room_lookup rid f st room :
  rooms st !! rid = Some room →
  rooms (update_room rid f st) !! rid = Some (f room).
Proof. intros H. simpl. by rewrite lookup_alter_eq, H. Qed.

(** What [startLeaseTimer] leaves behind. *)
Lemma startLeaseTimer_spec env rid r now st room :
  rooms st !! rid = Some room →
  let st' := startLeaseTimer env rid r now st in
  rooms st' !! rid
  = Some (set_playerLeaseTimer <[r := Some (next_timeout st)]>
            (set_playerLeaseExpiry <[r := now + ROLE_LEASE_MS env]> room)) ∧
  (∀ rid', rid ≠ rid' → rooms st' !! rid' = rooms st !! rid') ∧
  timeouts st'
  = <[next_timeout st := mkTimeout now (armed_delay (ROLE_LEASE_MS env)) (LeaseExpire rid r)]>
      (timeouts (clear_if_set (leaseTimer room r) st)) ∧
  next_timeout st' = S (next_timeout st) ∧
  sockets st' = sockets st ∧ wire st' = wire st.
Proof.
  intros Hroom st'. subst st'. unfold startLeaseTimer. rewrite Hroom.
  unfold setTimeout. simpl.
  rewrite !clear_if_set_rooms, !clear_if_set_next_timeout,
    clear_if_set_sockets, clear_if_set_wire.
  split; [|split; [|done]].
  - by rewrite !lookup_alter_eq, Hroom.
  - intros rid' Hne. by rewrite !lookup_alter_ne.
Qed.

(** What the tail of the close handler leaves behind: only the cleanup
    handle of the room and the timeout table can change, and only at the
    old cleanup handle and at the fresh one. *)
Lemma schedule_cleanup_spec c rid now st room :
  rooms st !! rid = Some room →
  let st' := schedule_cleanup c rid now st in
  (∃ h, rooms st' !! rid = Some (set_cleanupTimer h room)) ∧
  (∀ rid', rid ≠ rid' → rooms st' !! rid' = rooms st !! rid') ∧
  (∀ t, (t < next_timeout st)%nat → cleanupTimer room ≠ Some t →
        timeouts st' !! t = timeouts st !! t) ∧
  (∀ t, (t < next_timeout st)%nat → timeouts st !! t = None →
        timeouts st' !! t = None) ∧
  sockets st' = sockets st ∧ wire st' = wire st.
Proof.
  intros Hroom st'. subst st'. unfold schedule_cleanup. rewrite Hroom.
  case_bool_decide as Hp.
  - unfold setTimeout. simpl.
    rewrite !clear_if_set_rooms, !clear_if_set_next_timeout,
      clear_if_set_sockets, clear_if_set_wire.
    split; [|split; [|split; [|split; [|done]]]].
    + exists (Some (next_timeout st)). by rewrite lookup_alter_eq, Hroom.
    + intros rid' Hne. by rewrite lookup_alter_ne.
    + intros t Hlt Hne. rewrite lookup_insert_ne by lia.
      destruct (cleanupTimer room) as [h|]; [|done]. simpl.
      rewrite lookup_delete_ne; [done|]. congruence.
    + intros t Hlt Hnone. rewrite lookup_insert_ne by lia.
      destruct (cleanupTimer room) as [h|]; [|done]. simpl.
      destruct (decide (h = t)) as [->|Hne];
        [by rewrite lookup_delete_eq|by rewrite lookup_delete_ne].
  - split; [|done]. exists (cleanupTimer room). rewrite Hroom. by destruct room.
Qed.


(** ** assignRole *)

Lemma assignRole_room_slot r c dev room : slot (assignRole_room r c dev room) r = Some c.
Proof.
  unfold assignRole_room, slot. destruct (leaseTimer room r); simpl;
    by rewrite lookup_insert_eq.
Qed.

Lemma assignRole_room_slot_ne r r' c dev room :
  r ≠ r' → slot (assignRole_room r c dev room) r' = slot room r'.
Proof.
  intros Hne. unfold assignRole_room, slot. destruct (leaseTimer room r); simpl;
    by rewrite lookup_insert_ne.
Qed.

Lemma assignRole_room_token r c dev room :
  token (assignRole_room r c dev room) r = token_of dev.
Proof.
  unfold assignRole_room, token. destruct (leaseTimer room r); simpl;
    by rewrite lookup_insert_eq.
Qed.

Lemma assignRole_room_expiry r c dev room :
  playerLeaseExpiry (assignRole_room r c dev room) !! r = Some 0.
Proof.
  unfold assignRole_room. destruct (leaseTimer room r); simpl;
    by rewrite lookup_insert_eq.
Qed.

Lemma assignRole_room_leaseTimer r c dev room :
  leaseTimer (assignRole_room r c dev room) r = None.
Proof.
  unfold assignRole_room. destruct (leaseTimer room r) eqn:Ht; simpl.
  - unfold leaseTimer. simpl. by rewrite lookup_insert_eq.
  - exact Ht.
Qed.

Lemma assignRole_room_spectators r c dev room :
  spectators (assignRole_room r c dev room) = spectators room.
Proof. unfold assignRole_room. by destruct (leaseTimer room r). Qed.

Lemma assignRole_room_specQueue r c dev room :
  specQueue (assignRole_room r c dev room) = specQueue room.
Proof. unfold assignRole_room. by destruct (leaseTimer room r). Qed.

Lemma assignRole_room_state r c dev room :
  state (assignRole_room r c dev room) = state room.
Proof. unfold assignRole_room. by destruct (leaseTimer room r). Qed.

Lemma assignRole_spec rid r c st room ws :
  rooms st !! rid = Some room →
  sockets st !! c = Some ws →
  let st' := assignRole rid r c st in
  rooms st' = <[rid := assignRole_room r c (deviceId ws) room]> (rooms st) ∧
  sockets st' = alter (set_roleIdx (Some r)) c (sockets st) ∧
  timeouts st' = timeouts (clear_if_set (leaseTimer room r) st) ∧
  next_timeout st' = next_timeout st ∧
  wire st' = wire st.
Proof.
  intros Hroom Hws st'. subst st'. unfold assignRole. rewrite Hroom, Hws.
  rewrite clear_if_set_rooms, clear_if_set_sockets, clear_if_set_next_timeout,
    clear_if_set_wire.
  repeat split; try done. by destruct (leaseTimer room r).
Qed.

Lemma is_open_assignRole rid r c st p :
  is_open (assignRole rid r c st) p = is_open st p.
Proof.
  unfold assignRole. destruct (rooms st !! rid); [|done].
  destruct (sockets st !! c) eqn:Hc; [|done].
  unfold is_open. rewrite clear_if_set_sockets. simpl.
  destruct (decide (c = p)) as [->|Hne].
  - rewrite lookup_alter_eq. by destruct (sockets st !! p).
  - by rewrite lookup_alter_ne.
Qed.

(** ** The spectator queue *)

Lemma live_spectator_Some st dev specs s :
  live_spectator st dev specs = Some s →
  s ∈ specs ∧ is_open st s = true ∧
  ∃ ws, sockets st !! s = Some ws ∧ deviceId ws = Some dev.
Proof.
  intros H. apply find_some in H as [Hin Hp].
  apply andb_true_iff in Hp as [Hop Hdev].
  split; [by apply list_elem_of_In|]. split; [done|].
  destruct (sockets st !! s) as [ws|]; [|done].
  exists ws. split; [done|]. by apply bool_decide_eq_true in Hdev.
Qed.

Lemma dequeue_all_stale st specs queue :
  (∀ d, d ∈ queue → live_spectator st d specs = None) →
  dequeueNextLiveSpectator st specs queue = (None, specs, []).
Proof.
  induction queue as [|d queue IH]; intros Hdead; [done|].
  simpl. rewrite (Hdead d) by (left). apply IH.
  intros d' Hin. apply Hdead. by right.
Qed.

Lemma dequeue_first_live st specs stale d rest s :
  (∀ x, x ∈ stale → live_spectator st x specs = None) →
  live_spectator st d specs = Some s →
  dequeueNextLiveSpectator st specs (stale ++ d :: rest)
  = (Some s, set_delete s specs, rest).
Proof.
  induction stale as [|x stale IH]; intros Hdead Hlive; simpl.
  - by rewrite Hlive.
  - rewrite (Hdead x) by (left). apply IH; [|done].
    intros y Hin. apply Hdead. by right.
Qed.

Lemma dequeue_None_inv st specs queue :
  (dequeueNextLiveSpectator st specs queue).1.1 = None →
  ∀ d, d ∈ queue → live_spectator st d specs = None.
Proof.
  induction queue as [|x queue IH]; intros Hres d Hin.
  - by apply elem_of_nil in Hin.
  - simpl in Hres. destruct (live_spectator st x specs) eqn:Hx; [done|].
    apply elem_of_cons in Hin as [-> | Hin]; [done|]. by apply IH.
Qed.

Lemma live_test_session st d s :
  is_open st s &&
    match sockets st !! s with
    | Some ws => bool_decide (deviceId ws = Some d)
    | None => false
    end = true
  ↔ live_session st d s.
Proof.
  unfold live_session. rewrite andb_true_iff. split.
  - intros [Hop Hdev]. split; [done|].
    destruct (sockets st !! s) as [ws|]; [|done].
    exists ws. split; [done|]. by apply bool_decide_eq_true in Hdev.
  - intros [Hop (ws & Hws & Hdev)]. split; [done|]. rewrite Hws.
    by apply bool_decide_eq_true.
Qed.

(** The search of the inner loop finds nothing exactly when the device has
    no connected session among the spectators. *)
Lemma live_spectator_None st d specs :
  live_spectator st d specs = None ↔ ¬ has_live_spectator st specs d.
Proof.
  unfold live_spectator, has_live_spectator. split.
  - intros Hnone (s & Hin & Hlive). apply list_elem_of_In in Hin.
    pose proof (find_none _ _ Hnone s Hin) as Hf. simpl in Hf.
    apply live_test_session in Hlive. congruence.
  - intros Hno. destruct (find _ specs) as [s|] eqn:Hfind; [|done].
    destruct Hno. apply find_some in Hfind as [Hin Hp].
    exists s. split; [by apply list_elem_of_In|]. by apply live_test_session.
Qed.

(** What it finds is the first connected session of the device, in the
    insertion order of the set. *)
Lemma live_spectator_first st d specs s :
  live_spectator st d specs = Some s →
  ∃ before after, specs = before ++ s :: after ∧ live_session st d s ∧
                  ∀ x, x ∈ before → ¬ live_session st d x.
Proof.
  unfold live_spectator. induction specs as [|x specs IH]; simpl; [done|].
  destruct (is_open st x && _) eqn:Hx.
  - intros [= <-]. exists [], specs. split; [done|].
    split; [by apply live_test_session|]. intros y Hy. by apply elem_of_nil in Hy.
  - intros Hfind. destruct (IH Hfind) as (before & after & -> & Hlive & Hbefore).
    exists (x :: before), after. split; [done|]. split; [done|].
    intros y Hy. apply elem_of_cons in Hy as [-> | Hy]; [|by apply Hbefore].
    intros Hl. apply live_test_session in Hl. congruence.
Qed.

(** C5. When the lease of an empty slot [r] expires, the queue is consumed
    from its head.  A queued device id is live when some spectator of the
    room is open and has that [deviceId], stale otherwise.  Every stale id
    in front of the first live one is dropped; of the live id the first
    open spectator with that [deviceId], in the order of the spectator
    set, is taken out of [spectators] and seated in slot [r]; the ids
    queued behind it stay queued, so no later-queued spectator is seated
    before it.  Nobody is promoted exactly when no queued id is live, and
    then the whole queue has been dropped and the slot stays empty. *)
Theorem promotion_is_fifo rid r room st :
  rooms st !! rid = Some room →
  slot room r = None →
  let st' := onLeaseExpire rid r st in
  let live d := has_live_spectator st (spectators room) d in
  ((dequeueNextLiveSpectator st (spectators room) (specQueue room)).1.1 = None
   ↔ ∀ d, d ∈ specQueue room → ¬ live d) ∧
  ((∀ d, d ∈ specQueue room → ¬ live d) →
   ∃ room', rooms st' !! rid = Some room' ∧
            slot room' r = None ∧ specQueue room' = [] ∧
            spectators room' = spectators room ∧ wire st' = wire st) ∧
  (∀ stale d rest,
      specQueue room = stale ++ d :: rest →
      (∀ x, x ∈ stale → ¬ live x) →
      live d →
      ∃ s before after,
        spectators room = before ++ s :: after ∧
        live_session st d s ∧
        (∀ x, x ∈ before → ¬ live_session st d x) ∧
        ∃ room', rooms st' !! rid = Some room' ∧
                 slot room' r = Some s ∧
                 specQueue room' = rest ∧
                 spectators room' = set_delete s (spectators room) ∧
                 wire st' = wire st ++ (s, MsgRole r) :: state_frames room s).
Proof.
  intros Hroom Hslot st' live. subst st' live.
  assert (Hdead_iff : ∀ q : list string,
             (∀ d, d ∈ q → ¬ has_live_spectator st (spectators room) d)
             ↔ (∀ d, d ∈ q → live_spectator st d (spectators room) = None)).
  { intros q. split; intros H d Hd; apply live_spectator_None; by apply H. }
  split; [|split].
  - rewrite Hdead_iff. split; [apply dequeue_None_inv|].
    intros Hdead. by rewrite (dequeue_all_stale _ _ _ Hdead).
  - intros Hdead'. pose proof (proj1 (Hdead_iff _) Hdead') as Hdead.
    unfold onLeaseExpire. rewrite Hroom, Hslot.
    rewrite (dequeue_all_stale _ _ _ Hdead).
    eexists. split; [simpl; apply lookup_insert_eq|]. cbn.
    split; [|done]. unfold slot in *. exact Hslot.
  - intros stale d rest Hq Hstale' Hd.
    pose proof (proj1 (Hdead_iff _) Hstale') as Hstale.
    destruct (live_spectator st d (spectators room)) as [s|] eqn:Hlive;
      [|by apply live_spectator_None in Hlive].
    destruct (live_spectator_first _ _ _ _ Hlive) as (before & after & Hsp & Hs & Hbefore).
    exists s, before, after. split; [done|]. split; [done|]. split; [done|].
    destruct (live_spectator_Some _ _ _ _ Hlive) as (Hin & Hop & ws & Hws & Hdev).
    unfold onLeaseExpire. rewrite Hroom, Hslot, Hq.
    rewrite (dequeue_first_live _ _ _ _ _ _ Hstale Hlive).
    set (room1 := set_specQueue (λ _, rest) (set_spectators _ room)).
    set (st1 := set_rooms <[rid := room1]> st).
    assert (Hr1 : rooms st1 !! rid = Some room1) by (simpl; apply lookup_insert_eq).
    assert (Hws1 : sockets st1 !! s = Some ws) by done.
    destruct (assignRole_spec rid r s st1 room1 ws Hr1 Hws1)
      as (Hrooms & _ & _ & _ & Hwire).
    set (st2 := assignRole rid r s st1) in *.
    assert (Hop2 : is_open st2 s = true).
    { subst st2. by rewrite is_open_assignRole. }
    exists (assignRole_room r s (deviceId ws) room1).
    split; [|split; [|split; [|split]]].
    + rewrite send_state_rooms, send_rooms, Hrooms. apply lookup_insert_eq.
    + apply assignRole_room_slot.
    + by rewrite assignRole_room_specQueue.
    + by rewrite assignRole_room_spectators.
    + rewrite send_state_open_wire.
      * rewrite send_open_wire by done. rewrite Hwire, <- app_assoc. done.
      * rewrite <- Hop2. apply is_open_sockets, send_sockets.
Qed.

Lemma promotion_is_fifo_witness :
  let st' := onLeaseExpire "r1" 0 stale_head_r1 in
  ∃ s room', live_session stale_head_r1 "b" s ∧
             rooms st' !! "r1"%string = Some room' ∧
             slot room' 0 = Some s ∧ specQueue room' = ["c"%string].
Proof.
  intros st'.
  destruct (promotion_is_fifo "r1" 0 (the_room stale_head_r1 "r1") stale_head_r1)
    as (_ & _ & Hlive); [vm_compute; reflexivity..|].
  destruct (Hlive ["a"%string] "b"%string ["c"%string])
    as (s & before & after & _ & Hs & _ & room' & Hroom & Hslot & Hq & _).
  - vm_compute; reflexivity.
  - intros x Hx. apply list_elem_of_singleton in Hx as ->.
    apply live_spectator_None. vm_compute; reflexivity.
  - exists 3%nat. split; [apply list_elem_of_In; vm_compute; tauto|].
    apply live_test_session. vm_compute; reflexivity.
  - exists s, room'. split; [exact Hs|]. split; [exact Hroom|].
    split; [exact Hslot|exact Hq].
Defined.

(** ** The join handler *)

Lemma first_slot_Some test r :
  first_slot test = Some r → (r = 0 ∨ r = 1)%nat ∧ test r = true.
Proof.
  unfold first_slot. simpl. destruct (test 0%nat) eqn:H0.
  - intros [= <-]. auto.
  - destruct (test 1%nat) eqn:H1; [|done]. intros [= <-]. auto.
Qed.

Lemma first_slot_0 test : test 0%nat = true → first_slot test = Some 0%nat.
Proof. unfold first_slot. simpl. by intros ->. Qed.

Lemma first_slot_1 test :
  test 0%nat = false → test 1%nat = true → first_slot test = Some 1%nat.
Proof. unfold first_slot. simpl. by intros -> ->. Qed.

Lemma getOrCreateRoom_lookup rid now st :
  rooms (getOrCreateRoom rid now st).2 !! rid = Some (getOrCreateRoom rid now st).1.
Proof.
  unfold getOrCreateRoom. destruct (rooms st !! rid) eqn:H; simpl; [done|].
  apply lookup_insert_eq.
Qed.

Lemma getOrCreateRoom_sockets rid now st :
  sockets (getOrCreateRoom rid now st).2 = sockets st.
Proof. unfold getOrCreateRoom. by destruct (rooms st !! rid). Qed.

Lemma getOrCreateRoom_insert rid now st (room' : Room) :
  <[rid := room']> (rooms (getOrCreateRoom rid now st).2) = <[rid := room']> (rooms st).
Proof.
  unfold getOrCreateRoom. destruct (rooms st !! rid) eqn:H; simpl; [done|].
  apply insert_insert_eq.
Qed.

(** The socket fields after the join handler set [roomId] and [deviceId]. *)
Lemma seat_spec rid r c room st ws :
  rooms st !! rid = Some room →
  sockets st !! c = Some ws →
  let st' := seat rid r c room st in
  rooms st' = <[rid := assignRole_room r c (deviceId ws) room]> (rooms st) ∧
  sockets st' = alter (set_roleIdx (Some r)) c (sockets st) ∧
  timeouts st' = timeouts (clear_if_set (leaseTimer room r) st) ∧
  next_timeout st' = next_timeout st ∧
  (is_open st c = true →
   wire st' = wire st ++ (c, MsgRole r) :: state_frames room c).
Proof.
  intros Hroom Hws st'. subst st'. unfold seat.
  destruct (assignRole_spec rid r c st room ws Hroom Hws) as (Hr & Hs & Ht & Hn & Hw).
  rewrite send_state_rooms, send_rooms, send_state_sockets, send_sockets,
    send_state_timeouts, send_timeouts, send_state_next_timeout, send_next_timeout.
  repeat split; try done.
  intros Hop.
  assert (Hop2 : is_open (assignRole rid r c st) c = true)
    by (by rewrite is_open_assignRole).
  rewrite send_state_open_wire.
  - rewrite send_open_wire by done. by rewrite Hw, <- app_assoc.
  - rewrite <- Hop2. apply is_open_sockets, send_sockets.
Qed.

(** The room table after a join: the joined room is rewritten by
    [join_room], every other room is as it was. *)
Lemma on_join_rooms c ws mroom mdev now st :
  sockets st !! c = Some ws →
  let rid := room_of mroom in
  let room := (getOrCreateRoom rid now st).1 in
  rooms (on_join c mroom mdev now st)
  = <[rid := join_room c (device_of mdev) now room]> (rooms st).
Proof.
  intros Hws rid room. subst room. unfold on_join. fold rid.
  pose proof (getOrCreateRoom_lookup rid now st) as Hlk.
  pose proof (getOrCreateRoom_sockets rid now st) as Hsk.
  pose proof (getOrCreateRoom_insert rid now st) as Hins.
  destruct (getOrCreateRoom rid now st) as [room st1]. simpl in *.
  set (dev := device_of mdev).
  set (st2 := update_ws c _ st1).
  assert (Hr2 : rooms st2 !! rid = Some room) by done.
  assert (Hws2 : sockets st2 !! c
                 = Some (set_deviceId (Some dev) (set_roomId (Some rid) ws))).
  { subst st2. simpl. by rewrite lookup_alter_eq, Hsk, Hws. }
  unfold join_room.
  destruct (first_slot (can_reclaim room dev now)) as [r|].
  { destruct (seat_spec rid r c room st2 _ Hr2 Hws2) as (-> & _). simpl. apply Hins. }
  destruct (first_slot (can_seat room now)) as [r|].
  { destruct (seat_spec rid r c room st2 _ Hr2 Hws2) as (-> & _). simpl. apply Hins. }
  rewrite send_state_rooms, send_rooms. simpl. apply Hins.
Qed.

(** A slot the handler's two tests both refuse is left as it was. *)
Lemma join_room_slot_refused c dev now room r :
  can_reclaim room dev now r = false →
  can_seat room now r = false →
  slot (join_room c dev now room) r = slot room r.
Proof.
  intros Hre Hse. unfold join_room.
  destruct (first_slot (can_reclaim room dev now)) as [r'|] eqn:H1.
  { apply first_slot_Some in H1 as [_ H1].
    apply assignRole_room_slot_ne. intros ->. congruence. }
  destruct (first_slot (can_seat room now)) as [r'|] eqn:H2.
  { apply first_slot_Some in H2 as [_ H2].
    apply assignRole_room_slot_ne. intros ->. congruence. }
  unfold slot. by rewrite enqueueSpectator_slots.
Qed.

(** A seated join fills the slot [join_slot] names, with the joiner's
    device id as token, expiry 0 and no lease timer. *)
Lemma join_room_seated c dev now room r :
  join_slot dev now room = Some r →
  let room' := join_room c dev now room in
  slot room' r = Some c ∧ token room' r = token_of (Some dev) ∧
  playerLeaseExpiry room' !! r = Some 0 ∧ leaseTimer room' r = None ∧
  state room' = state room.
Proof.
  unfold join_slot, join_room.
  destruct (first_slot (can_reclaim room dev now)) as [r'|].
  { intros [= ->]. simpl.
    by rewrite assignRole_room_slot, assignRole_room_token,
      assignRole_room_expiry, assignRole_room_leaseTimer, assignRole_room_state. }
  intros ->. simpl.
  by rewrite assignRole_room_slot, assignRole_room_token,
    assignRole_room_expiry, assignRole_room_leaseTimer, assignRole_room_state.
Qed.

(** The socket table after a join: the joiner records its room, device id
    and role; its [readyState] and every other socket are as they were. *)
Lemma on_join_sockets c ws mroom mdev now st :
  sockets st !! c = Some ws →
  let rid := room_of mroom in
  let dev := device_of mdev in
  let room := (getOrCreateRoom rid now st).1 in
  let st' := on_join c mroom mdev now st in
  sockets st' !! c
  = Some (mkWS (readyState ws) (isAlive ws) (Some rid)
               (Some (join_role c dev now room)) (Some dev)) ∧
  (∀ c', c ≠ c' → sockets st' !! c' = sockets st !! c').
Proof.
  intros Hws rid dev room st'. subst room st'. unfold on_join. fold rid dev.
  pose proof (getOrCreateRoom_lookup rid now st) as Hlk.
  pose proof (getOrCreateRoom_sockets rid now st) as Hsk.
  destruct (getOrCreateRoom rid now st) as [room st1]. simpl in *.
  set (st2 := update_ws c _ st1).
  assert (Hr2 : rooms st2 !! rid = Some room) by done.
  assert (Hws2 : sockets st2 !! c
                 = Some (set_deviceId (Some dev) (set_roomId (Some rid) ws))).
  { subst st2. simpl. by rewrite lookup_alter_eq, Hsk, Hws. }
  assert (Hne2 : ∀ c', c ≠ c' → sockets st2 !! c' = sockets st !! c').
  { intros c' Hne. subst st2. simpl. by rewrite lookup_alter_ne, Hsk. }
  clearbody st2.
  unfold join_role, join_slot, join_room.
  destruct (first_slot (can_reclaim room dev now)) as [r|].
  { destruct (seat_spec rid r c room st2 _ Hr2 Hws2) as (_ & -> & _). split.
    - by rewrite lookup_alter_eq, Hws2.
    - intros c' Hne. rewrite lookup_alter_ne by done. by apply Hne2. }
  destruct (first_slot (can_seat room now)) as [r|].
  { destruct (seat_spec rid r c room st2 _ Hr2 Hws2) as (_ & -> & _). split.
    - by rewrite lookup_alter_eq, Hws2.
    - intros c' Hne. rewrite lookup_alter_ne by done. by apply Hne2. }
  rewrite send_state_sockets, send_sockets. simpl. split.
  - by rewrite lookup_alter_eq, Hws2.
  - intros c' Hne. rewrite lookup_alter_ne by done. by apply Hne2.
Qed.

(** The room of a seated player after its socket closed. *)
Lemma on_close_player_room env c ws r rid room now st :
  sockets st !! c = Some ws →
  roomId ws = Some rid →
  roleIdx ws = Some r →
  (r = 0 ∨ r = 1)%nat →
  rooms st !! rid = Some room →
  slot room r = Some c →
  ∃ h, rooms (on_close env c now st) !! rid
       = Some (set_cleanupTimer h
                 (set_playerLeaseTimer <[r := Some (next_timeout st)]>
                    (set_playerLeaseExpiry <[r := now + ROLE_LEASE_MS env]>
                       (set_slots <[r := None]> room)))).
Proof.
  intros Hws Hrid Hrole Hr Hroom Hslot. unfold on_close.
  set (st0 := update_ws c (set_readyState CLOSED) st).
  assert (Hws0 : sockets st0 !! c = Some (set_readyState CLOSED ws)).
  { subst st0. simpl. by rewrite lookup_alter_eq, Hws. }
  assert (Hkey : room_key (roomId (set_readyState CLOSED ws)) = rid)
    by (simpl; by rewrite Hrid).
  rewrite Hws0, Hkey. change (rooms st0) with (rooms st). rewrite Hroom.
  assert (Hpl : is_player (set_readyState CLOSED ws) = true).
  { unfold is_player. cbn [roleIdx set_readyState]. rewrite Hrole.
    destruct Hr as [-> | ->]; done. }
  rewrite Hpl. cbn [roleIdx set_readyState]. rewrite Hrole.
  rewrite bool_decide_eq_true_2 by done.
  set (sta := update_room rid (set_slots <[r := None]>) st0).
  assert (Hra : rooms sta !! rid = Some (set_slots <[r := None]> room))
    by (by apply update_room_lookup).
  destruct (startLeaseTimer_spec env rid r now sta _ Hra) as (Hrb & _).
  destruct (schedule_cleanup_spec c rid now _ _ Hrb) as ([h Hrc] & _).
  exists h. exact Hrc.
Qed.

(** ** Players without a device id *)

Lemma can_reclaim_empty_device room now r : can_reclaim room "" now r = false.
Proof.
  unfold can_reclaim. destruct (slot room r); [done|].
  destruct (token room r) as [tk|]; [|done].
  by destruct (bool_decide (tk = ""%string)).
Qed.

Lemma can_reclaim_no_token room dev now r :
  token room r = None → can_reclaim room dev now r = false.
Proof. intros H. unfold can_reclaim. rewrite H. by destruct (slot room r). Qed.

Lemma can_seat_in_lease room now r e :
  playerLeaseExpiry room !! r = Some e → e ≠ 0 → now < e →
  can_seat room now r = false.
Proof.
  intros He Hne Hlt. unfold can_seat. rewrite He. destruct (slot room r); [done|].
  apply orb_false_iff. split; [by apply Z.eqb_neq|].
  rewrite Z.geb_leb. by apply Z.leb_gt.
Qed.

Lemma can_seat_lapsed room now r e :
  slot room r = None → playerLeaseExpiry room !! r = Some e → e ≤ now →
  can_seat room now r = true.
Proof.
  intros Hs He Hle. unfold can_seat. rewrite Hs, He.
  apply orb_true_iff. right. rewrite Z.geb_leb. by apply Z.leb_le.
Qed.

Lemma assignRole_room_playerToken r c dev room :
  playerToken (assignRole_room r c dev room) !! r = Some (token_of dev).
Proof.
  unfold assignRole_room. destruct (leaseTimer room r); simpl;
    by rewrite lookup_insert_eq.
Qed.

(** C10. A socket that joins with an empty device id and is seated by the
    second loop leaves [null], not the empty string, as the slot's token.
    After that socket closes the token is still [null], so the first loop
    refuses the slot to every device id at every time; until the lease
    expiry no join is seated in the slot at all, and from the expiry on the
    second loop accepts it.  (Promotion by the lease callback is the other
    way into the slot.) *)
Theorem empty_device_token_is_null env c ws mroom mdev now clock r st :
  sockets st !! c = Some ws →
  device_of mdev = ""%string →
  let rid := room_of mroom in
  first_slot (can_seat (getOrCreateRoom rid now st).1 now) = Some r →
  let st1 := on_message c (Join mroom mdev) now clock st in
  (∃ room1, rooms st1 !! rid = Some room1 ∧ slot room1 r = Some c ∧
            playerToken room1 !! r = Some None) ∧
  ∀ t0,
    let st2 := on_close env c t0 st1 in
    ∃ room2,
      rooms st2 !! rid = Some room2 ∧
      slot room2 r = None ∧
      playerToken room2 !! r = Some None ∧
      playerLeaseExpiry room2 !! r = Some (t0 + ROLE_LEASE_MS env) ∧
      (∀ dev t, can_reclaim room2 dev t r = false) ∧
      (∀ t, t0 + ROLE_LEASE_MS env ≤ t → can_seat room2 t r = true) ∧
      (t0 + ROLE_LEASE_MS env ≠ 0 →
       ∀ c' ws' mroom' mdev' t1 clock',
         sockets st2 !! c' = Some ws' →
         t1 < t0 + ROLE_LEASE_MS env →
         ∃ room3,
           rooms (on_message c' (Join mroom' mdev') t1 clock' st2) !! rid = Some room3 ∧
           slot room3 r = None).
Proof.
  intros Hws Hdev rid Hseat st1.
  set (room0 := (getOrCreateRoom rid now st).1) in *.
  assert (Hre : first_slot (can_reclaim room0 "" now) = None).
  { unfold first_slot. simpl. by rewrite !can_reclaim_empty_device. }
  assert (Hjs : join_slot "" now room0 = Some r).
  { unfold join_slot. by rewrite Hre. }
  assert (Hjr : join_room c "" now room0 = assignRole_room r c (Some ""%string) room0).
  { unfold join_room. by rewrite Hre, Hseat. }
  destruct (first_slot_Some _ _ Hseat) as [Hr _].
  assert (Hrooms1 : rooms st1 = <[rid := join_room c "" now room0]> (rooms st)).
  { subst st1. unfold on_message. rewrite Hws.
    rewrite (on_join_rooms c ws mroom mdev now st Hws). by rewrite Hdev. }
  assert (Hr1 : rooms st1 !! rid = Some (join_room c "" now room0)).
  { rewrite Hrooms1. apply lookup_insert_eq. }
  destruct (on_join_sockets c ws mroom mdev now st Hws) as [Hws1 _].
  rewrite Hdev in Hws1. fold rid room0 in Hws1.
  assert (Hrole1 : join_role c "" now room0 = r).
  { unfold join_role. by rewrite Hjs. }
  rewrite Hrole1 in Hws1.
  assert (Hws1' : sockets st1 !! c
                  = Some (mkWS (readyState ws) (isAlive ws) (Some rid) (Some r)
                               (Some ""%string))).
  { subst st1. unfold on_message. by rewrite Hws. }
  clear Hws1.
  destruct (join_room_seated c "" now room0 r Hjs) as (Hslot1 & _).
  split.
  { eexists. split; [exact Hr1|]. split; [done|].
    rewrite Hjr. by rewrite assignRole_room_playerToken. }
  intros t0 st2.
  destruct (on_close_player_room env c _ r rid _ t0 st1 Hws1' eq_refl eq_refl Hr Hr1 Hslot1)
    as [h Hr2].
  fold st2 in Hr2.
  set (room2 := set_cleanupTimer h _) in Hr2.
  assert (Hslot2 : slot room2 r = None).
  { unfold slot. subst room2. simpl. by rewrite lookup_insert_eq. }
  assert (Htok2 : playerToken room2 !! r = Some None).
  { subst room2. simpl. rewrite Hjr. by rewrite assignRole_room_playerToken. }
  assert (Hexp2 : playerLeaseExpiry room2 !! r = Some (t0 + ROLE_LEASE_MS env)).
  { subst room2. simpl. by rewrite lookup_insert_eq. }
  assert (Hnore : ∀ dev t, can_reclaim room2 dev t r = false).
  { intros dev t. apply can_reclaim_no_token. unfold token. by rewrite Htok2. }
  exists room2. split; [done|]. split; [done|]. split; [done|]. split; [done|].
  split; [done|]. split.
  { intros t Ht. by apply (can_seat_lapsed room2 t r _ Hslot2 Hexp2). }
  intros Hnz c' ws' mroom' mdev' t1 clock' Hws' Hlt.
  unfold on_message. rewrite Hws'.
  rewrite (on_join_rooms c' ws' mroom' mdev' t1 st2 Hws').
  destruct (decide (room_of mroom' = rid)) as [Heq|Hne].
  - rewrite Heq. rewrite (getOrCreateRoom_existing _ _ _ _ Hr2). simpl.
    eexists. split; [apply lookup_insert_eq|].
    rewrite join_room_slot_refused; [done|apply Hnore|].
    by apply (can_seat_in_lease room2 t1 r _ Hexp2).
  - exists room2. split; [|done]. by rewrite lookup_insert_ne.
Qed.

Lemma empty_device_token_is_null_witness :
  let st1 := on_message 0 (Join (Some "r1") None) 0 "" two_sockets in
  let st2 := on_close None 0 10 st1 in
  playerToken (the_room st1 "r1") !! 0%nat = Some None ∧
  slot (the_room (on_message 1 (Join (Some "r1") None) 20 "" st2) "r1") 0 = None.
Proof.
  intros st1 st2.
  destruct (empty_device_token_is_null None 0 (the_ws two_sockets 0)
              (Some "r1"%string) None 0 "" 0 two_sockets)
    as [(room1 & Hr1 & _ & Htok) Hafter]; [vm_compute; reflexivity..|].
  split.
  - unfold the_room. change (room_of (Some "r1"%string)) with "r1"%string in Hr1.
    fold st1 in Hr1. by rewrite Hr1.
  - destruct (Hafter 10) as (room2 & _ & _ & _ & _ & _ & _ & Hjoin).
    destruct (Hjoin ltac:(vm_compute; discriminate) 1%nat (the_ws st2 1)
                (Some "r1"%string) None 20 ""%string)
      as (room3 & Hr3 & Hslot); [vm_compute; reflexivity..|].
    unfold the_room. change (room_of (Some "r1"%string)) with "r1"%string in Hr3.
    fold st1 st2 in Hr3. by rewrite Hr3.
Defined.

(** ** Reclaiming a slot *)

(** The timers and frames of a join that is seated in slot [r]. *)
Lemma on_join_seated c ws mroom mdev now st room r :
  sockets st !! c = Some ws →
  rooms st !! room_of mroom = Some room →
  join_slot (device_of mdev) now room = Some r →
  let st' := on_join c mroom mdev now st in
  timeouts st' = timeouts (clear_if_set (leaseTimer room r) st) ∧
  next_timeout st' = next_timeout st ∧
  (is_open st c = true →
   wire st' = wire st ++ (c, MsgRole r) :: state_frames room c).
Proof.
  intros Hws Hroom Hjs st'. subst st'. unfold on_join.
  rewrite (getOrCreateRoom_existing _ _ _ _ Hroom).
  set (rid := room_of mroom) in *. set (dev := device_of mdev) in *.
  set (st2 := update_ws c _ st).
  assert (Hr2 : rooms st2 !! rid = Some room) by done.
  assert (Hws2 : sockets st2 !! c
                 = Some (set_deviceId (Some dev) (set_roomId (Some rid) ws))).
  { subst st2. simpl. by rewrite lookup_alter_eq, Hws. }
  assert (Hop2 : is_open st2 c = is_open st c).
  { subst st2. by apply is_open_update_ws. }
  assert (Hseat : ∀ r', r' = r →
            timeouts (seat rid r' c room st2)
            = timeouts (clear_if_set (leaseTimer room r) st) ∧
            next_timeout (seat rid r' c room st2) = next_timeout st ∧
            (is_open st c = true →
             wire (seat rid r' c room st2)
             = wire st ++ (c, MsgRole r) :: state_frames room c)).
  { intros r' ->.
    destruct (seat_spec rid r c room st2 _ Hr2 Hws2) as (_ & _ & Ht & Hn & Hw).
    split; [|split; [done|]].
    - rewrite Ht. by destruct (leaseTimer room r).
    - intros Hop. apply Hw. by rewrite Hop2. }
  unfold join_slot in Hjs.
  destruct (first_slot (can_reclaim room dev now)) as [r'|].
  { apply Hseat. congruence. }
  rewrite Hjs. by apply Hseat.
Qed.

Lemma token_of_nonempty (d : string) : d ≠ ""%string → token_of (Some d) = Some d.
Proof. intros H. unfold token_of. by rewrite bool_decide_eq_false_2. Qed.

Lemma can_reclaim_in_lease room dev now r e :
  slot room r = None → token room r = Some dev → dev ≠ ""%string →
  playerLeaseExpiry room !! r = Some e → now < e →
  can_reclaim room dev now r = true.
Proof.
  intros Hs Ht Hd He Hlt. unfold can_reclaim. rewrite Hs, Ht, He.
  rewrite bool_decide_eq_false_2 by done. rewrite bool_decide_eq_true_2 by done.
  simpl. apply orb_true_iff. right. by apply Z.ltb_lt.
Qed.

(** C3, as stated, fails for slot 1.  Sockets 0 and 1 of device ["D"] hold
    slots 0 and 1; socket 0 closes at time 10, socket 1 (the holder of
    slot 1) at time 20; socket 2 joins with device ["D"] at time 30, inside
    the lease and with slot 1 untouched since the close.  The first loop
    tries slot 0 first: socket 2 is seated in slot 0 and slot 1 stays
    empty. *)
Lemma reclaim_takes_slot0_first :
  slot (the_room same_device_r1 "r1") 1 = Some 1%nat ∧
  deviceId (the_ws same_device_r1 1) = Some "D"%string ∧
  let st1 := on_close None 1 20 same_device_r1 in
  let st2 := on_message 2 (Join (Some "r1") (Some "D")) 30 "" st1 in
  30 < 20 + ROLE_LEASE_MS None ∧
  slot (the_room st2 "r1") 1 = None ∧
  slot (the_room st2 "r1") 0 = Some 2%nat.
Proof. vm_compute. repeat split; reflexivity. Qed.

(** C3, amended.  When the socket that holds slot [r] with a non-empty
    device id [D] closes at time [t0], the slot is left empty with token
    [D], expiry [t0 + ROLE_LEASE_MS] and a pending lease timer.  In any
    later state in which the room still has slot [r] in that condition, a
    socket joining the room with device id [D] before the expiry is seated
    in slot [r], provided that, when [r] is 1, slot 0 does not pass the
    token test for [D] as well: the token stays [D], the expiry becomes 0,
    the lease timer is cleared and no longer pending, and an open joiner
    gets its role frame followed by the room's snapshot if there is one. *)
Theorem reclaim_with_token env c ws r rid room D t0 st :
  sockets st !! c = Some ws →
  roomId ws = Some rid →
  roleIdx ws = Some r →
  (r = 0 ∨ r = 1)%nat →
  rooms st !! rid = Some room →
  slot room r = Some c →
  deviceId ws = Some D →
  D ≠ ""%string →
  token room r = Some D →
  let expiry := t0 + ROLE_LEASE_MS env in
  let lease_pending (room' : Room) :=
    slot room' r = None ∧ token room' r = Some D ∧
    playerLeaseExpiry room' !! r = Some expiry ∧
    leaseTimer room' r = Some (next_timeout st) in
  (∃ room1, rooms (on_close env c t0 st) !! rid = Some room1 ∧ lease_pending room1) ∧
  ∀ st1 room1 c' ws' mroom mdev t1 clock,
    rooms st1 !! rid = Some room1 →
    lease_pending room1 →
    sockets st1 !! c' = Some ws' →
    room_of mroom = rid →
    device_of mdev = D →
    t1 < expiry →
    (r = 1%nat → can_reclaim room1 D t1 0 = false) →
    let st2 := on_message c' (Join mroom mdev) t1 clock st1 in
    (∃ room2, rooms st2 !! rid = Some room2 ∧
              slot room2 r = Some c' ∧ token room2 r = Some D ∧
              playerLeaseExpiry room2 !! r = Some 0 ∧
              leaseTimer room2 r = None) ∧
    roleIdx (the_ws st2 c') = Some r ∧
    timeouts st2 !! next_timeout st = None ∧
    (is_open st1 c' = true →
     wire st2 = wire st1 ++ (c', MsgRole r) :: state_frames room1 c').
Proof.
  intros Hws Hrid Hrole Hr Hroom Hslot Hdev HD Htok expiry lease_pending.
  split.
  { destruct (on_close_player_room env c ws r rid room t0 st) as [h Hr1]; try done.
    eexists. split; [exact Hr1|]. unfold lease_pending, slot, token, leaseTimer.
    simpl. rewrite !lookup_insert_eq. repeat split; try done. }
  intros st1 room1 c' ws' mroom mdev t1 clock Hr1 (Hs1 & Ht1 & He1 & Hl1)
    Hws' Hmroom Hmdev Hlt Hprov st2.
  assert (Hcan : can_reclaim room1 D t1 r = true)
    by (by apply (can_reclaim_in_lease room1 D t1 r expiry)).
  assert (Hfirst : first_slot (can_reclaim room1 D t1) = Some r).
  { destruct Hr as [-> | ->]; [by apply first_slot_0|].
    apply first_slot_1; [by apply Hprov|done]. }
  assert (Hjs : join_slot D t1 room1 = Some r).
  { unfold join_slot. by rewrite Hfirst. }
  rewrite <- Hmroom in Hr1.
  assert (Hst2 : st2 = on_join c' mroom mdev t1 st1).
  { subst st2. unfold on_message. by rewrite Hws'. }
  pose proof (on_join_rooms c' ws' mroom mdev t1 st1 Hws') as Hrooms.
  cbv zeta in Hrooms. rewrite (getOrCreateRoom_existing _ _ _ _ Hr1), Hmdev in Hrooms. simpl in Hrooms.
  destruct (on_join_sockets c' ws' mroom mdev t1 st1 Hws') as [Hsock _].
  cbv zeta in Hsock. rewrite (getOrCreateRoom_existing _ _ _ _ Hr1), Hmdev in Hsock. simpl in Hsock.
  destruct (on_join_seated c' ws' mroom mdev t1 st1 room1 r Hws' Hr1) as (Htm & _ & Hwire).
  { by rewrite Hmdev. }
  rewrite <- Hst2 in Hrooms, Hsock, Htm, Hwire.
  destruct (join_room_seated c' D t1 room1 r Hjs) as (Hs2 & Ht2 & He2 & Hl2 & _).
  split; [|split; [|split]].
  - eexists. split; [rewrite Hrooms, Hmroom; apply lookup_insert_eq|].
    rewrite Ht2, (token_of_nonempty D HD). done.
  - unfold the_ws. rewrite Hsock. simpl. f_equal. unfold join_role. by rewrite Hjs.
  - rewrite Htm, Hl1. simpl. apply lookup_delete_eq.
  - exact Hwire.
Qed.

Lemma reclaim_with_token_witness :
  let st1 := on_close None 0 10 three_in_r1 in
  let st2 := on_message 1 (Join (Some "r1") (Some "d1")) 20 "" st1 in
  roleIdx (the_ws st2 1) = Some 0%nat ∧
  timeouts st2 !! next_timeout three_in_r1 = None.
Proof.
  intros st1 st2.
  destruct (reclaim_with_token None 0 (the_ws three_in_r1 0) 0 "r1"
              (the_room three_in_r1 "r1") "d1" 10 three_in_r1)
    as [_ Hjoin]; [vm_compute; reflexivity | vm_compute; reflexivity
    | vm_compute; reflexivity | left; reflexivity | vm_compute; reflexivity
    | vm_compute; reflexivity | vm_compute; reflexivity | discriminate
    | vm_compute; reflexivity |].
  destruct (Hjoin st1 (the_room st1 "r1") 1%nat (the_ws st1 1) (Some "r1"%string)
              (Some "d1"%string) 20 ""%string)
    as (_ & Hrole & Htm & _);
    [vm_compute; reflexivity | vm_compute; repeat split; reflexivity
    | vm_compute; reflexivity | reflexivity | reflexivity | vm_compute; reflexivity
    | discriminate |].
  split; [exact Hrole | exact Htm].
Defined.

(** ** Lease expiry without spectators *)

(** C4, as stated, fails for slot 1.  Slot 1 was vacated by a disconnect
    and nobody is queued; its lease timer (handle 1) fires and clears the
    token.  Slot 0 is open as well, and the next join is seated in slot 0,
    not in slot 1. *)
Lemma fresh_seat_takes_slot0_first :
  slot (the_room both_left_r1 "r1") 1 = None ∧
  specQueue (the_room both_left_r1 "r1") = [] ∧
  callback <$> timeouts both_left_r1 !! 1%nat = Some (LeaseExpire "r1" 1) ∧
  let st1 := on_timeout 1 both_left_r1 in
  playerToken (the_room st1 "r1") !! 1%nat = Some None ∧
  playerLeaseExpiry (the_room st1 "r1") !! 1%nat = Some 0 ∧
  let st2 := on_message 2 (Join (Some "r1") (Some "c")) 90030 "" st1 in
  slot (the_room st2 "r1") 1 = None ∧
  slot (the_room st2 "r1") 0 = Some 2%nat.
Proof. vm_compute. repeat split; reflexivity. Qed.

(** C4, amended.  When the lease timer of slot [r] fires while the slot is
    empty and no queued device id has an open spectator, the slot's token
    becomes [null], its expiry 0 and its timer reference [null], and the
    handle is spent.  In any later state in which slot [r] of the room is
    still in that condition, a joining socket, whatever its device id, is
    seated in slot [r] by the second loop, provided the other slot does
    not pass the token test for that device id and, when [r] is 1, slot 0
    does not pass the test of the second loop. *)
Theorem lease_expiry_opens_slot rid r room t tm st :
  timeouts st !! t = Some tm →
  callback tm = LeaseExpire rid r →
  (r = 0 ∨ r = 1)%nat →
  rooms st !! rid = Some room →
  slot room r = None →
  (∀ d, d ∈ specQueue room → live_spectator st d (spectators room) = None) →
  let opened (room' : Room) :=
    slot room' r = None ∧ playerToken room' !! r = Some None ∧
    playerLeaseExpiry room' !! r = Some 0 in
  (∃ room1, rooms (on_timeout t st) !! rid = Some room1 ∧ opened room1 ∧
            playerLeaseTimer room1 !! r = Some None) ∧
  timeouts (on_timeout t st) !! t = None ∧
  ∀ st1 room1 c ws mroom mdev now clock,
    rooms st1 !! rid = Some room1 →
    opened room1 →
    sockets st1 !! c = Some ws →
    room_of mroom = rid →
    can_reclaim room1 (device_of mdev) now (1 - r) = false →
    (r = 1%nat → can_seat room1 now 0 = false) →
    let st2 := on_message c (Join mroom mdev) now clock st1 in
    first_slot (can_reclaim room1 (device_of mdev) now) = None ∧
    first_slot (can_seat room1 now) = Some r ∧
    (∃ room2, rooms st2 !! rid = Some room2 ∧ slot room2 r = Some c ∧
              token room2 r = token_of (Some (device_of mdev))) ∧
    roleIdx (the_ws st2 c) = Some r.
Proof.
  intros Ht Hcb Hr Hroom Hslot Hdead opened.
  assert (Hfire : on_timeout t st = onLeaseExpire rid r (set_timeouts (delete t) st)).
  { unfold on_timeout. by rewrite Ht, Hcb. }
  split; [|split].
  { rewrite Hfire. unfold onLeaseExpire. simpl. rewrite Hroom, Hslot.
    rewrite (dequeue_all_stale _ (spectators room) (specQueue room)) by exact Hdead.
    eexists. split; [simpl; apply lookup_insert_eq|].
    unfold opened, slot. simpl. rewrite !lookup_insert_eq.
    repeat split; try done. }
  { rewrite Hfire. unfold onLeaseExpire. simpl. rewrite Hroom, Hslot.
    rewrite (dequeue_all_stale _ (spectators room) (specQueue room)) by exact Hdead.
    simpl. apply lookup_delete_eq. }
  intros st1 room1 c ws mroom mdev now clock Hr1 (Hs1 & Ht1 & He1) Hws Hmroom
    Hother Hzero st2.
  set (dev := device_of mdev) in *.
  assert (Hre : first_slot (can_reclaim room1 dev now) = None).
  { assert (Hself : can_reclaim room1 dev now r = false).
    { apply can_reclaim_no_token. unfold token. by rewrite Ht1. }
    unfold first_slot. simpl.
    destruct Hr as [-> | ->]; simpl in Hother; by rewrite Hself, Hother. }
  assert (Hcan : can_seat room1 now r = true).
  { unfold can_seat. by rewrite Hs1, He1. }
  assert (Hse : first_slot (can_seat room1 now) = Some r).
  { destruct Hr as [-> | ->]; [by apply first_slot_0|].
    apply first_slot_1; [by apply Hzero|done]. }
  assert (Hjs : join_slot dev now room1 = Some r).
  { unfold join_slot. by rewrite Hre. }
  rewrite <- Hmroom in Hr1.
  assert (Hst2 : st2 = on_join c mroom mdev now st1).
  { subst st2. unfold on_message. by rewrite Hws. }
  pose proof (on_join_rooms c ws mroom mdev now st1 Hws) as Hrooms.
  cbv zeta in Hrooms. rewrite (getOrCreateRoom_existing _ _ _ _ Hr1) in Hrooms.
  destruct (on_join_sockets c ws mroom mdev now st1 Hws) as [Hsock _].
  cbv zeta in Hsock. rewrite (getOrCreateRoom_existing _ _ _ _ Hr1) in Hsock.
  simpl in Hrooms, Hsock. fold dev in Hrooms, Hsock.
  rewrite <- Hst2 in Hrooms, Hsock.
  destruct (join_room_seated c dev now room1 r Hjs) as (Hs2 & Ht2 & _).
  split; [done|]. split; [done|]. split.
  - eexists. split; [rewrite Hrooms, Hmroom; apply lookup_insert_eq|]. done.
  - unfold the_ws. rewrite Hsock. simpl. f_equal. unfold join_role. by rewrite Hjs.
Qed.

Lemma lease_expiry_opens_slot_witness :
  let st1 := on_timeout 0 both_leaving_r1 in
  let st2 := on_message 2 (Join (Some "r1") (Some "c")) 90015 "" st1 in
  playerToken (the_room st1 "r1") !! 0%nat = Some None ∧
  roleIdx (the_ws st2 2) = Some 0%nat.
Proof.
  intros st1 st2.
  destruct (lease_expiry_opens_slot "r1" 0 (the_room both_leaving_r1 "r1") 0
              (mkTimeout 10 90000 (LeaseExpire "r1" 0)) both_leaving_r1)
    as ((room1 & Hr1 & (_ & Htok & _) & _) & _ & Hjoin);
    [vm_compute; reflexivity | reflexivity | left; reflexivity
    | vm_compute; reflexivity | vm_compute; reflexivity
    | intros d Hd; vm_compute in Hd; by apply elem_of_nil in Hd |].
  fold st1 in Hr1. split.
  - unfold the_room. by rewrite Hr1.
  - apply (Hjoin st1 room1 2%nat (the_ws st1 2) (Some "r1"%string)
             (Some "c"%string) 90015 ""%string);
      [exact Hr1 | | vm_compute; reflexivity | reflexivity | | discriminate].
    + assert (Heq : room1 = the_room st1 "r1") by (unfold the_room; by rewrite Hr1).
      rewrite Heq. vm_compute. repeat split; reflexivity.
    + assert (Heq : room1 = the_room st1 "r1") by (unfold the_room; by rewrite Hr1).
      rewrite Heq. vm_compute. reflexivity.
Defined.

(** ** Room cleanup *)

(** A join clears no handle but a lease handle of the joined room. *)
Lemma on_join_timeouts c ws mroom mdev now st t :
  sockets st !! c = Some ws →
  (∀ r, leaseTimer (getOrCreateRoom (room_of mroom) now st).1 r ≠ Some t) →
  timeouts (on_join c mroom mdev now st) !! t = timeouts st !! t.
Proof.
  intros Hws Hlease. unfold on_join.
  pose proof (getOrCreateRoom_lookup (room_of mroom) now st) as Hlk.
  pose proof (getOrCreateRoom_sockets (room_of mroom) now st) as Hsk.
  assert (Htm : timeouts (getOrCreateRoom (room_of mroom) now st).2 = timeouts st).
  { unfold getOrCreateRoom. by destruct (rooms st !! room_of mroom). }
  destruct (getOrCreateRoom (room_of mroom) now st) as [room st1]. simpl in *.
  set (rid := room_of mroom) in *. set (dev := device_of mdev).
  set (st2 := update_ws c _ st1).
  assert (Hr2 : rooms st2 !! rid = Some room) by done.
  assert (Hws2 : sockets st2 !! c
                 = Some (set_deviceId (Some dev) (set_roomId (Some rid) ws))).
  { subst st2. simpl. by rewrite lookup_alter_eq, Hsk, Hws. }
  assert (Hseat : ∀ r, timeouts (seat rid r c room st2) !! t = timeouts st !! t).
  { intros r. destruct (seat_spec rid r c room st2 _ Hr2 Hws2) as (_ & _ & -> & _).
    specialize (Hlease r). destruct (leaseTimer room r) as [h|]; simpl.
    - rewrite lookup_delete_ne by congruence. by rewrite Htm.
    - by rewrite Htm. }
  destruct (first_slot (can_reclaim room dev now)); [apply Hseat|].
  destruct (first_slot (can_seat room now)); [apply Hseat|].
  rewrite send_state_timeouts, send_timeouts. simpl. by rewrite Htm.
Qed.

Lemma join_room_holds_self c dev now room :
  holds (join_room c dev now room) (join_place dev now room) c.
Proof.
  unfold join_place. destruct (join_slot dev now room) as [r|] eqn:Hjs.
  - by destruct (join_room_seated c dev now room r Hjs) as [? _].
  - unfold join_slot in Hjs. unfold join_room.
    destruct (first_slot (can_reclaim room dev now)); [done|]. rewrite Hjs.
    simpl. rewrite enqueueSpectator_spectators. apply set_add_elem.
Qed.

(** What the join handler leaves undone: a cleanup timer that is pending
    for the joined room stays pending, and when it fires the room is
    deleted with the joiner sitting in it. *)
Lemma join_does_not_cancel_cleanup c ws c0 ws0 mroom mdev now st t tm :
  sockets st !! c = Some ws →
  sockets st !! c0 = Some ws0 →
  c ≠ c0 →
  roomId ws0 = Some (room_of mroom) →
  timeouts st !! t = Some tm →
  callback tm = Cleanup c0 →
  (∀ r, leaseTimer (getOrCreateRoom (room_of mroom) now st).1 r ≠ Some t) →
  let st1 := on_join c mroom mdev now st in
  (∃ p, occupies st1 (room_of mroom) p c) ∧
  timeouts st1 !! t = Some tm ∧
  rooms (on_timeout t st1) !! room_of mroom = None.
Proof.
  intros Hws Hws0 Hne Hrid Htm Hcb Hlease st1.
  pose proof (on_join_rooms c ws mroom mdev now st Hws) as Hrooms.
  cbv zeta in Hrooms. fold st1 in Hrooms.
  destruct (on_join_sockets c ws mroom mdev now st Hws) as [_ Hother].
  assert (Htm1 : timeouts st1 !! t = Some tm).
  { subst st1. by rewrite (on_join_timeouts c ws). }
  split; [|split; [done|]].
  - eexists. eexists. split; [rewrite Hrooms; apply lookup_insert_eq|].
    apply join_room_holds_self.
  - unfold on_timeout. rewrite Htm1, Hcb. unfold on_cleanup. simpl.
    fold st1 in Hother. rewrite (Hother c0 Hne), Hws0, Hrid. simpl.
    apply lookup_delete_eq.
Qed.

(** C1.  The code deletes a room that was joined again while its cleanup
    timer was pending.  Socket 0 leaves room ["r1"] empty at time 1000 and
    the close handler arms the cleanup timer with a delay of fifteen
    minutes; socket 1 joins the room at time 2000 and is seated in slot 1.
    The join leaves the timer pending, and when it fires the room is
    removed from the table with socket 1 still open in its slot. *)
Theorem cleanup_deletes_rejoined_room :
  let emptied := run None init [Connection; join_as 0 "r1" "a" 0; Close 0 1000] in
  peers (the_room emptied "r1") = 0%nat ∧
  cleanupTimer (the_room emptied "r1") = Some 1%nat ∧
  timeouts emptied !! 1%nat = Some (mkTimeout 1000 TTL (Cleanup 0)) ∧
  TTL = 900000 ∧
  rejoined_r1
  = run None emptied [Connection; join_as 1 "r1" "b" 2000; Fire 0] ∧
  slot (the_room rejoined_r1 "r1") 1 = Some 1%nat ∧
  is_open rejoined_r1 1 = true ∧
  timeouts rejoined_r1 !! 1%nat = Some (mkTimeout 1000 TTL (Cleanup 0)) ∧
  rooms (step None rejoined_r1 (Fire 1)) !! "r1"%string = None.
Proof. vm_compute. repeat split; reflexivity. Qed.

(** ** One place per socket *)

(** C2, as stated, fails: a socket that sends [join] twice for the same
    room is seated in slot 0 by the first frame and in slot 1 by the
    second, and then sits in both. *)
Lemma double_join_two_slots : ¬ one_place joined_twice.
Proof.
  intros H.
  destruct (H 0%nat "r1"%string (InSlot 0) "r1"%string (InSlot 1)) as [_ Hp].
  - exists (the_room joined_twice "r1"). vm_compute. split; reflexivity.
  - exists (the_room joined_twice "r1"). vm_compute. split; reflexivity.
  - discriminate.
Qed.

Lemma no_new_seat_refl st : no_new_seat st st.
Proof. intros rid room H. exists room. auto. Qed.

Lemma no_new_seat_trans st1 st2 st3 :
  no_new_seat st1 st2 → no_new_seat st2 st3 → no_new_seat st1 st3.
Proof.
  intros H12 H23 rid room3 H3. destruct (H23 _ _ H3) as (room2 & H2 & Hh2).
  destruct (H12 _ _ H2) as (room1 & H1 & Hh1). exists room1. split; auto.
Qed.

Lemma no_new_seat_rooms st st' : rooms st' = rooms st → no_new_seat st st'.
Proof. intros Heq rid room H. rewrite Heq in H. exists room. auto. Qed.

Lemma no_new_seat_update_room rid f st :
  (∀ room p c, holds (f room) p c → holds room p c) →
  no_new_seat st (update_room rid f st).
Proof.
  intros Hf rid' room' H. simpl in H.
  destruct (decide (rid = rid')) as [<-|Hne].
  - rewrite lookup_alter_eq in H. destruct (rooms st !! rid) as [room|] eqn:Hr; [|done].
    simpl in H. simplify_eq. exists room. split; [done|]. apply Hf.
  - rewrite lookup_alter_ne in H by done. exists room'. auto.
Qed.

Lemma no_new_seat_delete k st : no_new_seat st (set_rooms (delete k) st).
Proof.
  intros rid room' H. simpl in H. apply lookup_delete_Some in H as [_ H].
  exists room'. auto.
Qed.

Lemma seated_once_no_new_seat st st' J :
  no_new_seat st st' → seated_once st J → seated_once st' J.
Proof.
  intros Hsub [Hone Hj].
  assert (Hocc : ∀ rid p c, occupies st' rid p c → occupies st rid p c).
  { intros rid p c (room' & Hr' & Hh). destruct (Hsub _ _ Hr') as (room & Hr & Himp).
    exists room. auto. }
  split.
  - intros c rid1 p1 rid2 p2 H1 H2. apply (Hone c); auto.
  - intros rid p c H. apply (Hj rid p). auto.
Qed.

(** One socket [c0] is put at one place and sits nowhere else; everybody
    else stays or goes. *)
Lemma seated_once_move st st' J J' rid0 p0 c0 :
  seated_once st J →
  (∀ x, x ∈ J → x ∈ J') →
  c0 ∈ J' →
  (∀ rid p c, occupies st' rid p c →
     (rid = rid0 ∧ p = p0 ∧ c = c0) ∨ (occupies st rid p c ∧ c ≠ c0)) →
  seated_once st' J'.
Proof.
  intros [Hone Hj] Hsub Hc0 Hchar. split.
  - intros c rid1 p1 rid2 p2 H1 H2.
    destruct (Hchar _ _ _ H1) as [(-> & -> & ->) | [H1' Hne1]];
      destruct (Hchar _ _ _ H2) as [(-> & -> & E) | [H2' Hne2]]; try done.
    by apply (Hone c).
  - intros rid p c H. destruct (Hchar _ _ _ H) as [(_ & _ & ->) | [H' _]]; [done|].
    apply Hsub. by apply (Hj rid p).
Qed.

Lemma set_delete_elem c x l : x ∈ set_delete c l ↔ x ∈ l ∧ x ≠ c.
Proof. unfold set_delete. rewrite list_elem_of_filter. tauto. Qed.

Lemma set_add_elem_inv c x l : x ∈ set_add c l → x ∈ l ∨ x = c.
Proof.
  unfold set_add. case_bool_decide; [auto|]. rewrite elem_of_app.
  intros [?|Hx]; [auto|]. right. by apply list_elem_of_singleton in Hx.
Qed.

Lemma holds_fresh_room now p c : ¬ holds (fresh_room now) p c.
Proof.
  destruct p as [r|]; simpl.
  - unfold slot, fresh_room. simpl.
    destruct r as [|[|r]].
    + by rewrite lookup_insert_eq.
    + rewrite lookup_insert_ne by done. by rewrite lookup_singleton_eq.
    + rewrite lookup_insert_ne by done. by rewrite lookup_singleton_ne.
  - apply not_elem_of_nil.
Qed.

Lemma join_room_holds c0 dev now room p c :
  holds (join_room c0 dev now room) p c →
  (p = join_place dev now room ∧ c = c0) ∨ holds room p c.
Proof.
  unfold join_place, join_slot, join_room.
  assert (Hseat : ∀ r, holds (assignRole_room r c0 (Some dev) room) p c →
                       (p = InSlot r ∧ c = c0) ∨ holds room p c).
  { intros r. destruct p as [r'|]; simpl.
    - destruct (decide (r = r')) as [<-|Hne].
      + rewrite assignRole_room_slot. intros [= <-]. auto.
      + rewrite assignRole_room_slot_ne by done. auto.
    - rewrite assignRole_room_spectators. auto. }
  destruct (first_slot (can_reclaim room dev now)) as [r|]; [apply Hseat|].
  destruct (first_slot (can_seat room now)) as [r|]; [apply Hseat|].
  destruct p as [r'|]; simpl.
  - unfold slot. rewrite enqueueSpectator_slots. auto.
  - rewrite enqueueSpectator_spectators. intros H.
    apply set_add_elem_inv in H as [?| ->]; auto.
Qed.

Lemma no_new_seat_insert rid room room' st st' :
  rooms st' = <[rid := room']> (rooms st) →
  rooms st !! rid = Some room →
  (∀ p c, holds room' p c → holds room p c) →
  no_new_seat st st'.
Proof.
  intros Heq Hr Himp rid' room'' H. rewrite Heq in H.
  destruct (decide (rid = rid')) as [<-|Hne].
  - rewrite lookup_insert_eq in H. simplify_eq. exists room. auto.
  - rewrite lookup_insert_ne in H by done. exists room''. auto.
Qed.

Lemma broadcast_rooms rid m st : rooms (broadcast rid m st) = rooms st.
Proof. unfold broadcast. by destruct (rooms st !! rid). Qed.

Lemma dequeue_Some_inv st specs queue s specs' queue' :
  dequeueNextLiveSpectator st specs queue = (Some s, specs', queue') →
  specs' = set_delete s specs ∧ ∃ d, live_spectator st d specs = Some s.
Proof.
  induction queue as [|d queue IH]; simpl; [done|].
  destruct (live_spectator st d specs) as [s0|] eqn:Hd; [|exact IH].
  intros [= <- <- <-]. eauto.
Qed.

Lemma dequeue_None_specs st specs queue specs' queue' :
  dequeueNextLiveSpectator st specs queue = (None, specs', queue') → specs' = specs.
Proof.
  induction queue as [|d queue IH]; simpl; [by intros [= <- _]|].
  destruct (live_spectator st d specs); [done|exact IH].
Qed.

Lemma startLeaseTimer_no_new_seat env rid r now st :
  no_new_seat st (startLeaseTimer env rid r now st).
Proof.
  unfold startLeaseTimer. destruct (rooms st !! rid) as [room|]; [|apply no_new_seat_refl].
  unfold setTimeout.
  eapply no_new_seat_trans; [|apply no_new_seat_update_room; by intros ? [?|] ?].
  eapply no_new_seat_trans; [|apply no_new_seat_rooms; reflexivity].
  eapply no_new_seat_trans; [|apply no_new_seat_update_room; by intros ? [?|] ?].
  apply no_new_seat_rooms, clear_if_set_rooms.
Qed.

Lemma schedule_cleanup_no_new_seat c rid now st :
  no_new_seat st (schedule_cleanup c rid now st).
Proof.
  unfold schedule_cleanup. destruct (rooms st !! rid) as [room|]; [|apply no_new_seat_refl].
  case_bool_decide; [|apply no_new_seat_refl]. unfold setTimeout.
  eapply no_new_seat_trans; [|apply no_new_seat_update_room; by intros ? [?|] ?].
  eapply no_new_seat_trans; [|apply no_new_seat_rooms; reflexivity].
  apply no_new_seat_rooms, clear_if_set_rooms.
Qed.

Lemma on_close_no_new_seat env c now st : no_new_seat st (on_close env c now st).
Proof.
  unfold on_close. set (st0 := update_ws c (set_readyState CLOSED) st).
  assert (H0 : no_new_seat st st0) by (by apply no_new_seat_rooms).
  destruct (sockets st0 !! c) as [ws|]; [|done].
  destruct (rooms st0 !! room_key (roomId ws)) as [room|]; [|done].
  eapply no_new_seat_trans; [|apply schedule_cleanup_no_new_seat].
  eapply no_new_seat_trans; [exact H0|].
  destruct (is_player ws).
  - destruct (roleIdx ws) as [r|]; [|apply no_new_seat_refl].
    case_bool_decide; [|apply no_new_seat_refl].
    eapply no_new_seat_trans; [|apply startLeaseTimer_no_new_seat].
    apply no_new_seat_update_room. intros room0 [r'|] c'; simpl; [|done].
    unfold slot. simpl. destruct (decide (r = r')) as [<-|Hne].
    + by rewrite lookup_insert_eq.
    + by rewrite lookup_insert_ne.
  - apply no_new_seat_update_room. intros room0 [r'|] c'; simpl; [done|].
    rewrite set_delete_elem. tauto.
Qed.

Lemma on_message_other_no_new_seat c m now clock st :
  (∀ mroom mdev, m ≠ Join mroom mdev) →
  no_new_seat st (on_message c m now clock st).
Proof.
  intros Hm. unfold on_message. destruct (sockets st !! c) as [ws|];
    [|apply no_new_seat_refl].
  destruct m as [mroom mdev| |v|text time].
  - by destruct (Hm mroom mdev).
  - unfold on_request_state. destruct (rooms st !! _); [|apply no_new_seat_refl].
    apply no_new_seat_rooms, send_state_rooms.
  - unfold on_syncState. destruct (rooms st !! _); [|apply no_new_seat_refl].
    destruct (is_player ws); [|apply no_new_seat_refl].
    destruct v as [v|]; [|apply no_new_seat_refl].
    destruct (truthy v && typeof_object v); [|apply no_new_seat_refl].
    eapply no_new_seat_trans; [|apply no_new_seat_rooms, broadcast_rooms].
    apply no_new_seat_update_room. by intros ? [?|] ?.
  - unfold on_chat. destruct (rooms st !! _); [|apply no_new_seat_refl].
    apply no_new_seat_rooms, broadcast_rooms.
Qed.

Lemma on_join_seated_once c ws mroom mdev now st J :
  sockets st !! c = Some ws →
  c ∉ J →
  seated_once st J →
  seated_once (on_join c mroom mdev now st) (c :: J).
Proof.
  intros Hws Hfresh Hinv.
  set (rid0 := room_of mroom). set (dev := device_of mdev).
  set (room0 := (getOrCreateRoom rid0 now st).1).
  pose proof (on_join_rooms c ws mroom mdev now st Hws) as Hrooms.
  cbv zeta in Hrooms. fold rid0 dev room0 in Hrooms.
  assert (Hold : ∀ rid p c', occupies st rid p c' → c' ≠ c).
  { intros rid p c' Hocc ->. apply Hfresh. destruct Hinv as [_ Hj]. by apply (Hj rid p). }
  apply (seated_once_move st _ J (c :: J) rid0 (join_place dev now room0) c Hinv).
  - intros x Hx. by right.
  - by left.
  - intros rid p c' (room' & Hr' & Hh). rewrite Hrooms in Hr'.
    destruct (decide (rid0 = rid)) as [<-|Hne].
    + rewrite lookup_insert_eq in Hr'. simplify_eq.
      apply join_room_holds in Hh as [[-> ->] | Hh]; [by left|].
      right. assert (Hocc : occupies st rid0 p c').
      { subst room0. unfold getOrCreateRoom in Hh.
        destruct (rooms st !! rid0) as [room|] eqn:Hr; simpl in Hh.
        - exists room. auto.
        - by apply holds_fresh_room in Hh. }
      split; [done|]. by apply (Hold rid0 p).
    + rewrite lookup_insert_ne in Hr' by done.
      assert (Hocc : occupies st rid p c') by (exists room'; auto).
      right. split; [done|]. by apply (Hold rid p).
Qed.

Lemma onLeaseExpire_seated_once rid r st J :
  seated_once st J → seated_once (onLeaseExpire rid r st) J.
Proof.
  intros Hinv. unfold onLeaseExpire.
  destruct (rooms st !! rid) as [room|] eqn:Hroom; [|done].
  destruct (slot room r) eqn:Hslot; [done|].
  destruct (dequeueNextLiveSpectator st (spectators room) (specQueue room))
    as [[[s|] specs] queue] eqn:Hdq.
  - apply dequeue_Some_inv in Hdq as [-> [d Hlive]].
    destruct (live_spectator_Some _ _ _ _ Hlive) as (Hin & _ & ws & Hws & _).
    set (room1 := set_specQueue (λ _, queue) (set_spectators _ room)).
    set (st1 := set_rooms <[rid := room1]> st).
    assert (Hr1 : rooms st1 !! rid = Some room1) by (simpl; apply lookup_insert_eq).
    assert (Hws1 : sockets st1 !! s = Some ws) by done.
    destruct (assignRole_spec rid r s st1 room1 ws Hr1 Hws1) as (Hrooms & _).
    assert (Hs : occupies st rid InSpectators s) by (exists room; auto).
    apply (seated_once_move st _ J J rid (InSlot r) s Hinv); [auto| |].
    { destruct Hinv as [_ Hj]. by apply (Hj rid InSpectators). }
    intros rid' p c (room' & Hr' & Hh).
    rewrite send_state_rooms, send_rooms, Hrooms in Hr'. simpl in Hr'.
    destruct Hinv as [Hone _].
    destruct (decide (rid = rid')) as [<-|Hne].
    + rewrite lookup_insert_eq in Hr'. simplify_eq.
      destruct p as [r'|]; simpl in Hh.
      * destruct (decide (r = r')) as [<-|Hner].
        { rewrite assignRole_room_slot in Hh. simplify_eq. by left. }
        rewrite assignRole_room_slot_ne in Hh by done.
        assert (Hocc : occupies st rid (InSlot r') c) by (exists room; auto).
        right. split; [done|]. intros ->.
        by destruct (Hone s _ _ _ _ Hocc Hs) as [_ ?].
      * rewrite assignRole_room_spectators in Hh. simpl in Hh.
        apply set_delete_elem in Hh as [Hc Hne].
        right. split; [|done]. exists room. auto.
    + rewrite !lookup_insert_ne in Hr' by done.
      assert (Hocc : occupies st rid' p c) by (exists room'; auto).
      right. split; [done|]. intros ->.
      by destruct (Hone s _ _ _ _ Hocc Hs) as [? _].
  - apply dequeue_None_specs in Hdq as ->.
    eapply seated_once_no_new_seat; [|exact Hinv].
    eapply no_new_seat_insert; [reflexivity|exact Hroom|].
    by intros [?|] ?.
Qed.

Lemma on_timeout_seated_once t st J :
  seated_once st J → seated_once (on_timeout t st) J.
Proof.
  intros Hinv. unfold on_timeout. destruct (timeouts st !! t) as [tm|]; [|done].
  destruct (callback tm) as [rid r|c].
  - apply onLeaseExpire_seated_once.
    eapply seated_once_no_new_seat; [|exact Hinv]. by apply no_new_seat_rooms.
  - eapply seated_once_no_new_seat; [|exact Hinv]. unfold on_cleanup.
    destruct (sockets _ !! c) as [ws|]; [|by apply no_new_seat_rooms].
    eapply no_new_seat_trans; [|apply no_new_seat_delete]. by apply no_new_seat_rooms.
Qed.

Lemma seated_once_weaken st J J' :
  (∀ x, x ∈ J → x ∈ J') → seated_once st J → seated_once st J'.
Proof. intros Hsub [Hone Hj]. split; [done|]. intros rid p c H. eauto. Qed.

(** One event keeps the invariant, a [join] adding its sender to the
    joiners. *)
Lemma step_seated_once env st e J :
  seated_once st J →
  (∀ c, joiners [e] = [c] → c ∉ J) →
  seated_once (step env st e) (joiners [e] ++ J).
Proof.
  intros Hinv Hfresh. destruct e as [|c m now clock|c|c now|t]; simpl.
  - eapply seated_once_no_new_seat; [|exact Hinv]. by apply no_new_seat_rooms.
  - destruct m as [mroom mdev| |v|text time]; simpl.
    + unfold on_message. destruct (sockets st !! c) as [ws|] eqn:Hws.
      * apply (on_join_seated_once c ws); [done| |done]. by apply Hfresh.
      * eapply seated_once_weaken; [|exact Hinv]. intros x Hx. by right.
    + eapply seated_once_no_new_seat; [|exact Hinv].
      by apply on_message_other_no_new_seat.
    + eapply seated_once_no_new_seat; [|exact Hinv].
      by apply on_message_other_no_new_seat.
    + eapply seated_once_no_new_seat; [|exact Hinv].
      by apply on_message_other_no_new_seat.
  - eapply seated_once_no_new_seat; [|exact Hinv]. by apply no_new_seat_rooms.
  - eapply seated_once_no_new_seat; [|exact Hinv]. apply on_close_no_new_seat.
  - by apply on_timeout_seated_once.
Qed.

Lemma joiners_cons e evs : joiners (e :: evs) = joiners [e] ++ joiners evs.
Proof.
  unfold joiners. simpl. destruct e as [|c m now clock|c|c now|t]; try done.
  by destruct m.
Qed.

Lemma joiners_single e : joiners [e] = [] ∨ ∃ c, joiners [e] = [c].
Proof.
  destruct e as [|c m now clock|c|c now|t]; try (by left).
  destruct m; [right; by exists c|by left..].
Qed.

Lemma run_seated_once env evs st J :
  seated_once st J →
  NoDup (joiners evs) →
  (∀ c, c ∈ joiners evs → c ∉ J) →
  seated_once (run env st evs) (rev (joiners evs) ++ J).
Proof.
  revert st J. induction evs as [|e evs IH]; intros st J Hinv Hnd Hdisj; [done|].
  rewrite joiners_cons in Hnd, Hdisj |- *.
  apply NoDup_app in Hnd as (_ & Hcross & Hnd).
  change (run env st (e :: evs)) with (run env (step env st e) evs).
  rewrite rev_app_distr, <- app_assoc.
  assert (Hrev : rev (joiners [e]) = joiners [e]).
  { destruct (joiners_single e) as [-> | [c ->]]; done. }
  rewrite Hrev. apply IH; [|done|].
  - apply step_seated_once; [done|]. intros c Hc. apply Hdisj.
    rewrite Hc. apply elem_of_app. left. by left.
  - intros c Hc Hin. apply elem_of_app in Hin as [Hin|Hin].
    + by apply (Hcross c).
    + apply (Hdisj c); [|done]. apply elem_of_app. by right.
Qed.

Lemma seated_once_init : seated_once init [].
Proof.
  split.
  - intros c rid1 p1 rid2 p2 (room & Hr & _). simpl in Hr.
    by rewrite lookup_empty in Hr.
  - intros rid p c (room & Hr & _). simpl in Hr. by rewrite lookup_empty in Hr.
Qed.

(** C2, amended.  In every state the server reaches by a run of
    connection, message, drop, close and timer events in which no socket
    sends [join] more than once, no socket sits at two places: not in two
    slots of a room, not in a slot and among the spectators, not in two
    rooms; and a slot names at most one socket. *)
Theorem one_place_per_socket env evs :
  join_once evs →
  let st := run env init evs in
  one_place st ∧
  ∀ rid room r c1 c2,
    rooms st !! rid = Some room → slot room r = Some c1 → slot room r = Some c2 →
    c1 = c2.
Proof.
  intros Hjo st. split.
  - destruct (run_seated_once env evs init [] seated_once_init Hjo) as [Hone _];
      [|done]. intros c _. apply not_elem_of_nil.
  - intros rid room r c1 c2 _ H1 H2. congruence.
Qed.

Lemma one_place_per_socket_witness : one_place three_in_r1.
Proof.
  apply (one_place_per_socket None
           [Connection; Connection; Connection;
            join_as 0 "r1" "d1" 0; join_as 1 "r1" "d2" 1; join_as 2 "r1" "d3" 2]).
  unfold join_once. apply (bool_decide_unpack _). vm_compute. exact I.
Defined.

(** ** Timer handles *)



























(** * Further properties of the handlers *)

(** ** The room table *)

(** ** request_state and chat *)

(** X2.  [request_state] changes nothing but the wire.  It sends one frame, the
    room's snapshot, to the requester, when the requester is open and its
    room exists and has a snapshot; otherwise it sends nothing. *)
Theorem request_state_answers c ws now clock st :
  sockets st !! c = Some ws →
  let st' := on_message c RequestState now clock st in
  rooms st' = rooms st ∧ sockets st' = sockets st ∧ timeouts st' = timeouts st ∧
  match rooms st !! room_key (roomId ws) with
  | Some room =>
      match state room with
      | Some v =>
          if is_open st c && truthy v
          then wire st' = wire st ++ [(c, MsgSyncState v)]
          else st' = st
      | None => st' = st
      end
  | None => st' = st
  end.
Proof.
  intros Hws st'. subst st'. unfold on_message. rewrite Hws.
  unfold on_request_state.
  destruct (rooms st !! room_key (roomId ws)) as [room|]; [|done].
  rewrite send_state_rooms, send_state_sockets, send_state_timeouts.
  repeat split; try done. unfold send_state.
  destruct (state room) as [v|]; [|done].
  destruct (truthy v); [|by rewrite andb_false_r].
  rewrite andb_true_r. unfold send. by destruct (is_open st c).
Qed.

Lemma request_state_answers_witness :
  let st := on_message 0 (SyncState (Some (JObj []))) 7 "" three_in_r1 in
  wire (on_message 2 RequestState 8 "" st)
  = wire st ++ [(2%nat, MsgSyncState (JObj []))].
Proof.
  intros st.
  destruct (request_state_answers 2 (the_ws st 2) 8 "" st)
    as (_ & _ & _ & H); [vm_compute; reflexivity|].
  exact H.
Defined.

(** X3.  A [chat] frame from a socket whose room exists is accepted whatever the
    sender's role.  It changes no room, socket or timer; one [chat] frame,
    labelled by the sender's role, with the text defaulting to the empty
    string and the time to the server's clock, goes to every open socket
    among the slots and the spectators of the room.  Without a room the
    frame is dropped. *)
Theorem chat_reaches_the_room c ws text time now clock st :
  sockets st !! c = Some ws →
  let st' := on_message c (Chat text time) now clock st in
  let frame :=
    MsgChat (label_of ws) (default ""%string text)
            (match time with
             | Some t => if bool_decide (t = ""%string) then clock else t
             | None => clock
             end) in
  rooms st' = rooms st ∧ sockets st' = sockets st ∧ timeouts st' = timeouts st ∧
  (rooms st !! room_key (roomId ws) = None → st' = st) ∧
  (∀ room, rooms st !! room_key (roomId ws) = Some room →
     wire st' = wire st ++ frames st room frame ∧
     ∀ p, p ∈ targets room → is_open st p = true → (p, frame) ∈ frames st room frame).
Proof.
  intros Hws st' frame. subst st'. unfold on_message. rewrite Hws. unfold on_chat.
  destruct (rooms st !! room_key (roomId ws)) as [room|] eqn:Hr.
  - rewrite broadcast_rooms. unfold broadcast at 1 2. rewrite Hr.
    split; [done|]. split; [done|]. split; [done|]. split; [done|].
    intros room1 [= <-]. split.
    + by rewrite (broadcast_wire _ _ _ _ Hr).
    + intros p Hp Hop. by apply broadcast_reaches.
  - split; [done|]. split; [done|]. split; [done|]. split; [done|]. done.
Qed.

Lemma chat_reaches_the_room_witness :
  (0%nat, MsgChat (Kansen (Some 2%nat)) "hi" "12:00")
  ∈ frames three_in_r1 (the_room three_in_r1 "r1")
      (MsgChat (Kansen (Some 2%nat)) "hi" "12:00").
Proof.
  destruct (chat_reaches_the_room 2 (the_ws three_in_r1 2) (Some "hi"%string) None
              7 "12:00" three_in_r1) as (_ & _ & _ & _ & H);
    [vm_compute; reflexivity|].
  destruct (H (the_room three_in_r1 "r1")) as [_ Hall]; [vm_compute; reflexivity|].
  apply (Hall 0%nat); [|vm_compute; reflexivity].
  vm_compute. apply list_elem_of_In. simpl. tauto.
Defined.

(** ** The close handler, case by case *)

Lemma is_player_roleIdx ws :
  is_player ws = true → ∃ r, roleIdx ws = Some r ∧ (r = 0 ∨ r = 1)%nat.
Proof.
  unfold is_player. intros H. apply orb_true_iff in H as [H|H];
    apply bool_decide_eq_true in H; eauto.
Qed.

(** The tail of the close handler: nothing when somebody is left, else a
    fresh cleanup timer in place of the one on record. *)
Lemma schedule_cleanup_cases c rid now st room :
  rooms st !! rid = Some room →
  let st' := schedule_cleanup c rid now st in
  (peers room ≠ 0%nat ∧ st' = st) ∨
  (peers room = 0%nat ∧
   rooms st' = <[rid := set_cleanupTimer (Some (next_timeout st)) room]> (rooms st) ∧
   timeouts st'
   = <[next_timeout st := mkTimeout now TTL (Cleanup c)]>
       (timeouts (clear_if_set (cleanupTimer room) st)) ∧
   next_timeout st' = S (next_timeout st) ∧
   sockets st' = sockets st ∧ wire st' = wire st).
Proof.
  intros Hroom st'. subst st'. unfold schedule_cleanup. rewrite Hroom.
  case_bool_decide as Hp; [right|left; done].
  unfold setTimeout. simpl.
  rewrite !clear_if_set_rooms, !clear_if_set_next_timeout, clear_if_set_sockets,
    clear_if_set_wire.
  split; [done|]. split; [|done].
  apply map_eq. intros rid'. destruct (decide (rid = rid')) as [<-|Hne].
  - by rewrite lookup_alter_eq, lookup_insert_eq, Hroom.
  - by rewrite lookup_alter_ne, lookup_insert_ne.
Qed.

(** The branch of the close handler before its tail: a spectator (or a
    socket without role) leaves the spectators, the occupant of a slot
    leaves it on lease, a player that is not the occupant leaves nothing. *)
Lemma on_close_branch env c ws now st room :
  sockets st !! c = Some ws →
  rooms st !! room_key (roomId ws) = Some room →
  let rid := room_key (roomId ws) in
  ∃ room1 st1,
    on_close env c now st = schedule_cleanup c rid now st1 ∧
    rooms st1 = <[rid := room1]> (rooms st) ∧
    sockets st1 = alter (set_readyState CLOSED) c (sockets st) ∧
    wire st1 = wire st ∧
    ((is_player ws = false ∧
      room1 = set_spectators (set_delete c) room ∧
      timeouts st1 = timeouts st ∧ next_timeout st1 = next_timeout st)
     ∨ (∃ r, roleIdx ws = Some r ∧ (r = 0 ∨ r = 1)%nat ∧ slot room r = Some c ∧
          room1 = set_playerLeaseTimer <[r := Some (next_timeout st)]>
                    (set_playerLeaseExpiry <[r := now + ROLE_LEASE_MS env]>
                       (set_slots <[r := None]> room)) ∧
          timeouts st1
          = <[next_timeout st := mkTimeout now (armed_delay (ROLE_LEASE_MS env)) (LeaseExpire rid r)]>
              (timeouts (clear_if_set (leaseTimer room r) st)) ∧
          next_timeout st1 = S (next_timeout st))
     ∨ (∃ r, roleIdx ws = Some r ∧ (r = 0 ∨ r = 1)%nat ∧ slot room r ≠ Some c ∧
          room1 = room ∧
          timeouts st1 = timeouts st ∧ next_timeout st1 = next_timeout st)).
Proof.
  intros Hws Hroom rid. unfold on_close.
  set (st0 := update_ws c (set_readyState CLOSED) st).
  assert (Hws0 : sockets st0 !! c = Some (set_readyState CLOSED ws)).
  { subst st0. simpl. by rewrite lookup_alter_eq, Hws. }
  rewrite Hws0. change (roomId (set_readyState CLOSED ws)) with (roomId ws).
  fold rid. change (rooms st0) with (rooms st).
  change (rooms st !! rid = Some room) in Hroom. rewrite Hroom.
  change (is_player (set_readyState CLOSED ws)) with (is_player ws).
  change (roleIdx (set_readyState CLOSED ws)) with (roleIdx ws).
  destruct (is_player ws) eqn:Hpl.
  - destruct (is_player_roleIdx ws Hpl) as (r & Hrole & Hr). rewrite Hrole.
    case_bool_decide as Hocc.
    + set (sta := update_room rid (set_slots <[r := None]>) st0).
      assert (Hra : rooms sta !! rid = Some (set_slots <[r := None]> room))
        by (by apply update_room_lookup).
      destruct (startLeaseTimer_spec env rid r now sta _ Hra)
        as (Hrb & Hother & Htb & Hnb & Hsb & Hwb).
      exists (set_playerLeaseTimer <[r := Some (next_timeout st)]>
                (set_playerLeaseExpiry <[r := now + ROLE_LEASE_MS env]>
                   (set_slots <[r := None]> room))),
             (startLeaseTimer env rid r now sta).
      split; [reflexivity|]. split; [|split; [done|split; [done|]]].
      * apply map_eq. intros rid'. destruct (decide (rid = rid')) as [<-|Hne].
        -- by rewrite Hrb, lookup_insert_eq.
        -- rewrite (Hother rid' Hne), lookup_insert_ne by done. subst sta. simpl.
           by rewrite lookup_alter_ne.
      * right. left. exists r. split; [done|]. split; [done|]. split; [done|].
        split; [done|]. split; [|exact Hnb]. rewrite Htb.
        change (leaseTimer (set_slots <[r:=None]> room) r) with (leaseTimer room r).
        by destruct (leaseTimer room r).
    + exists room, st0. split; [done|]. split; [by rewrite insert_id|].
      split; [done|]. split; [done|]. right. right. exists r. done.
  - exists (set_spectators (set_delete c) room),
           (update_room rid (set_spectators (set_delete c)) st0).
    split; [reflexivity|]. split; [|split; [done|split; [done|]]].
    + simpl. apply map_eq. intros rid'. destruct (decide (rid = rid')) as [<-|Hne].
      * by rewrite lookup_alter_eq, lookup_insert_eq, Hroom.
      * by rewrite lookup_alter_ne, lookup_insert_ne.
    + left. done.
Qed.

Lemma set_cleanupTimer_id room : set_cleanupTimer (cleanupTimer room) room = room.
Proof. by destruct room. Qed.

Lemma peers_set_cleanupTimer h room : peers (set_cleanupTimer h room) = peers room.
Proof. done. Qed.

Lemma clear_if_set_lookup h st t tm :
  timeouts (clear_if_set h st) !! t = Some tm → timeouts st !! t = Some tm.
Proof.
  destruct h as [t0|]; simpl; [|done]. intros H.
  by apply lookup_delete_Some in H as [_ H].
Qed.

(** The whole close handler on a socket whose room exists: the room after
    the branch, then the tail. *)
Lemma on_close_result env c ws now st room :
  sockets st !! c = Some ws →
  rooms st !! room_key (roomId ws) = Some room →
  let rid := room_key (roomId ws) in
  let st' := on_close env c now st in
  ∃ room1 st1,
    rooms st1 = <[rid := room1]> (rooms st) ∧
    wire st' = wire st ∧
    sockets st' = alter (set_readyState CLOSED) c (sockets st) ∧
    ((is_player ws = false ∧
      room1 = set_spectators (set_delete c) room ∧
      timeouts st1 = timeouts st ∧ next_timeout st1 = next_timeout st)
     ∨ (∃ r, roleIdx ws = Some r ∧ (r = 0 ∨ r = 1)%nat ∧ slot room r = Some c ∧
          room1 = set_playerLeaseTimer <[r := Some (next_timeout st)]>
                    (set_playerLeaseExpiry <[r := now + ROLE_LEASE_MS env]>
                       (set_slots <[r := None]> room)) ∧
          timeouts st1
          = <[next_timeout st := mkTimeout now (armed_delay (ROLE_LEASE_MS env)) (LeaseExpire rid r)]>
              (timeouts (clear_if_set (leaseTimer room r) st)) ∧
          next_timeout st1 = S (next_timeout st))
     ∨ (∃ r, roleIdx ws = Some r ∧ (r = 0 ∨ r = 1)%nat ∧ slot room r ≠ Some c ∧
          room1 = room ∧
          timeouts st1 = timeouts st ∧ next_timeout st1 = next_timeout st)) ∧
    ((peers room1 ≠ 0%nat ∧ rooms st' = <[rid := room1]> (rooms st) ∧
      timeouts st' = timeouts st1)
     ∨ (peers room1 = 0%nat ∧
        rooms st' = <[rid := set_cleanupTimer (Some (next_timeout st1)) room1]> (rooms st) ∧
        timeouts st'
        = <[next_timeout st1 := mkTimeout now TTL (Cleanup c)]>
            (timeouts (clear_if_set (cleanupTimer room1) st1)))).
Proof.
  intros Hws Hroom rid st'. subst st'.
  destruct (on_close_branch env c ws now st room Hws Hroom)
    as (room1 & st1 & -> & Hr1 & Hs1 & Hw1 & Hbranch).
  fold rid in Hr1, Hbranch |- *.
  assert (Hlk : rooms st1 !! rid = Some room1) by (rewrite Hr1; apply lookup_insert_eq).
  exists room1, st1. split; [done|].
  destruct (schedule_cleanup_cases c rid now st1 room1 Hlk)
    as [[Hp ->] | (Hp & Hr & Ht & _ & Hs & Hw)].
  - split; [done|]. split; [done|]. split; [done|]. left. done.
  - split; [congruence|]. split; [congruence|]. split; [done|]. right.
    split; [done|]. split; [|done]. rewrite Hr, Hr1. apply insert_insert_eq.
Qed.

(** ** Leaving as a spectator, leaving late *)

(** X4.  When a socket whose role is not 0 or 1 closes, it is taken out of the
    spectators of its room and nothing else of the room changes but the
    cleanup handle: the queue keeps its device id, the slots, tokens and
    leases are as they were.  No frame is sent and no lease timer is
    started. *)
Theorem close_spectator_keeps_queue env c ws now st room :
  sockets st !! c = Some ws →
  rooms st !! room_key (roomId ws) = Some room →
  is_player ws = false →
  let st' := on_close env c now st in
  (∃ h, rooms st' !! room_key (roomId ws)
        = Some (set_cleanupTimer h (set_spectators (set_delete c) room))) ∧
  wire st' = wire st ∧
  (∀ t tm rid r, timeouts st' !! t = Some tm → callback tm = LeaseExpire rid r →
                 timeouts st !! t = Some tm).
Proof.
  intros Hws Hroom Hpl st'.
  destruct (on_close_result env c ws now st room Hws Hroom)
    as (room1 & st1 & Hr1 & Hw & _ & Hbranch & Htail).
  fold st' in Hw, Htail.
  destruct Hbranch as [(_ & -> & Ht1 & Hn1) | [(r & Hrole & Hr & _) | (r & Hrole & Hr & _)]].
  2,3: exfalso; unfold is_player in Hpl; rewrite Hrole in Hpl;
       destruct Hr as [-> | ->]; done.
  split; [|split; [done|]].
  - destruct Htail as [(_ & -> & _) | (_ & -> & _)].
    + exists (cleanupTimer (set_spectators (set_delete c) room)).
      rewrite set_cleanupTimer_id. apply lookup_insert_eq.
    + eexists. apply lookup_insert_eq.
  - intros t tm rid r Ht Hcb. destruct Htail as [(_ & _ & Heq) | (_ & _ & Heq)];
      rewrite Heq in Ht.
    + by rewrite Ht1 in Ht.
    + destruct (decide (next_timeout st1 = t)) as [<-|Hne].
      * rewrite lookup_insert_eq in Ht. by simplify_eq.
      * rewrite lookup_insert_ne in Ht by done.
        apply clear_if_set_lookup in Ht. by rewrite Ht1 in Ht.
Qed.

Lemma close_spectator_keeps_queue_witness :
  let st' := on_close None 2 50 three_in_r1 in
  spectators (the_room st' "r1") = [] ∧ specQueue (the_room st' "r1") = ["d3"%string].
Proof.
  intros st'.
  destruct (close_spectator_keeps_queue None 2 (the_ws three_in_r1 2) 50 three_in_r1
              (the_room three_in_r1 "r1"))
    as ([h Hroom] & _); [vm_compute; reflexivity..|].
  change (room_key (roomId (the_ws three_in_r1 2))) with "r1"%string in Hroom.
  unfold the_room. fold st' in Hroom. rewrite Hroom. vm_compute.
  split; reflexivity.
Defined.

(** X5.  When a socket with role 0 or 1 closes but is not the occupant of that
    slot any more (the slot is empty or holds another socket), the room
    keeps its slots, spectators, queue, tokens and leases: only the cleanup
    handle can change.  No frame is sent and no lease timer is started. *)
Theorem close_of_replaced_player env c ws r now st room :
  sockets st !! c = Some ws →
  rooms st !! room_key (roomId ws) = Some room →
  roleIdx ws = Some r →
  (r = 0 ∨ r = 1)%nat →
  slot room r ≠ Some c →
  let st' := on_close env c now st in
  (∃ h, rooms st' !! room_key (roomId ws) = Some (set_cleanupTimer h room)) ∧
  wire st' = wire st ∧
  (∀ t tm rid r', timeouts st' !! t = Some tm → callback tm = LeaseExpire rid r' →
                  timeouts st !! t = Some tm).
Proof.
  intros Hws Hroom Hrole Hr Hocc st'.
  destruct (on_close_result env c ws now st room Hws Hroom)
    as (room1 & st1 & Hr1 & Hw & _ & Hbranch & Htail).
  fold st' in Hw, Htail.
  assert (Hpl : is_player ws = true).
  { unfold is_player. rewrite Hrole. destruct Hr as [-> | ->]; done. }
  destruct Hbranch as [(Hnp & _) | [(r' & Hrole' & _ & Hs' & _) | (r' & _ & _ & _ & -> & Ht1 & Hn1)]].
  { congruence. }
  { rewrite Hrole in Hrole'. by simplify_eq. }
  split; [|split; [done|]].
  - destruct Htail as [(_ & -> & _) | (_ & -> & _)].
    + exists (cleanupTimer room). rewrite set_cleanupTimer_id. apply lookup_insert_eq.
    + eexists. apply lookup_insert_eq.
  - intros t tm rid r'' Ht Hcb. destruct Htail as [(_ & _ & Heq) | (_ & _ & Heq)];
      rewrite Heq in Ht.
    + by rewrite Ht1 in Ht.
    + destruct (decide (next_timeout st1 = t)) as [<-|Hne].
      * rewrite lookup_insert_eq in Ht. by simplify_eq.
      * rewrite lookup_insert_ne in Ht by done.
        apply clear_if_set_lookup in Ht. by rewrite Ht1 in Ht.
Qed.

Lemma close_of_replaced_player_witness :
  let st' := on_close None 1 904000 recreated_r1 in
  slot (the_room st' "r1") 1 = Some 3%nat ∧
  leaseTimer (the_room st' "r1") 1 = None.
Proof.
  intros st'.
  destruct (close_of_replaced_player None 1 (the_ws recreated_r1 1) 1 904000
              recreated_r1 (the_room recreated_r1 "r1"))
    as ([h Hroom] & _);
    [vm_compute; reflexivity | vm_compute; reflexivity | vm_compute; reflexivity
    | right; reflexivity | vm_compute; discriminate |].
  change (room_key (roomId (the_ws recreated_r1 1))) with "r1"%string in Hroom.
  unfold the_room. fold st' in Hroom. rewrite Hroom. vm_compute.
  split; reflexivity.
Defined.

(** ** Arming the cleanup *)



(** ** Timers *)

Lemma onLeaseExpire_timeouts rid r st t tm :
  timeouts (onLeaseExpire rid r st) !! t = Some tm → timeouts st !! t = Some tm.
Proof.
  unfold onLeaseExpire. destruct (rooms st !! rid) as [room|]; [|done].
  destruct (slot room r); [done|].
  destruct (dequeueNextLiveSpectator st (spectators room) (specQueue room))
    as [[[s|] specs] queue]; [|done].
  rewrite send_state_timeouts, send_timeouts. unfold assignRole.
  destruct (rooms _ !! rid); [|done]. destruct (sockets _ !! s); [|done].
  intros H. by apply clear_if_set_lookup in H.
Qed.

Lemma on_timeout_timeouts t st t' tm :
  timeouts (on_timeout t st) !! t' = Some tm →
  timeouts st !! t' = Some tm ∧ (is_Some (timeouts st !! t) → t' ≠ t).
Proof.
  unfold on_timeout. destruct (timeouts st !! t) as [tm0|] eqn:Ht.
  - intros H.
    assert (Hd : timeouts (set_timeouts (delete t) st) !! t' = Some tm).
    { destruct (callback tm0) as [rid r|c].
      - by apply onLeaseExpire_timeouts in H.
      - unfold on_cleanup in H. by destruct (sockets _ !! c). }
    simpl in Hd. apply lookup_delete_Some in Hd as [Hne Hd]. split; [done|].
    intros _. congruence.
  - intros H. split; [done|]. by intros [? ?].
Qed.

(** X7.  A handle fires at most once, and a cleared handle never fires: after a
    timer event the handle is not pending, a second event for it changes
    nothing, and so does an event for a handle that [clearTimeout] took.
    A timer callback arms no timer: whatever is pending afterwards was
    pending before. *)
Theorem timeout_fires_at_most_once t st :
  timeouts (on_timeout t st) !! t = None ∧
  on_timeout t (on_timeout t st) = on_timeout t st ∧
  on_timeout t (clearTimeout t st) = clearTimeout t st ∧
  (∀ t' tm, timeouts (on_timeout t st) !! t' = Some tm → timeouts st !! t' = Some tm).
Proof.
  assert (Hgone : timeouts (on_timeout t st) !! t = None).
  { destruct (timeouts (on_timeout t st) !! t) as [tm|] eqn:H; [|done].
    destruct (on_timeout_timeouts t st t tm H) as [H0 Hne].
    exfalso. by apply Hne. }
  split; [done|]. split; [|split].
  - unfold on_timeout at 1. by rewrite Hgone.
  - unfold on_timeout. simpl. by rewrite lookup_delete_eq.
  - intros t' tm H. by apply on_timeout_timeouts in H as [? _].
Qed.

(** X8.  A join that is seated in a slot, by either loop, cancels the lease
    timer the room records for that slot: the handle is not pending any
    more, the room records none, and a timer event for the handle changes
    nothing. *)
Theorem seat_cancels_lease_timer c ws mroom mdev now clock st room r t :
  sockets st !! c = Some ws →
  rooms st !! room_of mroom = Some room →
  join_slot (device_of mdev) now room = Some r →
  leaseTimer room r = Some t →
  let st' := on_message c (Join mroom mdev) now clock st in
  timeouts st' !! t = None ∧
  leaseTimer (the_room st' (room_of mroom)) r = None ∧
  slot (the_room st' (room_of mroom)) r = Some c ∧
  on_timeout t st' = st'.
Proof.
  intros Hws Hroom Hjs Ht st'.
  assert (Hst' : st' = on_join c mroom mdev now st).
  { subst st'. unfold on_message. by rewrite Hws. }
  destruct (on_join_seated c ws mroom mdev now st room r Hws Hroom Hjs) as (Htm & _).
  pose proof (on_join_rooms c ws mroom mdev now st Hws) as Hrooms.
  cbv zeta in Hrooms. rewrite (getOrCreateRoom_existing _ _ _ _ Hroom) in Hrooms.
  simpl in Hrooms. rewrite <- Hst' in Htm, Hrooms.
  destruct (join_room_seated c (device_of mdev) now room r Hjs) as (Hs & _ & _ & Hl & _).
  assert (Hgone : timeouts st' !! t = None).
  { rewrite Htm, Ht. simpl. apply lookup_delete_eq. }
  split; [done|]. unfold the_room. rewrite Hrooms, lookup_insert_eq. simpl.
  split; [done|]. split; [done|]. unfold on_timeout. by rewrite Hgone.
Qed.

Lemma seat_cancels_lease_timer_witness :
  let st := run None three_in_r1 [Close 0 10; Connection] in
  let st' := on_message 3 (Join (Some "r1") (Some "zz")) 100000 "" st in
  timeouts st' !! 0%nat = None ∧ slot (the_room st' "r1") 0 = Some 3%nat.
Proof.
  intros st st'.
  destruct (seat_cancels_lease_timer 3 (the_ws st 3) (Some "r1"%string)
              (Some "zz"%string) 100000 "" st (the_room st "r1") 0 0)
    as (Hgone & _ & Hslot & _); [vm_compute; reflexivity..|].
  split; [exact Hgone | exact Hslot].
Defined.

(** ** Sockets without a room *)

Lemma no_room_no_effect c ws m now clock st :
  sockets st !! c = Some ws →
  rooms st !! room_key (roomId ws) = None →
  (∀ mroom mdev, m ≠ Join mroom mdev) →
  on_message c m now clock st = st.
Proof.
  intros Hws Hnone Hm.
  unfold on_message. rewrite Hws. destruct m as [mroom mdev| |v|text time].
  - by destruct (Hm mroom mdev).
  - unfold on_request_state. by rewrite Hnone.
  - unfold on_syncState. by rewrite Hnone.
  - unfold on_chat. by rewrite Hnone.
Qed.

(** X9.  A socket whose recorded room id names no room in the table (it never
    joined, or its room was deleted) is ignored: its [request_state],
    [syncState] and [chat] frames change nothing at all, and its close only
    marks the socket closed. *)
Theorem socket_without_room_is_ignored env c ws m now clock st :
  sockets st !! c = Some ws →
  rooms st !! room_key (roomId ws) = None →
  (∀ mroom mdev, m ≠ Join mroom mdev) →
  on_message c m now clock st = st ∧
  on_close env c now st = update_ws c (set_readyState CLOSED) st.
Proof.
  intros Hws Hnone Hm. split; [by apply (no_room_no_effect c ws)|].
  unfold on_close. simpl. rewrite lookup_alter_eq, Hws. simpl. by rewrite Hnone.
Qed.

Lemma socket_without_room_is_ignored_witness :
  on_message 2 (Chat (Some "hi"%string) None) 5 "" full_r1 = full_r1.
Proof.
  destruct (socket_without_room_is_ignored None 2 (the_ws full_r1 2)
              (Chat (Some "hi"%string) None) 5 "" full_r1) as [H _];
    [vm_compute; reflexivity | vm_compute; reflexivity | discriminate |].
  exact H.
Defined.

(** X11.  A socket that has not joined records no room, and a property read with
    that key reads the room named ["null"]: when such a room exists, the
    socket's [request_state] is answered with that room's snapshot and its
    [chat] frame is broadcast to that room. *)
Theorem unjoined_socket_reads_room_null c ws now clock st room :
  sockets st !! c = Some ws →
  roomId ws = None →
  roleIdx ws = None →
  rooms st !! "null"%string = Some room →
  (∀ v, state room = Some v → truthy v = true → is_open st c = true →
        wire (on_message c RequestState now clock st)
        = wire st ++ [(c, MsgSyncState v)]) ∧
  (∀ text,
      wire (on_message c (Chat (Some text) None) now clock st)
      = wire st ++ frames st room (MsgChat (Kansen None) text clock)).
Proof.
  intros Hws Hrid Hrole Hroom. split.
  - intros v Hv Htr Hop. unfold on_message. rewrite Hws. unfold on_request_state.
    rewrite Hrid. simpl. rewrite Hroom. unfold send_state. rewrite Hv, Htr.
    by apply send_open_wire.
  - intros text. unfold on_message. rewrite Hws. unfold on_chat.
    rewrite Hrid. simpl. rewrite Hroom.
    rewrite (broadcast_wire _ _ _ _ Hroom). unfold label_of. by rewrite Hrole.
Qed.

Lemma unjoined_socket_reads_room_null_witness :
  wire (on_message 1 RequestState 5 "" room_named_null)
  = wire room_named_null ++ [(1%nat, MsgSyncState (JObj []))].
Proof.
  destruct (unjoined_socket_reads_room_null 1 (the_ws room_named_null 1) 5 ""
              room_named_null (the_room room_named_null "null")) as [H _];
    [vm_compute; reflexivity..|].
  apply H; vm_compute; reflexivity.
Defined.

(** ** Who gets frames *)

Lemma sends_only_to_same c st st' :
  sockets st' = sockets st → wire st' = wire st → sends_only_to c st st'.
Proof.
  intros Hs Hw. split; [intros p; by apply is_open_sockets|].
  exists []. split; [by rewrite app_nil_r|]. intros p m H. by apply elem_of_nil in H.
Qed.

Lemma sends_only_to_trans c st1 st2 st3 :
  sends_only_to c st1 st2 → sends_only_to c st2 st3 → sends_only_to c st1 st3.
Proof.
  intros [Ho1 (d1 & Hw1 & Hd1)] [Ho2 (d2 & Hw2 & Hd2)]. split.
  - intros p. by rewrite Ho2, Ho1.
  - exists (d1 ++ d2). split; [by rewrite Hw2, Hw1, app_assoc|].
    intros p m Hin. apply elem_of_app in Hin as [Hin|Hin]; [by apply (Hd1 p m)|].
    destruct (Hd2 p m Hin) as [-> Hop]. split; [done|]. by rewrite <- Ho1.
Qed.

Lemma sends_only_to_send c m st : sends_only_to c st (send c m st).
Proof.
  split; [intros p; apply is_open_sockets, send_sockets|].
  unfold send. destruct (is_open st c) eqn:Hop.
  - exists [(c, m)]. split; [done|]. intros p m' Hin.
    apply list_elem_of_singleton in Hin. by simplify_eq.
  - exists []. split; [by rewrite app_nil_r|]. intros p m' H. by apply elem_of_nil in H.
Qed.

Lemma sends_only_to_send_state room c st : sends_only_to c st (send_state room c st).
Proof.
  unfold send_state. destruct (state room) as [v|]; [|by apply sends_only_to_same].
  destruct (truthy v); [apply sends_only_to_send|by apply sends_only_to_same].
Qed.

Lemma sends_only_to_update_ws c c' f st :
  (∀ w, readyState (f w) = readyState w) →
  sends_only_to c st (update_ws c' f st).
Proof.
  intros Hf. split; [intros p; by apply is_open_update_ws|].
  exists []. split; [by rewrite app_nil_r|]. intros p m H. by apply elem_of_nil in H.
Qed.

Lemma sends_only_to_assignRole c rid r s st : sends_only_to c st (assignRole rid r s st).
Proof.
  split; [intros p; apply is_open_assignRole|].
  exists []. split; [|intros p m H; by apply elem_of_nil in H].
  rewrite app_nil_r. unfold assignRole. destruct (rooms st !! rid); [|done].
  destruct (sockets st !! s); [|done]. by rewrite clear_if_set_wire.
Qed.

Lemma sends_only_to_seat c rid r room st : sends_only_to c st (seat rid r c room st).
Proof.
  unfold seat.
  eapply sends_only_to_trans; [|apply sends_only_to_send_state].
  eapply sends_only_to_trans; [|apply sends_only_to_send].
  apply sends_only_to_assignRole.
Qed.

Lemma on_join_sends_only_to c mroom mdev now st :
  sends_only_to c st (on_join c mroom mdev now st).
Proof.
  unfold on_join.
  assert (Hg : sends_only_to c st (getOrCreateRoom (room_of mroom) now st).2).
  { unfold getOrCreateRoom. destruct (rooms st !! room_of mroom);
      by apply sends_only_to_same. }
  destruct (getOrCreateRoom (room_of mroom) now st) as [room st1]. simpl in Hg.
  set (st2 := update_ws c _ st1).
  assert (H2 : sends_only_to c st st2).
  { apply (sends_only_to_trans c st st1 st2 Hg).
    subst st2. by apply sends_only_to_update_ws. }
  clearbody st2.
  destruct (first_slot (can_reclaim room (device_of mdev) now)).
  { apply (sends_only_to_trans c st st2 _ H2), sends_only_to_seat. }
  destruct (first_slot (can_seat room now)).
  { apply (sends_only_to_trans c st st2 _ H2), sends_only_to_seat. }
  eapply sends_only_to_trans; [|apply sends_only_to_send_state].
  eapply sends_only_to_trans; [|apply sends_only_to_send].
  apply (sends_only_to_trans c st st2 _ H2).
  apply (sends_only_to_trans c st2 (set_rooms <[room_of mroom :=
           enqueueSpectator c (Some (device_of mdev)) room]> st2)).
  - by apply sends_only_to_same.
  - by apply sends_only_to_update_ws.
Qed.

Lemma on_close_wire env c now st : wire (on_close env c now st) = wire st.
Proof.
  destruct (sockets st !! c) as [ws|] eqn:Hws.
  - destruct (rooms st !! room_key (roomId ws)) as [room|] eqn:Hroom.
    + by destruct (on_close_result env c ws now st room Hws Hroom)
        as (_ & _ & _ & Hw & _).
    + unfold on_close. simpl. rewrite lookup_alter_eq, Hws. simpl. by rewrite Hroom.
  - unfold on_close. simpl. by rewrite lookup_alter_eq, Hws.
Qed.

(** X12.  A join tells nobody but the joiner, and a close tells nobody: every
    frame a [join] puts on the wire goes to the joining socket, and the
    close handler sends no frame. *)
Theorem join_and_close_notify_nobody_else env c mroom mdev now clock st :
  (∃ delta, wire (on_message c (Join mroom mdev) now clock st) = wire st ++ delta ∧
            ∀ p m, (p, m) ∈ delta → p = c) ∧
  wire (on_close env c now st) = wire st.
Proof.
  split; [|apply on_close_wire].
  unfold on_message. destruct (sockets st !! c).
  - destruct (on_join_sends_only_to c mroom mdev now st) as [_ (delta & Hw & Hd)].
    exists delta. split; [done|]. intros p m Hin. by destruct (Hd p m Hin).
  - exists []. split; [by rewrite app_nil_r|]. intros p m H. by apply elem_of_nil in H.
Qed.

Lemma sends_to_open_of_only c st st' : sends_only_to c st st' → sends_to_open st st'.
Proof.
  intros [_ (delta & Hw & Hd)]. exists delta. split; [done|].
  intros p m Hin. by destruct (Hd p m Hin) as [-> ?].
Qed.

Lemma sends_to_open_same st st' : wire st' = wire st → sends_to_open st st'.
Proof.
  intros Hw. exists []. split; [by rewrite app_nil_r|].
  intros p m H. by apply elem_of_nil in H.
Qed.

Lemma sends_to_open_broadcast rid m st st1 :
  sockets st1 = sockets st → wire st1 = wire st →
  sends_to_open st (broadcast rid m st1).
Proof.
  intros Hs Hw. unfold broadcast. destruct (rooms st1 !! rid) as [room|];
    [|by apply sends_to_open_same].
  eexists. split; [simpl; by rewrite Hw|].
  intros p m' Hin. apply list_elem_of_fmap in Hin as (q & Heq & Hq).
  simplify_eq. apply list_elem_of_filter in Hq as [Hop _].
  by rewrite <- (is_open_sockets st st1).
Qed.

Lemma onLeaseExpire_sends_to_open rid r st : sends_to_open st (onLeaseExpire rid r st).
Proof.
  unfold onLeaseExpire. destruct (rooms st !! rid) as [room|];
    [|by apply sends_to_open_same].
  destruct (slot room r); [by apply sends_to_open_same|].
  destruct (dequeueNextLiveSpectator st (spectators room) (specQueue room))
    as [[[s|] specs] queue]; [|by apply sends_to_open_same].
  apply (sends_to_open_of_only s).
  eapply sends_only_to_trans; [|apply sends_only_to_send_state].
  eapply sends_only_to_trans; [|apply sends_only_to_send].
  eapply sends_only_to_trans; [|apply sends_only_to_assignRole].
  by apply sends_only_to_same.
Qed.

(** X13.  No event sends a frame to a socket that is not open, and no event takes
    a frame back: the wire after an event is the wire before it followed by
    frames for sockets that were open when the event arrived. *)
Theorem frames_only_to_open_sockets env st e : sends_to_open st (step env st e).
Proof.
  destruct e as [|c m now clock|c|c now|t]; simpl.
  - by apply sends_to_open_same.
  - unfold on_message. destruct (sockets st !! c) as [ws|]; [|by apply sends_to_open_same].
    destruct m as [mroom mdev| |v|text time].
    + apply (sends_to_open_of_only c), on_join_sends_only_to.
    + unfold on_request_state. destruct (rooms st !! _); [|by apply sends_to_open_same].
      apply (sends_to_open_of_only c), sends_only_to_send_state.
    + unfold on_syncState. destruct (rooms st !! _); [|by apply sends_to_open_same].
      destruct (is_player ws); [|by apply sends_to_open_same].
      destruct v as [v|]; [|by apply sends_to_open_same].
      destruct (truthy v && typeof_object v); [|by apply sends_to_open_same].
      by apply sends_to_open_broadcast.
    + unfold on_chat. destruct (rooms st !! _); [|by apply sends_to_open_same].
      by apply sends_to_open_broadcast.
  - by apply sends_to_open_same.
  - apply sends_to_open_same, on_close_wire.
  - unfold on_timeout. destruct (timeouts st !! t) as [tm|]; [|by apply sends_to_open_same].
    destruct (callback tm) as [rid r|c].
    + destruct (onLeaseExpire_sends_to_open rid r (set_timeouts (delete t) st))
        as (delta & Hw & Hd).
      exists delta. split; [done|]. intros p m Hin. by apply (Hd p m).
    + unfold on_cleanup. destruct (sockets _ !! c); by apply sends_to_open_same.
Qed.

(** ** More on joining *)

Lemma assignRole_room_other r r' c dev room :
  r ≠ r' →
  playerToken (assignRole_room r c dev room) !! r' = playerToken room !! r' ∧
  playerLeaseExpiry (assignRole_room r c dev room) !! r' = playerLeaseExpiry room !! r' ∧
  playerLeaseTimer (assignRole_room r c dev room) !! r' = playerLeaseTimer room !! r'.
Proof.
  intros Hne. unfold assignRole_room. destruct (leaseTimer room r); simpl;
    by rewrite !lookup_insert_ne.
Qed.

Lemma enqueueSpectator_leases c dev room :
  playerToken (enqueueSpectator c dev room) = playerToken room ∧
  playerLeaseExpiry (enqueueSpectator c dev room) = playerLeaseExpiry room ∧
  playerLeaseTimer (enqueueSpectator c dev room) = playerLeaseTimer room ∧
  cleanupTimer (enqueueSpectator c dev room) = cleanupTimer room.
Proof.
  unfold enqueueSpectator. destruct (token_of dev); [|done]. by case_bool_decide.
Qed.

(** A slot both tests refuse keeps its token, expiry and timer. *)
Lemma join_room_lease_refused c dev now room r :
  can_reclaim room dev now r = false →
  can_seat room now r = false →
  playerToken (join_room c dev now room) !! r = playerToken room !! r ∧
  playerLeaseExpiry (join_room c dev now room) !! r = playerLeaseExpiry room !! r ∧
  playerLeaseTimer (join_room c dev now room) !! r = playerLeaseTimer room !! r.
Proof.
  intros Hre Hse. unfold join_room.
  destruct (first_slot (can_reclaim room dev now)) as [r'|] eqn:H1.
  { apply first_slot_Some in H1 as [_ H1].
    apply assignRole_room_other. intros ->. congruence. }
  destruct (first_slot (can_seat room now)) as [r'|] eqn:H2.
  { apply first_slot_Some in H2 as [_ H2].
    apply assignRole_room_other. intros ->. congruence. }
  by destruct (enqueueSpectator_leases c (Some dev) room) as (-> & -> & -> & _).
Qed.

(** X14.  While the lease of an empty slot runs, a join with another device id
    does not get the slot and does not touch its lease: the slot stays
    empty with the token, the expiry and the timer it had. *)
Theorem lease_protects_slot c ws mroom mdev now clock st room r D e :
  sockets st !! c = Some ws →
  rooms st !! room_of mroom = Some room →
  slot room r = None →
  token room r = Some D →
  device_of mdev ≠ D →
  playerLeaseExpiry room !! r = Some e →
  e ≠ 0 →
  now < e →
  let st' := on_message c (Join mroom mdev) now clock st in
  ∃ room',
    rooms st' !! room_of mroom = Some room' ∧
    slot room' r = None ∧ token room' r = Some D ∧
    playerLeaseExpiry room' !! r = Some e ∧
    leaseTimer room' r = leaseTimer room r.
Proof.
  intros Hws Hroom Hslot Htok Hdev Hexp Hnz Hlt st'.
  subst st'. unfold on_message. rewrite Hws.
  rewrite (on_join_rooms c ws mroom mdev now st Hws).
  rewrite (getOrCreateRoom_existing _ _ _ _ Hroom). simpl.
  assert (Hre : can_reclaim room (device_of mdev) now r = false).
  { unfold can_reclaim. rewrite Hslot, Htok.
    rewrite (bool_decide_eq_false_2 (D = device_of mdev)) by congruence.
    by rewrite andb_false_r. }
  assert (Hse : can_seat room now r = false)
    by (by apply (can_seat_in_lease room now r e)).
  destruct (join_room_lease_refused c (device_of mdev) now room r Hre Hse)
    as (Ht & He & Hl).
  eexists. split; [apply lookup_insert_eq|].
  split; [by rewrite join_room_slot_refused|].
  unfold token, leaseTimer in *. by rewrite Ht, He, Hl.
Qed.

Lemma lease_protects_slot_witness :
  let st := run None three_in_r1 [Close 0 10; Connection] in
  let st' := on_message 3 (Join (Some "r1") (Some "zz")) 5000 "" st in
  slot (the_room st' "r1") 0 = None ∧ token (the_room st' "r1") 0 = Some "d1"%string.
Proof.
  intros st st'.
  destruct (lease_protects_slot 3 (the_ws st 3) (Some "r1"%string) (Some "zz"%string)
              5000 "" st (the_room st "r1") 0 "d1" 90010)
    as (room' & Hroom & Hslot & Htok & _);
    [vm_compute; reflexivity | vm_compute; reflexivity | vm_compute; reflexivity
    | vm_compute; reflexivity | discriminate | vm_compute; reflexivity
    | discriminate | reflexivity |].
  change (room_of (Some "r1"%string)) with "r1"%string in Hroom.
  unfold the_room. fold st' in Hroom. rewrite Hroom. simpl.
  split; [exact Hslot | exact Htok].
Defined.

Lemma on_join_created c mroom mdev now st :
  on_join c mroom mdev now st
  = on_join c mroom mdev now (getOrCreateRoom (room_of mroom) now st).2.
Proof.
  unfold on_join.
  assert (Hid : getOrCreateRoom (room_of mroom) now
                  (getOrCreateRoom (room_of mroom) now st).2
                = getOrCreateRoom (room_of mroom) now st).
  { unfold getOrCreateRoom. destruct (rooms st !! room_of mroom) eqn:Hr; simpl.
    - by rewrite Hr.
    - by rewrite lookup_insert_eq. }
  by rewrite Hid.
Qed.

Lemma fresh_room_tests dev now :
  first_slot (can_reclaim (fresh_room now) dev now) = None ∧
  first_slot (can_seat (fresh_room now) now) = Some 0%nat.
Proof.
  assert (Hs0 : slot (fresh_room now) 0 = None)
    by (unfold slot; simpl; by rewrite lookup_insert_eq).
  assert (Hs1 : slot (fresh_room now) 1 = None).
  { unfold slot. simpl. rewrite lookup_insert_ne by done.
    by rewrite lookup_singleton_eq. }
  assert (Ht0 : token (fresh_room now) 0 = None)
    by (unfold token; simpl; by rewrite lookup_insert_eq).
  assert (Ht1 : token (fresh_room now) 1 = None).
  { unfold token. simpl. rewrite lookup_insert_ne by done.
    by rewrite lookup_singleton_eq. }
  split.
  - unfold first_slot, can_reclaim. simpl. by rewrite Hs0, Hs1, Ht0, Ht1.
  - apply first_slot_0. unfold can_seat. rewrite Hs0. simpl.
    by rewrite lookup_insert_eq.
Qed.

(** X15.  The first join for a room id that is not the name of a property of
    [Object.prototype] creates the room and seats the joiner in slot 0,
    whatever its device id: the room is a fresh room with the joiner in
    slot 0 and its device id (or [null] for the empty id) as token, slot 1
    is empty, no other room and no timer changes, and an open joiner gets
    exactly one frame, its role 0.  (Under a name of
    [Object_prototype_names] the source finds the inherited property,
    creates no room and throws.) *)
Theorem first_join_creates_room c ws mroom mdev now clock st :
  sockets st !! c = Some ws →
  rooms st !! room_of mroom = None →
  room_of mroom ∉ Object_prototype_names →
  let st' := on_message c (Join mroom mdev) now clock st in
  let room' := assignRole_room 0 c (Some (device_of mdev)) (fresh_room now) in
  rooms st' = <[room_of mroom := room']> (rooms st) ∧
  slot room' 0 = Some c ∧ slot room' 1 = None ∧
  token room' 0 = token_of (Some (device_of mdev)) ∧
  roleIdx (the_ws st' c) = Some 0%nat ∧
  roomId (the_ws st' c) = Some (room_of mroom) ∧
  timeouts st' = timeouts st ∧
  (is_open st c = true → wire st' = wire st ++ [(c, MsgRole 0)]).
Proof.
  intros Hws Hnone _ st' room'.
  destruct (fresh_room_tests (device_of mdev) now) as [Hre Hse].
  assert (Hg : getOrCreateRoom (room_of mroom) now st
               = (fresh_room now, set_rooms <[room_of mroom := fresh_room now]> st)).
  { unfold getOrCreateRoom. by rewrite Hnone. }
  assert (Hjs : join_slot (device_of mdev) now (fresh_room now) = Some 0%nat).
  { unfold join_slot. by rewrite Hre. }
  assert (Hst' : st' = on_join c mroom mdev now st).
  { subst st'. unfold on_message. by rewrite Hws. }
  pose proof (on_join_rooms c ws mroom mdev now st Hws) as Hrooms.
  cbv zeta in Hrooms. rewrite Hg in Hrooms. simpl in Hrooms.
  unfold join_room in Hrooms. rewrite Hre, Hse in Hrooms.
  destruct (on_join_sockets c ws mroom mdev now st Hws) as [Hsock _].
  cbv zeta in Hsock. rewrite Hg in Hsock. simpl in Hsock.
  unfold join_role in Hsock. rewrite Hjs in Hsock.
  set (st1 := set_rooms <[room_of mroom := fresh_room now]> st).
  assert (Hr1 : rooms st1 !! room_of mroom = Some (fresh_room now))
    by (simpl; apply lookup_insert_eq).
  destruct (on_join_seated c ws mroom mdev now st1 (fresh_room now) 0 Hws Hr1 Hjs)
    as (Htm & _ & Hwire).
  assert (Hcr : on_join c mroom mdev now st = on_join c mroom mdev now st1).
  { rewrite on_join_created. by rewrite Hg. }
  rewrite <- Hcr, <- Hst' in Htm, Hwire. rewrite <- Hst' in Hrooms, Hsock.
  split; [done|]. split; [apply assignRole_room_slot|].
  split.
  { subst room'. rewrite assignRole_room_slot_ne by done.
    unfold slot. simpl. rewrite lookup_insert_ne by done.
    by rewrite lookup_singleton_eq. }
  split; [apply assignRole_room_token|].
  unfold the_ws. rewrite Hsock. simpl. split; [done|]. split; [done|]. split.
  - rewrite Htm.
    assert (Hl : leaseTimer (fresh_room now) 0 = None)
      by (unfold leaseTimer; simpl; by rewrite lookup_insert_eq).
    by rewrite Hl.
  - intros Hop. rewrite Hwire by done. done.
Qed.

Lemma first_join_creates_room_witness :
  let st' := on_message 0 (Join None None) 0 "" two_sockets in
  slot (the_room st' "room1") 0 = Some 0%nat ∧ wire st' = [(0%nat, MsgRole 0)].
Proof.
  intros st'.
  destruct (first_join_creates_room 0 (the_ws two_sockets 0) None None 0 ""
              two_sockets) as (Hrooms & Hslot & _ & _ & _ & _ & _ & Hwire);
    [vm_compute; reflexivity | vm_compute; reflexivity
    | apply (bool_decide_unpack _); vm_compute; exact I |].
  fold st' in Hrooms, Hwire. split.
  - unfold the_room. rewrite Hrooms, lookup_insert_eq. exact Hslot.
  - rewrite Hwire by (vm_compute; reflexivity). vm_compute. reflexivity.
Defined.

Lemma occupied_slot_tests room dev now r c :
  slot room r = Some c →
  can_reclaim room dev now r = false ∧ can_seat room now r = false.
Proof. intros H. unfold can_reclaim, can_seat. by rewrite H. Qed.

(** X16.  A join into a room whose two slots are occupied never displaces a
    player: whatever the device id and the time, the slots and their
    tokens, expiries and timers stay as they are, the joiner is added to
    the spectators and records a role of 2 or more. *)
Theorem full_room_join_spectates c ws mroom mdev now clock st room a b :
  sockets st !! c = Some ws →
  rooms st !! room_of mroom = Some room →
  slot room 0 = Some a →
  slot room 1 = Some b →
  let st' := on_message c (Join mroom mdev) now clock st in
  ∃ room',
    rooms st' !! room_of mroom = Some room' ∧
    slots room' = slots room ∧
    playerToken room' = playerToken room ∧
    playerLeaseExpiry room' = playerLeaseExpiry room ∧
    playerLeaseTimer room' = playerLeaseTimer room ∧
    c ∈ spectators room' ∧
    ∃ n, roleIdx (the_ws st' c) = Some n ∧ (2 ≤ n)%nat.
Proof.
  intros Hws Hroom Ha Hb st'.
  destruct (occupied_slot_tests room (device_of mdev) now 0 a Ha) as [Hr0 Hs0].
  destruct (occupied_slot_tests room (device_of mdev) now 1 b Hb) as [Hr1 Hs1].
  assert (Hre : first_slot (can_reclaim room (device_of mdev) now) = None).
  { unfold first_slot. simpl. by rewrite Hr0, Hr1. }
  assert (Hse : first_slot (can_seat room now) = None).
  { unfold first_slot. simpl. by rewrite Hs0, Hs1. }
  assert (Hjr : join_room c (device_of mdev) now room
                = enqueueSpectator c (Some (device_of mdev)) room).
  { unfold join_room. by rewrite Hre, Hse. }
  assert (Hst' : st' = on_join c mroom mdev now st).
  { subst st'. unfold on_message. by rewrite Hws. }
  pose proof (on_join_rooms c ws mroom mdev now st Hws) as Hrooms.
  cbv zeta in Hrooms. rewrite (getOrCreateRoom_existing _ _ _ _ Hroom) in Hrooms.
  destruct (on_join_sockets c ws mroom mdev now st Hws) as [Hsock _].
  cbv zeta in Hsock. rewrite (getOrCreateRoom_existing _ _ _ _ Hroom) in Hsock.
  simpl in Hrooms, Hsock. rewrite <- Hst' in Hrooms, Hsock. rewrite Hjr in Hrooms.
  destruct (enqueueSpectator_leases c (Some (device_of mdev)) room) as (Ht & He & Hl & _).
  assert (Hin : c ∈ spectators (enqueueSpectator c (Some (device_of mdev)) room)).
  { rewrite enqueueSpectator_spectators. apply set_add_elem. }
  eexists. split; [rewrite Hrooms; apply lookup_insert_eq|].
  split; [apply enqueueSpectator_slots|]. split; [done|]. split; [done|].
  split; [done|]. split; [done|].
  eexists. unfold the_ws. rewrite Hsock. simpl. split; [done|].
  unfold join_role, join_slot. rewrite Hre, Hse, Hjr.
  destruct (spectators (enqueueSpectator c (Some (device_of mdev)) room));
    [by apply elem_of_nil in Hin|simpl; lia].
Qed.

Lemma full_room_join_spectates_witness :
  let st' := on_message 2 (Join (Some "r1") (Some "d1")) 2 "" full_r1 in
  slot (the_room st' "r1") 0 = Some 0%nat ∧ spectators (the_room st' "r1") = [2%nat].
Proof.
  intros st'.
  destruct (full_room_join_spectates 2 (the_ws full_r1 2) (Some "r1"%string)
              (Some "d1"%string) 2 "" full_r1 (the_room full_r1 "r1") 0 1)
    as (room' & Hroom & Hslots & _); [vm_compute; reflexivity..|].
  change (room_of (Some "r1"%string)) with "r1"%string in Hroom.
  assert (Heq : room' = the_room st' "r1").
  { unfold the_room. fold st' in Hroom. by rewrite Hroom. }
  split.
  - rewrite <- Heq. unfold slot. rewrite Hslots. vm_compute. reflexivity.
  - vm_compute. reflexivity.
Defined.

(** ** Promotion *)

(** X17.  The socket a lease expiry promotes takes the slot over in full: the
    slot's token becomes its device id, the expiry is 0, the room records
    no lease timer for the slot, the socket records the slot as its role,
    and the other slot is as it was. *)
Theorem promotion_takes_over_slot rid r room st stale d rest s :
  rooms st !! rid = Some room →
  slot room r = None →
  specQueue room = stale ++ d :: rest →
  (∀ x, x ∈ stale → live_spectator st x (spectators room) = None) →
  live_spectator st d (spectators room) = Some s →
  let st' := onLeaseExpire rid r st in
  ∃ room',
    rooms st' !! rid = Some room' ∧
    slot room' r = Some s ∧
    token room' r = token_of (Some d) ∧
    playerLeaseExpiry room' !! r = Some 0 ∧
    leaseTimer room' r = None ∧
    roleIdx (the_ws st' s) = Some r ∧
    (∀ r', r' ≠ r → slot room' r' = slot room r' ∧ token room' r' = token room r').
Proof.
  intros Hroom Hslot Hq Hstale Hlive st'.
  destruct (live_spectator_Some _ _ _ _ Hlive) as (Hin & Hop & ws & Hws & Hdev).
  subst st'. unfold onLeaseExpire. rewrite Hroom, Hslot, Hq.
  rewrite (dequeue_first_live _ _ _ _ _ _ Hstale Hlive).
  set (room1 := set_specQueue (λ _, rest) (set_spectators _ room)).
  set (st1 := set_rooms <[rid := room1]> st).
  assert (Hr1 : rooms st1 !! rid = Some room1) by (simpl; apply lookup_insert_eq).
  assert (Hws1 : sockets st1 !! s = Some ws) by done.
  destruct (assignRole_spec rid r s st1 room1 ws Hr1 Hws1)
    as (Hrooms & Hsock & _).
  exists (assignRole_room r s (deviceId ws) room1).
  split; [rewrite send_state_rooms, send_rooms, Hrooms; apply lookup_insert_eq|].
  split; [apply assignRole_room_slot|].
  split; [by rewrite assignRole_room_token, Hdev|].
  split; [apply assignRole_room_expiry|].
  split; [apply assignRole_room_leaseTimer|].
  split.
  - unfold the_ws. rewrite send_state_sockets, send_sockets, Hsock.
    by rewrite lookup_alter_eq, Hws1.
  - intros r' Hne. split; [by rewrite assignRole_room_slot_ne|].
    unfold token.
    by destruct (assignRole_room_other r r' s (deviceId ws) room1) as (-> & _).
Qed.

Lemma promotion_takes_over_slot_witness :
  let st' := onLeaseExpire "r1" 0 stale_head_r1 in
  token (the_room st' "r1") 0 = Some "b"%string ∧
  roleIdx (the_ws st' 3) = Some 0%nat.
Proof.
  intros st'.
  destruct (promotion_takes_over_slot "r1" 0 (the_room stale_head_r1 "r1")
              stale_head_r1 ["a"%string] "b"%string ["c"%string] 3%nat)
    as (room' & Hroom & _ & Htok & _ & _ & Hrole & _).
  - vm_compute; reflexivity.
  - vm_compute; reflexivity.
  - vm_compute; reflexivity.
  - intros x Hx. apply list_elem_of_singleton in Hx as ->. vm_compute; reflexivity.
  - vm_compute; reflexivity.
  - split; [|exact Hrole].
    unfold the_room. fold st' in Hroom. rewrite Hroom. exact Htok.
Defined.

(** ** How an event changes the room table *)

Lemma dequeue_Some_split st specs queue s specs' queue' :
  dequeueNextLiveSpectator st specs queue = (Some s, specs', queue') →
  ∃ stale d, queue = stale ++ d :: queue' ∧
             live_spectator st d specs = Some s ∧ specs' = set_delete s specs.
Proof.
  induction queue as [|d queue IH]; simpl; [done|].
  destruct (live_spectator st d specs) as [s0|] eqn:Hd.
  - intros [= <- <- <-]. by exists [], d.
  - intros H. destruct (IH H) as (stale & d' & -> & Hl & Hs).
    by exists (d :: stale), d'.
Qed.

Lemma dequeue_None_queue st specs queue specs' queue' :
  dequeueNextLiveSpectator st specs queue = (None, specs', queue') → queue' = [].
Proof.
  induction queue as [|d queue IH]; simpl; [by intros [= _ <-]|].
  destruct (live_spectator st d specs); [done|exact IH].
Qed.

Lemma set_spectators_id room : set_spectators (λ _, spectators room) room = room.
Proof. by destruct room. Qed.

Lemma rooms_unchanged (m m' : gmap string Room) e rid (st : Server) :
  m' = m →
  match m !! rid, m' !! rid with
  | Some room, Some room' => room' = room ∨ room_change room room'
  | None, Some room' =>
      ∃ c mroom mdev now clock,
        e = Message c (Join mroom mdev) now clock ∧ rid = room_of mroom ∧
        room_change (fresh_room now) room'
  | Some room, None =>
      ∃ t tm c, e = Fire t ∧ timeouts st !! t = Some tm ∧ callback tm = Cleanup c
  | None, None => True
  end.
Proof. intros ->. destruct (m !! rid); auto. Qed.

(** What one event does to the room stored under an id: it leaves it, or
    rewrites it by one of the handlers' rewrites; only a [join] for that
    id creates it, and only a cleanup callback deletes it. *)
Lemma step_room_change env st e rid :
  match rooms st !! rid, rooms (step env st e) !! rid with
  | Some room, Some room' => room' = room ∨ room_change room room'
  | None, Some room' =>
      ∃ c mroom mdev now clock,
        e = Message c (Join mroom mdev) now clock ∧ rid = room_of mroom ∧
        room_change (fresh_room now) room'
  | Some room, None =>
      ∃ t tm c, e = Fire t ∧ timeouts st !! t = Some tm ∧ callback tm = Cleanup c
  | None, None => True
  end.
Proof.
  destruct e as [|c m now clock|c|c now|t]; simpl.
  - by apply rooms_unchanged.
  - unfold on_message. destruct (sockets st !! c) as [ws|] eqn:Hws;
      [|by apply rooms_unchanged].
    destruct m as [mroom mdev| |v|text time].
    + rewrite (on_join_rooms c ws mroom mdev now st Hws).
      destruct (decide (room_of mroom = rid)) as [<-|Hne].
      * rewrite lookup_insert_eq. unfold getOrCreateRoom.
        destruct (rooms st !! room_of mroom) as [room|]; simpl.
        -- right. constructor.
        -- exists c, mroom, mdev, now, clock. split; [done|]. split; [done|].
           constructor.
      * rewrite lookup_insert_ne by done. destruct (rooms st !! rid); auto.
    + unfold on_request_state. destruct (rooms st !! room_key _);
        [|by apply rooms_unchanged].
      apply rooms_unchanged, send_state_rooms.
    + unfold on_syncState.
      destruct (rooms st !! room_key (roomId ws)) as [room0|] eqn:Hr0;
        [|by apply rooms_unchanged].
      destruct (is_player ws); [|by apply rooms_unchanged].
      destruct v as [v|]; [|by apply rooms_unchanged].
      destruct (truthy v && typeof_object v) eqn:Hpay; [|by apply rooms_unchanged].
      rewrite broadcast_rooms. simpl.
      destruct (decide (room_key (roomId ws) = rid)) as [<-|Hne].
      * rewrite lookup_alter_eq, Hr0. simpl. right. by constructor.
      * rewrite lookup_alter_ne by done. destruct (rooms st !! rid); auto.
    + unfold on_chat. destruct (rooms st !! room_key _); [|by apply rooms_unchanged].
      apply rooms_unchanged, broadcast_rooms.
  - by apply rooms_unchanged.
  - destruct (sockets st !! c) as [ws|] eqn:Hws.
    2:{ apply rooms_unchanged. unfold on_close. simpl.
        by rewrite lookup_alter_eq, Hws. }
    destruct (rooms st !! room_key (roomId ws)) as [room|] eqn:Hroom.
    2:{ apply rooms_unchanged. unfold on_close. simpl.
        rewrite lookup_alter_eq, Hws. simpl. by rewrite Hroom. }
    destruct (on_close_result env c ws now st room Hws Hroom)
      as (room1 & st1 & _ & _ & _ & Hbranch & Htail).
    assert (Hch : ∀ h, set_cleanupTimer h room1 = room ∨
                       room_change room (set_cleanupTimer h room1)).
    { intros h.
      destruct Hbranch as [(_ & -> & _) | [(r & _ & _ & Hs & -> & _) | (r & _ & _ & _ & -> & _)]].
      - right. constructor.
      - right. by apply (rc_leave_slot r c).
      - right. constructor. }
    assert (Hrooms : ∃ h, rooms (on_close env c now st)
                          = <[room_key (roomId ws) := set_cleanupTimer h room1]> (rooms st)).
    { destruct Htail as [(_ & -> & _) | (_ & -> & _)].
      - exists (cleanupTimer room1). by rewrite set_cleanupTimer_id.
      - by eexists. }
    destruct Hrooms as [h ->].
    destruct (decide (room_key (roomId ws) = rid)) as [<-|Hne].
    + rewrite lookup_insert_eq, Hroom. apply Hch.
    + rewrite lookup_insert_ne by done. destruct (rooms st !! rid); auto.
  - unfold on_timeout. destruct (timeouts st !! t) as [tm|] eqn:Ht;
      [|by apply rooms_unchanged].
    set (st1 := set_timeouts (delete t) st).
    destruct (callback tm) as [rid0 r|c] eqn:Hcb.
    + unfold onLeaseExpire. change (rooms st1) with (rooms st).
      destruct (rooms st !! rid0) as [room|] eqn:Hroom; [|by apply rooms_unchanged].
      destruct (slot room r) eqn:Hslot; [by apply rooms_unchanged|].
      destruct (dequeueNextLiveSpectator st1 (spectators room) (specQueue room))
        as [[[s|] specs] queue] eqn:Hdq.
      * apply dequeue_Some_split in Hdq as (stale & d & Hq & Hlive & ->).
        destruct (live_spectator_Some _ _ _ _ Hlive) as (Hin & _ & ws & Hws & Hdev).
        set (room1 := set_specQueue (λ _, queue) (set_spectators _ room)).
        set (st2 := set_rooms <[rid0 := room1]> st1).
        assert (Hr2 : rooms st2 !! rid0 = Some room1) by (simpl; apply lookup_insert_eq).
        assert (Hws2 : sockets st2 !! s = Some ws) by done.
        destruct (assignRole_spec rid0 r s st2 room1 ws Hr2 Hws2) as (Hrooms & _).
        rewrite send_state_rooms, send_rooms, Hrooms. simpl.
        destruct (decide (rid0 = rid)) as [<-|Hne].
        -- rewrite lookup_insert_eq, Hroom. right. rewrite Hdev.
           by apply (rc_promote r s stale d queue).
        -- rewrite !lookup_insert_ne by done. destruct (rooms st !! rid); auto.
      * pose proof (dequeue_None_queue _ _ _ _ _ Hdq) as ->.
        apply dequeue_None_specs in Hdq as ->. simpl.
        destruct (decide (rid0 = rid)) as [<-|Hne].
        -- rewrite lookup_insert_eq, Hroom. right.
           rewrite set_spectators_id. by constructor.
        -- rewrite lookup_insert_ne by done. destruct (rooms st !! rid); auto.
    + unfold on_cleanup. destruct (sockets st1 !! c) as [ws|];
        [|by apply rooms_unchanged].
      simpl. destruct (decide (room_key (roomId ws) = rid)) as [<-|Hne].
      * rewrite lookup_delete_eq. destruct (rooms st !! _); [|done].
        by exists t, tm, c.
      * rewrite lookup_delete_ne by done. destruct (rooms st !! rid); auto.
Qed.

(** A property of rooms that a fresh room has and every rewrite keeps holds
    for every room of every reachable state. *)
Lemma run_room_invariant (P : Room → Prop) :
  (∀ now, P (fresh_room now)) →
  (∀ room room', room_change room room' → P room → P room') →
  ∀ env evs rid room, rooms (run env init evs) !! rid = Some room → P room.
Proof.
  intros Hfresh Hkeep env evs.
  assert (Hgen : ∀ st, (∀ rid room, rooms st !! rid = Some room → P room) →
                       ∀ rid room, rooms (run env st evs) !! rid = Some room → P room).
  { induction evs as [|e evs IH]; intros st Hst; [done|].
    apply IH. intros rid room' Hr'.
    pose proof (step_room_change env st e rid) as Hstep. rewrite Hr' in Hstep.
    destruct (rooms st !! rid) as [room|] eqn:Hr.
    - destruct Hstep as [-> | Hch]; [by apply (Hst rid)|].
      apply (Hkeep room); [done|]. by apply (Hst rid).
    - destruct Hstep as (c & mroom & mdev & now & clock & _ & _ & Hch).
      by apply (Hkeep (fresh_room now)). }
  apply Hgen. intros rid room Hr. simpl in Hr. by rewrite lookup_empty in Hr.
Qed.

(** X18.  A room appears in the table only by a [join] frame naming it, and
    disappears only when a cleanup callback fires: no other event creates
    or deletes a room. *)
Theorem rooms_appear_by_join_vanish_by_cleanup env st e rid :
  (rooms st !! rid = None → is_Some (rooms (step env st e) !! rid) →
   ∃ c mroom mdev now clock,
     e = Message c (Join mroom mdev) now clock ∧ rid = room_of mroom) ∧
  (is_Some (rooms st !! rid) → rooms (step env st e) !! rid = None →
   ∃ t tm c, e = Fire t ∧ timeouts st !! t = Some tm ∧ callback tm = Cleanup c).
Proof.
  pose proof (step_room_change env st e rid) as Hstep. split.
  - intros Hnone [room' Hr']. rewrite Hnone, Hr' in Hstep.
    destruct Hstep as (c & mroom & mdev & now & clock & He & Hrid & _).
    by exists c, mroom, mdev, now, clock.
  - intros [room Hr] Hnone. by rewrite Hr, Hnone in Hstep.
Qed.

Lemma rooms_appear_by_join_vanish_by_cleanup_witness :
  ∃ t tm c, Fire 1 = Fire t ∧ timeouts rejoined_r1 !! t = Some tm ∧ callback tm = Cleanup c.
Proof.
  destruct (rooms_appear_by_join_vanish_by_cleanup None rejoined_r1 (Fire 1) "r1")
    as [_ H].
  apply H; vm_compute; [eexists|]; reflexivity.
Defined.

(** A room that is not in the table stays out of it as long as no [join]
    names its id. *)
Lemma run_room_absent env evs st rid :
  rooms st !! rid = None →
  (∀ c mroom mdev now clock,
      Message c (Join mroom mdev) now clock ∈ evs → room_of mroom ≠ rid) →
  rooms (run env st evs) !! rid = None.
Proof.
  revert st. induction evs as [|e evs IH]; intros st Hnone Hjoin; [done|].
  change (run env st (e :: evs)) with (run env (step env st e) evs).
  apply IH.
  - pose proof (step_room_change env st e rid) as Hstep. rewrite Hnone in Hstep.
    destruct (rooms (step env st e) !! rid) as [room'|]; [|done].
    destruct Hstep as (c & mroom & mdev & now & clock & -> & -> & _).
    destruct (Hjoin c mroom mdev now clock); [by left|done].
  - intros c mroom mdev now clock Hin. apply (Hjoin c mroom mdev now clock). by right.
Qed.

(** X10.  Once the cleanup callback has deleted a room, the room stays out of
    the table through every run of events in which no [join], of any
    socket, names its id; and as long as it is out of the table every
    socket that records the room is ignored: its [request_state],
    [syncState] and [chat] frames change nothing, whatever its role. *)
Theorem after_cleanup_sockets_are_ignored env c0 ws0 evs st :
  sockets st !! c0 = Some ws0 →
  let rid := room_key (roomId ws0) in
  (∀ c mroom mdev now clock,
      Message c (Join mroom mdev) now clock ∈ evs → room_of mroom ≠ rid) →
  let st1 := run env (on_cleanup c0 st) evs in
  rooms st1 !! rid = None ∧
  ∀ c ws m now clock,
    sockets st1 !! c = Some ws →
    room_key (roomId ws) = rid →
    (∀ mroom mdev, m ≠ Join mroom mdev) →
    on_message c m now clock st1 = st1.
Proof.
  intros Hws0 rid Hjoin st1.
  assert (Hnone : rooms st1 !! rid = None).
  { subst st1. apply run_room_absent; [|done].
    unfold on_cleanup. rewrite Hws0. simpl. apply lookup_delete_eq. }
  split; [done|]. intros c ws m now clock Hws Hrid Hm.
  apply (no_room_no_effect c ws m now clock st1 Hws); [|done].
  by rewrite Hrid.
Qed.

Lemma after_cleanup_sockets_are_ignored_witness :
  let st1 := run None (on_cleanup 0 rejoined_r1)
               [Connection; join_as 2 "r2" "c" 950000] in
  rooms st1 !! "r1"%string = None ∧
  on_message 1 (SyncState (Some (JObj []))) 950001 "" st1 = st1.
Proof.
  intros st1.
  destruct (after_cleanup_sockets_are_ignored None 0 (the_ws rejoined_r1 0)
              [Connection; join_as 2 "r2" "c" 950000] rejoined_r1) as [Hnone H].
  - vm_compute; reflexivity.
  - intros c mroom mdev now clock Hin.
    change (room_key (roomId (the_ws rejoined_r1 0))) with "r1"%string.
    apply list_elem_of_In in Hin. destruct Hin as [Heq|[Heq|[]]]; [discriminate|].
    unfold join_as in Heq. injection Heq as _ <- _ _ _. discriminate.
  - split; [exact Hnone|].
    apply (H 1%nat (the_ws st1 1)); [vm_compute; reflexivity..|discriminate].
Defined.

(** ** What every room of a reachable state satisfies *)

Lemma token_of_not_empty dev : token_of dev ≠ Some ""%string.
Proof.
  unfold token_of. destruct dev as [d|]; [|done].
  case_bool_decide; [done|]. congruence.
Qed.

Lemma ids_ok_assignRole_room r c dev room :
  ids_ok room → ids_ok (assignRole_room r c dev room).
Proof.
  intros (Hnd & Hne & Htok). unfold ids_ok. rewrite assignRole_room_specQueue.
  split; [done|]. split; [done|]. intros r'.
  destruct (decide (r = r')) as [<-|Hr].
  - rewrite assignRole_room_token. apply token_of_not_empty.
  - unfold token. destruct (assignRole_room_other r r' c dev room Hr) as (-> & _).
    apply Htok.
Qed.

Lemma ids_ok_change room room' : room_change room room' → ids_ok room → ids_ok room'.
Proof.
  intros Hch (Hnd & Hne & Htok). destruct Hch.
  - unfold join_room.
    destruct (first_slot (can_reclaim room dev now));
      [by apply ids_ok_assignRole_room|].
    destruct (first_slot (can_seat room now));
      [by apply ids_ok_assignRole_room|].
    unfold ids_ok, token. rewrite enqueueSpectator_specQueue.
    destruct (enqueueSpectator_leases c (Some dev) room) as (-> & _).
    split; [|split; [|done]].
    + case_bool_decide as Hd; [|done]. destruct Hd as [_ Hd].
      apply NoDup_app. split; [done|]. split; [|apply NoDup_singleton].
      intros x Hx Hx'. apply list_elem_of_singleton in Hx'. by subst.
    + case_bool_decide as Hd; [|done]. destruct Hd as [Hd _].
      rewrite elem_of_app. intros [?|Hx]; [done|].
      apply list_elem_of_singleton in Hx. done.
  - done.
  - done.
  - done.
  - done.
  - apply ids_ok_assignRole_room. unfold ids_ok, token. simpl.
    rewrite H0 in Hnd, Hne. apply NoDup_app in Hnd as (_ & _ & Hnd).
    apply NoDup_cons in Hnd as [_ Hnd].
    split; [done|]. split; [|done].
    intros Hin. apply Hne. apply elem_of_app. right. by right.
  - unfold ids_ok, token. simpl. split; [apply NoDup_nil_2|].
    split; [apply not_elem_of_nil|]. intros r'.
    destruct (decide (r = r')) as [<-|Hr].
    + by rewrite lookup_insert_eq.
    + rewrite lookup_insert_ne by done. apply Htok.
Qed.

Lemma ids_ok_fresh now : ids_ok (fresh_room now).
Proof.
  split; [apply NoDup_nil_2|]. split; [apply not_elem_of_nil|].
  intros r. unfold token. simpl. destruct r as [|[|r]].
  - by rewrite lookup_insert_eq.
  - rewrite lookup_insert_ne by done. by rewrite lookup_singleton_eq.
  - rewrite lookup_insert_ne by done. by rewrite lookup_singleton_ne.
Qed.

(** X19.  In every state the server reaches, the spectator queue of every room
    holds each device id at most once and never the empty id, and no slot's
    token is the empty string. *)
Theorem queue_ids_unique env evs rid room :
  rooms (run env init evs) !! rid = Some room →
  NoDup (specQueue room) ∧ (""%string ∉ specQueue room) ∧
  ∀ r, token room r ≠ Some ""%string.
Proof. apply (run_room_invariant ids_ok ids_ok_fresh ids_ok_change). Qed.

Lemma queue_ids_unique_witness : NoDup (specQueue (the_room stale_head_r1 "r1")).
Proof.
  apply (queue_ids_unique None
           [Connection; Connection; Connection; Connection; Connection;
            join_as 0 "r1" "d1" 0; join_as 1 "r1" "d2" 1;
            join_as 2 "r1" "a" 2; join_as 3 "r1" "b" 3; join_as 4 "r1" "c" 4;
            Close 2 5; Close 0 10] "r1").
  vm_compute. reflexivity.
Defined.

Lemma occupied_unleased_assignRole_room r c dev room :
  occupied_unleased room → occupied_unleased (assignRole_room r c dev room).
Proof.
  intros H r' c'. destruct (decide (r = r')) as [<-|Hr].
  - intros _. by rewrite assignRole_room_expiry, assignRole_room_leaseTimer.
  - rewrite assignRole_room_slot_ne by done. unfold leaseTimer.
    destruct (assignRole_room_other r r' c dev room Hr) as (_ & -> & ->). apply H.
Qed.

Lemma occupied_unleased_change room room' :
  room_change room room' → occupied_unleased room → occupied_unleased room'.
Proof.
  intros Hch H. destruct Hch.
  - unfold join_room.
    destruct (first_slot (can_reclaim room dev now));
      [by apply occupied_unleased_assignRole_room|].
    destruct (first_slot (can_seat room now));
      [by apply occupied_unleased_assignRole_room|].
    intros r c'. unfold slot, leaseTimer. rewrite enqueueSpectator_slots.
    destruct (enqueueSpectator_leases c (Some dev) room) as (_ & -> & -> & _).
    apply H.
  - exact H.
  - intros r' c'. unfold slot, leaseTimer. simpl.
    destruct (decide (r = r')) as [<-|Hr].
    + by rewrite lookup_insert_eq.
    + rewrite !lookup_insert_ne by done. apply H.
  - exact H.
  - exact H.
  - apply occupied_unleased_assignRole_room. exact H.
  - intros r' c'. unfold slot, leaseTimer. simpl.
    destruct (decide (r = r')) as [<-|Hr].
    + unfold slot in H0. by rewrite H0.
    + rewrite !lookup_insert_ne by done. apply H.
Qed.

Lemma occupied_unleased_fresh now : occupied_unleased (fresh_room now).
Proof. intros r c H. by apply (holds_fresh_room now (InSlot r) c) in H. Qed.

(** X20.  In every state the server reaches, an occupied slot has expiry 0 and
    no lease timer on record: a lease is only ever recorded for an empty
    slot. *)
Theorem occupied_slot_has_no_lease env evs rid room r c :
  rooms (run env init evs) !! rid = Some room →
  slot room r = Some c →
  playerLeaseExpiry room !! r = Some 0 ∧ leaseTimer room r = None.
Proof.
  intros Hroom.
  apply (run_room_invariant occupied_unleased occupied_unleased_fresh
           occupied_unleased_change env evs rid room Hroom).
Qed.

Lemma occupied_slot_has_no_lease_witness :
  playerLeaseExpiry (the_room three_in_r1 "r1") !! 1%nat = Some 0.
Proof.
  destruct (occupied_slot_has_no_lease None
              [Connection; Connection; Connection;
               join_as 0 "r1" "d1" 0; join_as 1 "r1" "d2" 1; join_as 2 "r1" "d3" 2]
              "r1" (the_room three_in_r1 "r1") 1 1) as [H _];
    [vm_compute; reflexivity..|].
  exact H.
Defined.

Lemma snapshot_ok_change room room' :
  room_change room room' → snapshot_ok room → snapshot_ok room'.
Proof.
  intros Hch H. destruct Hch; try exact H.
  - unfold snapshot_ok, join_room.
    destruct (first_slot (can_reclaim room dev now));
      [by rewrite assignRole_room_state|].
    destruct (first_slot (can_seat room now));
      [by rewrite assignRole_room_state|].
    by rewrite enqueueSpectator_state.
  - done.
  - unfold snapshot_ok. by rewrite assignRole_room_state.
Qed.

(** ** The heartbeat *)

Lemma sockets_kept_refl st : sockets_kept st st.
Proof. split; [done|]. intros c w H _. exists w. done. Qed.

Lemma sockets_kept_trans st1 st2 st3 :
  sockets_kept st1 st2 → sockets_kept st2 st3 → sockets_kept st1 st3.
Proof.
  intros [Hn1 H1] [Hn2 H2]. split; [lia|]. intros c w Hw Hc.
  destruct (H1 c w Hw Hc) as (w' & Hw' & Ha & Ho).
  destruct (H2 c w' Hw') as (w'' & Hw'' & Ha' & Ho'); [lia|].
  exists w''. split; [done|]. split; [congruence|auto].
Qed.

Lemma sockets_kept_same st st' :
  sockets st' = sockets st → next_socket st' = next_socket st → sockets_kept st st'.
Proof.
  intros Hs Hn. split; [lia|]. intros c w Hw _. exists w. by rewrite Hs.
Qed.

Lemma sockets_kept_update_ws c f st :
  (∀ w, isAlive (f w) = isAlive w ∧ (readyState (f w) = OPEN → readyState w = OPEN)) →
  sockets_kept st (update_ws c f st).
Proof.
  intros Hf. split; [done|]. intros c' w Hw _. simpl.
  destruct (decide (c = c')) as [<-|Hne].
  - exists (f w). rewrite lookup_alter_eq, Hw. split; [done|]. apply Hf.
  - exists w. by rewrite lookup_alter_ne.
Qed.

Lemma send_next_socket c m st : next_socket (send c m st) = next_socket st.
Proof. unfold send. by destruct (is_open st c). Qed.

Lemma send_state_next_socket room c st :
  next_socket (send_state room c st) = next_socket st.
Proof.
  unfold send_state. destruct (state room) as [v|]; [|done].
  destruct (truthy v); [apply send_next_socket|done].
Qed.

Lemma sockets_kept_send_state room c m st st' :
  sockets_kept st st' → sockets_kept st (send_state room c (send c m st')).
Proof.
  intros H. eapply sockets_kept_trans; [exact H|].
  apply sockets_kept_same.
  - by rewrite send_state_sockets, send_sockets.
  - by rewrite send_state_next_socket, send_next_socket.
Qed.

Lemma sockets_kept_assignRole rid r c st : sockets_kept st (assignRole rid r c st).
Proof.
  unfold assignRole. destruct (rooms st !! rid); [|apply sockets_kept_refl].
  destruct (sockets st !! c); [|apply sockets_kept_refl].
  eapply sockets_kept_trans;
    [|apply sockets_kept_same; [apply clear_if_set_sockets|by destruct (leaseTimer _ _)]].
  eapply sockets_kept_trans; [|by apply sockets_kept_update_ws].
  by apply sockets_kept_same.
Qed.

Lemma sockets_kept_on_join c mroom mdev now st :
  sockets_kept st (on_join c mroom mdev now st).
Proof.
  unfold on_join.
  assert (Hg : sockets_kept st (getOrCreateRoom (room_of mroom) now st).2).
  { unfold getOrCreateRoom. destruct (rooms st !! room_of mroom);
      by apply sockets_kept_same. }
  destruct (getOrCreateRoom (room_of mroom) now st) as [room st1]. simpl in Hg.
  set (st2 := update_ws c _ st1).
  assert (H2 : sockets_kept st st2).
  { apply (sockets_kept_trans st st1 st2 Hg). subst st2.
    by apply sockets_kept_update_ws. }
  clearbody st2.
  assert (Hseat : ∀ r, sockets_kept st (seat (room_of mroom) r c room st2)).
  { intros r. unfold seat. apply sockets_kept_send_state.
    apply (sockets_kept_trans st st2 _ H2), sockets_kept_assignRole. }
  destruct (first_slot (can_reclaim room (device_of mdev) now)); [apply Hseat|].
  destruct (first_slot (can_seat room now)); [apply Hseat|].
  apply sockets_kept_send_state.
  apply (sockets_kept_trans st st2 _ H2).
  apply (sockets_kept_trans st2 (set_rooms <[room_of mroom :=
           enqueueSpectator c (Some (device_of mdev)) room]> st2)).
  - by apply sockets_kept_same.
  - by apply sockets_kept_update_ws.
Qed.

Lemma clear_if_set_next_socket h st : next_socket (clear_if_set h st) = next_socket st.
Proof. by destruct h. Qed.

Lemma startLeaseTimer_next_socket env rid r now st :
  next_socket (startLeaseTimer env rid r now st) = next_socket st.
Proof.
  unfold startLeaseTimer. destruct (rooms st !! rid); [|done]. simpl.
  apply clear_if_set_next_socket.
Qed.

Lemma schedule_cleanup_next_socket c rid now st :
  next_socket (schedule_cleanup c rid now st) = next_socket st.
Proof.
  unfold schedule_cleanup. destruct (rooms st !! rid); [|done].
  case_bool_decide; [|done]. simpl. apply clear_if_set_next_socket.
Qed.

Lemma on_close_next_socket env c now st :
  next_socket (on_close env c now st) = next_socket st.
Proof.
  unfold on_close. destruct (sockets _ !! c) as [ws|]; [|done].
  destruct (rooms _ !! room_key (roomId ws)) as [room|]; [|done].
  rewrite schedule_cleanup_next_socket.
  destruct (is_player ws); [|done]. destruct (roleIdx ws) as [r|]; [|done].
  case_bool_decide; [|done]. by rewrite startLeaseTimer_next_socket.
Qed.

Lemma sockets_kept_on_close env c now st : sockets_kept st (on_close env c now st).
Proof.
  assert (H0 : sockets_kept st (update_ws c (set_readyState CLOSED) st)).
  { apply sockets_kept_update_ws. intros w. split; [done|]. simpl. done. }
  destruct (sockets st !! c) as [ws|] eqn:Hws.
  2:{ unfold on_close. simpl. by rewrite lookup_alter_eq, Hws. }
  destruct (rooms st !! room_key (roomId ws)) as [room|] eqn:Hroom.
  2:{ unfold on_close. simpl. rewrite lookup_alter_eq, Hws. simpl. by rewrite Hroom. }
  destruct (on_close_result env c ws now st room Hws Hroom)
    as (_ & _ & _ & _ & Hs & _).
  eapply sockets_kept_trans; [exact H0|]. apply sockets_kept_same; [done|].
  exact (on_close_next_socket env c now st).
Qed.

Lemma sockets_kept_on_timeout t st : sockets_kept st (on_timeout t st).
Proof.
  unfold on_timeout. destruct (timeouts st !! t) as [tm|]; [|apply sockets_kept_refl].
  set (st1 := set_timeouts (delete t) st).
  assert (H1 : sockets_kept st st1) by (by apply sockets_kept_same).
  clearbody st1. eapply sockets_kept_trans; [exact H1|].
  destruct (callback tm) as [rid r|c].
  - unfold onLeaseExpire. destruct (rooms st1 !! rid) as [room|]; [|apply sockets_kept_refl].
    destruct (slot room r); [apply sockets_kept_refl|].
    destruct (dequeueNextLiveSpectator st1 (spectators room) (specQueue room))
      as [[[s|] specs] queue]; [|by apply sockets_kept_same].
    apply sockets_kept_send_state.
    eapply sockets_kept_trans; [|apply sockets_kept_assignRole].
    by apply sockets_kept_same.
  - unfold on_cleanup. destruct (sockets st1 !! c); [|apply sockets_kept_refl].
    by apply sockets_kept_same.
Qed.

Lemma sockets_kept_step env st e : sockets_kept st (step env st e).
Proof.
  destruct e as [|c m now clock|c|c now|t]; simpl.
  - split; [simpl; lia|]. intros c w Hw Hc. exists w. simpl.
    rewrite lookup_insert_ne by lia. done.
  - unfold on_message. destruct (sockets st !! c) as [ws|]; [|apply sockets_kept_refl].
    destruct m as [mroom mdev| |v|text time].
    + apply sockets_kept_on_join.
    + unfold on_request_state. destruct (rooms st !! _); [|apply sockets_kept_refl].
      apply sockets_kept_same; [apply send_state_sockets|apply send_state_next_socket].
    + unfold on_syncState, broadcast.
      apply sockets_kept_same; repeat (case_match; simpl; try done).
    + unfold on_chat, broadcast.
      apply sockets_kept_same; repeat (case_match; simpl; try done).
  - apply sockets_kept_update_ws. intros w. split; [done|]. simpl. done.
  - apply sockets_kept_on_close.
  - apply sockets_kept_on_timeout.
Qed.

Lemma sockets_kept_run env evs st : sockets_kept st (run env st evs).
Proof.
  revert st. induction evs as [|e evs IH]; intros st; [apply sockets_kept_refl|].
  eapply sockets_kept_trans; [apply sockets_kept_step|apply IH].
Qed.

Lemma heartbeat_client_not_reopened w :
  readyState (heartbeat_client w) = OPEN → readyState w = OPEN.
Proof.
  unfold heartbeat_client, terminate, is_client.
  repeat (case_match; simpl; try done).
Qed.

Lemma heartbeat_client_unanswered w :
  isAlive w = false → readyState (heartbeat_client w) ≠ OPEN.
Proof.
  intros Ha. unfold heartbeat_client, terminate, is_client. rewrite Ha.
  destruct (bool_decide_reflect (readyState w = CLOSED)) as [Hc|Hc]; simpl;
    [congruence|done].
Qed.

(** X22.  Traffic does not count as an answer to a ping.  A socket that exists at
    one tick of the heartbeat is not open after the next tick unless a pong
    arrived in between, whatever frames it or anybody else sent, whatever
    sockets closed and whatever timers fired meanwhile. *)
Theorem unanswered_ping_terminates env st evs c w :
  sockets st !! c = Some w →
  (c < next_socket st)%nat →
  is_open (on_heartbeat (run env (on_heartbeat st) evs)) c = false.
Proof.
  intros Hw Hc.
  set (st1 := on_heartbeat st).
  assert (Hw1 : sockets st1 !! c = Some (heartbeat_client w)).
  { subst st1. simpl. by rewrite lookup_fmap, Hw. }
  destruct (sockets_kept_run env evs st1) as [_ Hk].
  destruct (Hk c _ Hw1 Hc) as (w2 & Hw2 & Ha & Ho).
  unfold is_open, on_heartbeat. simpl. rewrite lookup_fmap, Hw2. simpl.
  apply bool_decide_eq_false_2. intros Hopen.
  pose proof (heartbeat_client_not_reopened _ Hopen) as Hopen2.
  pose proof (heartbeat_client_not_reopened _ (Ho Hopen2)) as Hopen0.
  assert (Hdead : isAlive w2 = false).
  { rewrite Ha. unfold heartbeat_client, is_client, terminate.
    rewrite Hopen0. simpl. destruct (isAlive w) eqn:E; [done|exact E]. }
  by apply (heartbeat_client_unanswered w2 Hdead).
Qed.

Lemma unanswered_ping_terminates_witness :
  is_open (on_heartbeat
             (run None (on_heartbeat three_in_r1)
                [Message 0 (SyncState (Some (JObj []))) 7 ""])) 0 = false.
Proof.
  apply (unanswered_ping_terminates None three_in_r1
           [Message 0 (SyncState (Some (JObj []))) 7 ""] 0 (the_ws three_in_r1 0));
    vm_compute; [reflexivity|lia].
Defined.

(** X23.  A pong keeps a socket through the next tick: after [on_pong] the tick
    leaves the socket's [readyState] as it is.  A tick and a pong change
    no room, timer or frame: a socket the heartbeat terminates stays in
    its slot or among the spectators until its close event is handled. *)
Theorem pong_survives_heartbeat c st :
  is_open (on_heartbeat (on_pong c st)) c = is_open st c ∧
  rooms (on_heartbeat st) = rooms st ∧
  timeouts (on_heartbeat st) = timeouts st ∧
  wire (on_heartbeat st) = wire st ∧
  rooms (on_pong c st) = rooms st.
Proof.
  split; [|done]. unfold is_open, on_heartbeat, on_pong. simpl.
  rewrite lookup_fmap, lookup_alter_eq. destruct (sockets st !! c) as [w|]; [|done].
  simpl. unfold heartbeat_client, is_client. simpl.
  by destruct (bool_decide (readyState w = CLOSED)).
Qed.

(** ** When somebody is seated *)

(** X24.  Only a [join] and the lease callback seat anybody.  After any other
    event (a close in particular: no spectator is promoted when a player
    leaves, only when the lease runs out) whoever sits at a place of a room
    sat there before. *)
Theorem only_join_and_lease_expiry_seat env st e rid p c :
  (∀ c' mroom mdev now clock, e ≠ Message c' (Join mroom mdev) now clock) →
  (∀ t tm rid' r, e = Fire t → timeouts st !! t = Some tm →
                  callback tm ≠ LeaseExpire rid' r) →
  occupies (step env st e) rid p c →
  occupies st rid p c.
Proof.
  intros Hjoin Hlease (room' & Hr' & Hh).
  assert (Hsub : no_new_seat st (step env st e)).
  { destruct e as [|c' m now clock|c'|c' now|t]; simpl.
    - by apply no_new_seat_rooms.
    - apply on_message_other_no_new_seat. intros mroom mdev ->.
      by apply (Hjoin c' mroom mdev now clock).
    - by apply no_new_seat_rooms.
    - apply on_close_no_new_seat.
    - unfold on_timeout. destruct (timeouts st !! t) as [tm|] eqn:Ht;
        [|apply no_new_seat_refl].
      destruct (callback tm) as [rid' r|c0] eqn:Hcb.
      + by destruct (Hlease t tm rid' r eq_refl Ht).
      + unfold on_cleanup. destruct (sockets _ !! c0);
          [|by apply no_new_seat_rooms].
        eapply no_new_seat_trans; [|apply no_new_seat_delete].
        by apply no_new_seat_rooms. }
  destruct (Hsub rid room' Hr') as (room & Hr & Himp). exists room. auto.
Qed.

Lemma only_join_and_lease_expiry_seat_witness :
  occupies three_in_r1 "r1" InSpectators 2.
Proof.
  apply (only_join_and_lease_expiry_seat None three_in_r1 (Close 0 10)); try done.
  exists (the_room (step None three_in_r1 (Close 0 10)) "r1").
  split; [vm_compute; reflexivity|]. vm_compute. apply list_elem_of_In. simpl. tauto.
Defined.

(** ** What a seated socket records *)

Lemma ids_kept_same st st' :
  sockets st' = sockets st → next_socket st' = next_socket st → ids_kept st st'.
Proof. intros Hs Hn. split; [done|]. intros c. rewrite Hs. by destruct (sockets st !! c). Qed.

Lemma ids_kept_alter c f st st' :
  sockets st' = alter f c (sockets st) → next_socket st' = next_socket st →
  (∀ w, roomId (f w) = roomId w ∧ roleIdx (f w) = roleIdx w ∧ deviceId (f w) = deviceId w) →
  ids_kept st st'.
Proof.
  intros Hs Hn Hf. split; [done|]. intros c'. rewrite Hs.
  destruct (decide (c = c')) as [<-|Hne].
  - rewrite lookup_alter_eq. destruct (sockets st !! c); simpl; [apply Hf|done].
  - rewrite lookup_alter_ne by done. by destruct (sockets st !! c').
Qed.

Lemma seats_shrink_same st st' : rooms st' = rooms st → seats_shrink st st'.
Proof. intros Hr rid room' H. rewrite Hr in H. exists room'. auto. Qed.

Lemma seats_shrink_insert rid room room' st st' :
  rooms st' = <[rid := room']> (rooms st) →
  rooms st !! rid = Some room →
  (∀ p c, holds room' p c → holds room p c) →
  (∀ r c, slot room' r = Some c → token room' r = token room r) →
  seats_shrink st st'.
Proof.
  intros Heq Hr Hh Ht rid' room'' H. rewrite Heq in H.
  destruct (decide (rid = rid')) as [<-|Hne].
  - rewrite lookup_insert_eq in H. simplify_eq. exists room. auto.
  - rewrite lookup_insert_ne in H by done. exists room''. auto.
Qed.

Lemma places_recorded_frame st st' :
  seats_shrink st st' → ids_kept st st' → places_recorded st → places_recorded st'.
Proof.
  intros Hsh [_ Hids] Hrec rid room' p c Hr' Hh.
  destruct (Hsh rid room' Hr') as (room & Hr & Hhold & Htok).
  destruct (Hrec rid room p c Hr (Hhold p c Hh)) as (ws & Hws & Hrid & Hp).
  specialize (Hids c). rewrite Hws in Hids.
  destruct (sockets st' !! c) as [ws'|] eqn:Hws'; [|done].
  destruct Hids as (Hi1 & Hi2 & Hi3).
  exists ws'. split; [done|]. split; [congruence|].
  destruct p as [r|].
  - destruct Hp as [Hrole Ht]. split; [congruence|].
    rewrite (Htok r c Hh), Hi3. done.
  - destruct Hp as (n & Hn & Hle). exists n. split; [congruence|done].
Qed.

Lemma sockets_numbered_frame st st' :
  ids_kept st st' → sockets_numbered st → sockets_numbered st'.
Proof.
  intros [Hn Hids] Hs c [ws' Hc]. rewrite Hn. apply Hs.
  specialize (Hids c). rewrite Hc in Hids.
  by destruct (sockets st !! c).
Qed.

(** The three outcomes of the lease callback. *)
Lemma onLeaseExpire_result rid r st :
  let st' := onLeaseExpire rid r st in
  st' = st ∨
  (∃ room,
      rooms st !! rid = Some room ∧ slot room r = None ∧
      rooms st'
      = <[rid := set_playerLeaseTimer <[r := None]>
                   (set_playerLeaseExpiry <[r := 0]>
                      (set_playerToken <[r := None]>
                         (set_specQueue (λ _, []) room)))]> (rooms st) ∧
      sockets st' = sockets st ∧ next_socket st' = next_socket st) ∨
  (∃ room s ws stale d rest,
      rooms st !! rid = Some room ∧ slot room r = None ∧
      specQueue room = stale ++ d :: rest ∧ s ∈ spectators room ∧
      sockets st !! s = Some ws ∧ deviceId ws = Some d ∧
      rooms st'
      = <[rid := assignRole_room r s (Some d)
                   (set_specQueue (λ _, rest)
                      (set_spectators (λ _, set_delete s (spectators room)) room))]>
          (rooms st) ∧
      sockets st' = alter (set_roleIdx (Some r)) s (sockets st) ∧
      next_socket st' = next_socket st).
Proof.
  intros st'. subst st'. unfold onLeaseExpire.
  destruct (rooms st !! rid) as [room|] eqn:Hroom; [|by left].
  destruct (slot room r) eqn:Hslot; [by left|].
  destruct (dequeueNextLiveSpectator st (spectators room) (specQueue room))
    as [[[s|] specs] queue] eqn:Hdq.
  - right. right.
    apply dequeue_Some_split in Hdq as (stale & d & Hq & Hlive & ->).
    destruct (live_spectator_Some _ _ _ _ Hlive) as (Hin & _ & ws & Hws & Hdev).
    set (room1 := set_specQueue (λ _, queue) (set_spectators _ room)).
    set (st2 := set_rooms <[rid := room1]> st).
    assert (Hr2 : rooms st2 !! rid = Some room1) by (simpl; apply lookup_insert_eq).
    assert (Hws2 : sockets st2 !! s = Some ws) by done.
    destruct (assignRole_spec rid r s st2 room1 ws Hr2 Hws2) as (Hrooms & Hsock & _).
    exists room, s, ws, stale, d, queue.
    split; [done|]. split; [done|]. split; [done|]. split; [done|]. split; [done|].
    split; [done|].
    rewrite send_state_rooms, send_rooms, send_state_sockets, send_sockets,
      send_state_next_socket, send_next_socket, Hrooms, Hsock, Hdev.
    split; [simpl; apply insert_insert_eq|]. split; [done|].
    unfold assignRole. rewrite Hr2, Hws2. by rewrite clear_if_set_next_socket.
  - right. left. exists room.
    pose proof (dequeue_None_queue _ _ _ _ _ Hdq) as ->.
    apply dequeue_None_specs in Hdq as ->.
    rewrite set_spectators_id. done.
Qed.

Lemma on_message_other_sockets c m now clock st :
  (∀ mroom mdev, m ≠ Join mroom mdev) →
  sockets (on_message c m now clock st) = sockets st ∧
  next_socket (on_message c m now clock st) = next_socket st.
Proof.
  intros Hm. unfold on_message. destruct (sockets st !! c) as [ws|]; [|done].
  destruct m as [mroom mdev| |v|text time].
  - by destruct (Hm mroom mdev).
  - unfold on_request_state. destruct (rooms st !! _); [|done].
    by rewrite send_state_sockets, send_state_next_socket.
  - unfold on_syncState, broadcast. repeat (case_match; simpl; try done).
  - unfold on_chat, broadcast. repeat (case_match; simpl; try done).
Qed.

Lemma on_message_other_seats_shrink c m now clock st :
  (∀ mroom mdev, m ≠ Join mroom mdev) →
  seats_shrink st (on_message c m now clock st).
Proof.
  intros Hm. unfold on_message. destruct (sockets st !! c) as [ws|];
    [|by apply seats_shrink_same].
  destruct m as [mroom mdev| |v|text time].
  - by destruct (Hm mroom mdev).
  - unfold on_request_state. destruct (rooms st !! _); [|by apply seats_shrink_same].
    apply seats_shrink_same, send_state_rooms.
  - unfold on_syncState.
    destruct (rooms st !! room_key (roomId ws)) as [room|] eqn:Hr;
      [|by apply seats_shrink_same].
    destruct (is_player ws); [|by apply seats_shrink_same].
    destruct v as [v|]; [|by apply seats_shrink_same].
    destruct (truthy v && typeof_object v); [|by apply seats_shrink_same].
    eapply (seats_shrink_insert (room_key (roomId ws)) room); [|exact Hr| |].
    + rewrite broadcast_rooms. simpl. apply map_eq. intros rid'.
      destruct (decide (room_key (roomId ws) = rid')) as [<-|Hne].
      * by rewrite lookup_alter_eq, lookup_insert_eq, Hr.
      * by rewrite lookup_alter_ne, lookup_insert_ne.
    + by intros [?|] ?.
    + done.
  - unfold on_chat. destruct (rooms st !! _); [|by apply seats_shrink_same].
    apply seats_shrink_same, broadcast_rooms.
Qed.

Lemma on_close_frame env c now st :
  seats_shrink st (on_close env c now st) ∧ ids_kept st (on_close env c now st).
Proof.
  destruct (sockets st !! c) as [ws|] eqn:Hws.
  2:{ assert (Heq : on_close env c now st = update_ws c (set_readyState CLOSED) st).
      { unfold on_close. simpl. by rewrite lookup_alter_eq, Hws. }
      rewrite Heq. split; [by apply seats_shrink_same|].
      by apply (ids_kept_alter c (set_readyState CLOSED)). }
  destruct (rooms st !! room_key (roomId ws)) as [room|] eqn:Hroom.
  2:{ assert (Heq : on_close env c now st = update_ws c (set_readyState CLOSED) st).
      { unfold on_close. simpl. rewrite lookup_alter_eq, Hws. simpl. by rewrite Hroom. }
      rewrite Heq. split; [by apply seats_shrink_same|].
      by apply (ids_kept_alter c (set_readyState CLOSED)). }
  destruct (on_close_result env c ws now st room Hws Hroom)
    as (room1 & st1 & _ & _ & Hs & Hbranch & Htail).
  split.
  - assert (Hrooms : ∃ h, rooms (on_close env c now st)
                          = <[room_key (roomId ws) := set_cleanupTimer h room1]> (rooms st)).
    { destruct Htail as [(_ & -> & _) | (_ & -> & _)].
      - exists (cleanupTimer room1). by rewrite set_cleanupTimer_id.
      - by eexists. }
    destruct Hrooms as [h Hrooms].
    eapply (seats_shrink_insert _ room); [exact Hrooms|exact Hroom| |].
    + destruct Hbranch as [(_ & -> & _) | [(r & _ & _ & _ & -> & _) | (r & _ & _ & _ & -> & _)]].
      * intros [r'|] c'; simpl; [done|]. rewrite set_delete_elem. tauto.
      * intros [r'|] c'; simpl; [|done]. unfold slot. simpl.
        destruct (decide (r = r')) as [<-|Hne].
        -- by rewrite lookup_insert_eq.
        -- by rewrite lookup_insert_ne.
      * by intros [?|] ?.
    + destruct Hbranch as [(_ & -> & _) | [(r & _ & _ & _ & -> & _) | (r & _ & _ & _ & -> & _)]];
        done.
  - apply (ids_kept_alter c (set_readyState CLOSED)); [done| |done].
    apply on_close_next_socket.
Qed.

Lemma seats_shrink_delete k st st' :
  rooms st' = delete k (rooms st) → seats_shrink st st'.
Proof.
  intros Heq rid room' H. rewrite Heq in H.
  destruct (decide (k = rid)) as [<-|Hne].
  - by rewrite lookup_delete_eq in H.
  - rewrite lookup_delete_ne in H by done. exists room'. auto.
Qed.

(** A slot of the joined room held by somebody else than the joiner keeps
    its token. *)
Lemma join_room_token_kept c dev now room r c' :
  slot (join_room c dev now room) r = Some c' → c' ≠ c →
  token (join_room c dev now room) r = token room r.
Proof.
  unfold join_room.
  assert (Hseat : ∀ r0, slot (assignRole_room r0 c (Some dev) room) r = Some c' → c' ≠ c →
                        token (assignRole_room r0 c (Some dev) room) r = token room r).
  { intros r0 Hs Hne. destruct (decide (r0 = r)) as [->|Hr].
    - rewrite assignRole_room_slot in Hs. congruence.
    - unfold token. by destruct (assignRole_room_other r0 r c (Some dev) room Hr) as [-> _]. }
  destruct (first_slot (can_reclaim room dev now)) as [r0|]; [apply Hseat|].
  destruct (first_slot (can_seat room now)) as [r0|]; [apply Hseat|].
  intros _ _. unfold token.
  by destruct (enqueueSpectator_leases c (Some dev) room) as [-> _].
Qed.

Lemma recorded_at_kept st st' rid room room' p c ws :
  sockets st !! c = Some ws → sockets st' !! c = Some ws →
  (∀ r, p = InSlot r → token room' r = token room r) →
  recorded_at st rid room p c → recorded_at st' rid room' p c.
Proof.
  intros Hws Hws' Htok (ws0 & Hws0 & Hrid & Hp). simplify_eq.
  exists ws. split; [done|]. split; [done|].
  destruct p as [r|]; [|done]. destruct Hp as [Hrole Ht].
  split; [done|]. by rewrite (Htok r eq_refl).
Qed.

Lemma on_join_places_recorded c ws mroom mdev now st J :
  sockets st !! c = Some ws →
  c ∉ J →
  seated_once st J →
  places_recorded st →
  places_recorded (on_join c mroom mdev now st).
Proof.
  intros Hws Hfresh [_ Hj] Hrec.
  set (rid0 := room_of mroom). set (dev := device_of mdev).
  set (room0 := (getOrCreateRoom rid0 now st).1).
  pose proof (on_join_rooms c ws mroom mdev now st Hws) as Hrooms.
  pose proof (on_join_sockets c ws mroom mdev now st Hws) as [Hself Hothers].
  cbv zeta in Hrooms, Hself, Hothers. fold rid0 dev room0 in Hrooms, Hself.
  assert (Hold : ∀ rid room p c', rooms st !! rid = Some room → holds room p c' →
                                  c' ≠ c ∧ recorded_at st rid room p c').
  { intros rid room p c' Hr Hh. split; [|by apply Hrec].
    intros ->. apply Hfresh. apply (Hj rid p). by exists room. }
  assert (Hkeep : ∀ rid room room' p c',
             rooms st !! rid = Some room → holds room p c' →
             (∀ r, p = InSlot r → token room' r = token room r) →
             recorded_at (on_join c mroom mdev now st) rid room' p c').
  { intros rid room room' p c' Hr Hh Htok.
    destruct (Hold rid room p c' Hr Hh) as [Hne Hat].
    destruct Hat as (ws' & Hws' & Hat).
    apply (recorded_at_kept st _ rid room room' p c' ws'); [done| |done|].
    - rewrite Hothers by done. done.
    - by exists ws'. }
  intros rid room' p c' Hr' Hh. rewrite Hrooms in Hr'.
  destruct (decide (rid0 = rid)) as [<-|Hne].
  - rewrite lookup_insert_eq in Hr'. simplify_eq.
    assert (Hroom0 : ∀ p c', holds room0 p c' → rooms st !! rid0 = Some room0).
    { intros p0 c0 Hh0. subst room0. unfold getOrCreateRoom in Hh0 |- *.
      destruct (rooms st !! rid0) as [room|] eqn:Hr; simpl in Hh0 |- *; [done|].
      by apply holds_fresh_room in Hh0. }
    destruct (join_room_holds c dev now room0 p c' Hh) as [[-> ->] | Hh0].
    + eexists. split; [exact Hself|]. split; [done|]. simpl.
      unfold join_place, join_role.
      destruct (join_slot dev now room0) as [r|] eqn:Hjs.
      * destruct (join_room_seated c dev now room0 r Hjs) as (_ & Ht & _).
        split; [done|]. exact Ht.
      * eexists. split; [done|].
        pose proof (join_room_holds_self c dev now room0) as Hin.
        unfold join_place in Hin. rewrite Hjs in Hin. simpl in Hin.
        destruct (spectators (join_room c dev now room0)) as [|x l]; simpl.
        -- by apply not_elem_of_nil in Hin.
        -- lia.
    + apply (Hkeep rid0 room0 _ p c' (Hroom0 p c' Hh0) Hh0).
      intros r ->. simpl in Hh, Hh0.
      destruct (Hold rid0 room0 (InSlot r) c' (Hroom0 (InSlot r) c' Hh0) Hh0) as [Hne _].
      by apply (join_room_token_kept c dev now room0 r c').
  - rewrite lookup_insert_ne in Hr' by done.
    by apply (Hkeep rid room' room' p c').
Qed.

Lemma promote_places_recorded rid r st st' room s ws d rest J :
  seated_once st J →
  places_recorded st →
  rooms st !! rid = Some room →
  s ∈ spectators room →
  sockets st !! s = Some ws →
  deviceId ws = Some d →
  rooms st'
  = <[rid := assignRole_room r s (Some d)
               (set_specQueue (λ _, rest)
                  (set_spectators (λ _, set_delete s (spectators room)) room))]>
      (rooms st) →
  sockets st' = alter (set_roleIdx (Some r)) s (sockets st) →
  places_recorded st'.
Proof.
  intros [Hone _] Hrec Hroom Hin Hws Hdev Hrooms Hsock.
  assert (Hs : occupies st rid InSpectators s) by (exists room; auto).
  assert (Hkeep : ∀ rid' room0 room' p c,
             rooms st !! rid' = Some room0 → holds room0 p c → (rid', p) ≠ (rid, InSpectators) →
             (∀ r', p = InSlot r' → token room' r' = token room0 r') →
             recorded_at st' rid' room' p c).
  { intros rid' room0 room' p c Hr Hh Hne Htok.
    assert (Hc : c ≠ s).
    { intros ->. assert (Hocc : occupies st rid' p s) by (exists room0; auto).
      destruct (Hone s _ _ _ _ Hocc Hs) as [-> ->]. done. }
    destruct (Hrec rid' room0 p c Hr Hh) as (ws' & Hws' & Hat).
    apply (recorded_at_kept st _ rid' room0 room' p c ws'); [done| |done|].
    - rewrite Hsock. by rewrite lookup_alter_ne.
    - by exists ws'. }
  intros rid' room' p c Hr' Hh. rewrite Hrooms in Hr'.
  destruct (decide (rid = rid')) as [<-|Hne].
  - rewrite lookup_insert_eq in Hr'. simplify_eq.
    destruct p as [r'|]; simpl in Hh.
    + destruct (decide (r = r')) as [<-|Hner].
      * rewrite assignRole_room_slot in Hh. simplify_eq.
        destruct (Hrec rid room InSpectators c Hroom Hin) as (ws' & Hws' & Hrid & _).
        simplify_eq. exists (set_roleIdx (Some r) ws).
        split; [by rewrite Hsock, lookup_alter_eq, Hws|]. split; [done|].
        split; [done|]. simpl. rewrite assignRole_room_token. by rewrite Hdev.
      * rewrite assignRole_room_slot_ne in Hh by done.
        apply (Hkeep rid room _ (InSlot r') c); [done|done|congruence|].
        intros r0 [= <-]. unfold token.
        by destruct (assignRole_room_other r r' s (Some d)
                       (set_specQueue (λ _, rest)
                          (set_spectators (λ _, set_delete s (spectators room)) room))
                       Hner) as [-> _].
    + rewrite assignRole_room_spectators in Hh. simpl in Hh.
      apply set_delete_elem in Hh as [Hc Hne].
      destruct (Hrec rid room InSpectators c Hroom Hc) as (ws' & Hws' & Hat).
      apply (recorded_at_kept st _ rid room _ InSpectators c ws'); [done| |done|].
      * rewrite Hsock. by rewrite lookup_alter_ne.
      * by exists ws'.
  - rewrite lookup_insert_ne in Hr' by done.
    apply (Hkeep rid' room' room' p c); [done|done|congruence|done].
Qed.

Lemma on_timeout_places_recorded t st J :
  seated_once st J → places_recorded st → sockets_numbered st →
  places_recorded (on_timeout t st) ∧ sockets_numbered (on_timeout t st).
Proof.
  intros Hone Hrec Hnum. unfold on_timeout.
  destruct (timeouts st !! t) as [tm|]; [|done].
  set (st1 := set_timeouts (delete t) st).
  assert (Hone1 : seated_once st1 J) by done.
  assert (Hrec1 : places_recorded st1) by done.
  assert (Hnum1 : sockets_numbered st1) by done.
  clearbody st1.
  destruct (callback tm) as [rid r|c].
  - destruct (onLeaseExpire_result rid r st1)
      as [-> | [(room & Hroom & Hslot & Hrooms & Hsock & Hnext)
               | (room & s & ws & stale & d & rest & Hroom & Hslot & Hq & Hin & Hws & Hdev
                  & Hrooms & Hsock & Hnext)]]; [done| |].
    + assert (Hids : ids_kept st1 (onLeaseExpire rid r st1)) by (by apply ids_kept_same).
      split; [|by apply (sockets_numbered_frame st1)].
      apply (places_recorded_frame st1); [|done|done].
      eapply (seats_shrink_insert rid room); [exact Hrooms|exact Hroom| |].
      * by intros [?|] ?.
      * intros r' c'. unfold slot, token. simpl.
        destruct (decide (r = r')) as [<-|Hne].
        -- fold (slot room r). by rewrite Hslot.
        -- by rewrite lookup_insert_ne.
    + split.
      * by apply (promote_places_recorded rid r st1 _ room s ws d rest J).
      * intros c [w Hc]. rewrite Hnext. apply Hnum1. rewrite Hsock in Hc.
        destruct (decide (s = c)) as [<-|Hne].
        -- by rewrite Hws.
        -- rewrite lookup_alter_ne in Hc by done. by exists w.
  - unfold on_cleanup. destruct (sockets st1 !! c) as [ws|]; [|done].
    assert (Hids : ids_kept st1 (set_rooms (delete (room_key (roomId ws))) st1))
      by (by apply ids_kept_same).
    split; [|by apply (sockets_numbered_frame st1)].
    apply (places_recorded_frame st1); [|done|done].
    by apply (seats_shrink_delete (room_key (roomId ws))).
Qed.

(** One event keeps what the seated sockets record. *)
Lemma step_places_recorded env st e J :
  seated_once st J →
  (∀ c, joiners [e] = [c] → c ∉ J) →
  places_recorded st → sockets_numbered st →
  places_recorded (step env st e) ∧ sockets_numbered (step env st e).
Proof.
  intros Hone Hfresh Hrec Hnum.
  assert (Hframe : ∀ st', seats_shrink st st' → ids_kept st st' →
                          places_recorded st' ∧ sockets_numbered st').
  { intros st' Hsh Hids. split.
    - by apply (places_recorded_frame st).
    - by apply (sockets_numbered_frame st). }
  destruct e as [|c m now clock|c|c now|t]; simpl.
  - split.
    + intros rid room p c Hr Hh.
      destruct (Hrec rid room p c Hr Hh) as (ws & Hws & Hat).
      exists ws. split; [|done]. simpl. rewrite lookup_insert_ne; [done|].
      assert (c < next_socket st)%nat by (apply Hnum; by exists ws). lia.
    + intros c [w Hc]. simpl in Hc |- *.
      destruct (decide (next_socket st = c)) as [<-|Hne]; [lia|].
      rewrite lookup_insert_ne in Hc by done.
      assert (c < next_socket st)%nat by (apply Hnum; by exists w). lia.
  - destruct m as [mroom mdev| |v|text time].
    + unfold on_message. destruct (sockets st !! c) as [ws|] eqn:Hws; [|done].
      split.
      * apply (on_join_places_recorded c ws mroom mdev now st J); [done| |done|done].
        by apply Hfresh.
      * pose proof (on_join_sockets c ws mroom mdev now st Hws) as [_ Hothers].
        cbv zeta in Hothers.
        destruct (sockets_kept_on_join c mroom mdev now st) as [Hle _].
        intros c' [w Hc'].
        assert (c' < next_socket st)%nat; [|lia]. apply Hnum.
        destruct (decide (c = c')) as [<-|Hne]; [by exists ws|].
        rewrite Hothers in Hc' by done. by exists w.
    + apply Hframe; [by apply on_message_other_seats_shrink|].
      by apply ids_kept_same; apply on_message_other_sockets.
    + apply Hframe; [by apply on_message_other_seats_shrink|].
      by apply ids_kept_same; apply on_message_other_sockets.
    + apply Hframe; [by apply on_message_other_seats_shrink|].
      by apply ids_kept_same; apply on_message_other_sockets.
  - apply Hframe; [by apply seats_shrink_same|].
    by apply (ids_kept_alter c (set_readyState CLOSING)).
  - apply Hframe; apply on_close_frame.
  - by apply (on_timeout_places_recorded t st J).
Qed.

Lemma run_places_recorded env evs st J :
  seated_once st J →
  NoDup (joiners evs) →
  (∀ c, c ∈ joiners evs → c ∉ J) →
  places_recorded st → sockets_numbered st →
  places_recorded (run env st evs).
Proof.
  revert st J. induction evs as [|e evs IH]; intros st J Hinv Hnd Hdisj Hrec Hnum; [done|].
  rewrite joiners_cons in Hnd, Hdisj.
  apply NoDup_app in Hnd as (_ & Hcross & Hnd).
  change (run env st (e :: evs)) with (run env (step env st e) evs).
  assert (Hfresh : ∀ c, joiners [e] = [c] → c ∉ J).
  { intros c Hc. apply Hdisj. rewrite Hc. apply elem_of_app. left. by left. }
  destruct (step_places_recorded env st e J Hinv Hfresh Hrec Hnum) as [Hrec' Hnum'].
  apply (IH _ (joiners [e] ++ J)); [|done| |done|done].
  - by apply step_seated_once.
  - intros c Hc Hin. apply elem_of_app in Hin as [Hin|Hin].
    + by apply (Hcross c).
    + apply (Hdisj c); [|done]. apply elem_of_app. by right.
Qed.

(** X25.  In every state the server reaches by a run in which no socket
    sends [join] more than once, a socket that sits in a room records that
    place: its [roomId] is the room's key; if it occupies slot [r] its
    [roleIdx] is [r] and the slot's token is its device id ([null] for the
    empty one); if it is among the spectators its [roleIdx] is 2 or
    more. *)
Theorem seated_socket_records_place env evs rid room p c :
  join_once evs →
  rooms (run env init evs) !! rid = Some room →
  holds room p c →
  recorded_at (run env init evs) rid room p c.
Proof.
  intros Hnd Hroom Hh.
  apply (run_places_recorded env evs init []); [apply seated_once_init|exact Hnd| | | |done|done].
  - intros c' _. apply not_elem_of_nil.
  - intros rid' room' p' c' Hr. simpl in Hr. by rewrite lookup_empty in Hr.
  - intros c' [w Hc]. simpl in Hc. by rewrite lookup_empty in Hc.
Qed.

Lemma seated_socket_records_place_witness :
  recorded_at three_in_r1 "r1" (the_room three_in_r1 "r1") (InSlot 1) 1.
Proof.
  apply (seated_socket_records_place None
           [Connection; Connection; Connection;
            join_as 0 "r1" "d1" 0; join_as 1 "r1" "d2" 1; join_as 2 "r1" "d3" 2]).
  - unfold join_once. apply (bool_decide_unpack _). vm_compute. exact I.
  - vm_compute. reflexivity.
  - vm_compute. reflexivity.
Defined.

(** ** Where a snapshot comes from *)

Lemma snapshots_from_same st st' : rooms st' = rooms st → snapshots_from st st'.
Proof. intros Hr rid room' v H Hv. rewrite Hr in H. by exists room'. Qed.

Lemma snapshots_from_insert rid room room' st st' :
  rooms st' = <[rid := room']> (rooms st) →
  rooms st !! rid = Some room →
  state room' = state room →
  snapshots_from st st'.
Proof.
  intros Heq Hr Hst rid' room'' v H Hv. rewrite Heq in H.
  destruct (decide (rid = rid')) as [<-|Hne].
  - rewrite lookup_insert_eq in H. simplify_eq. exists room. split; [done|congruence].
  - rewrite lookup_insert_ne in H by done. by exists room''.
Qed.

Lemma join_room_state c dev now room : state (join_room c dev now room) = state room.
Proof.
  unfold join_room.
  destruct (first_slot (can_reclaim room dev now)); [apply assignRole_room_state|].
  destruct (first_slot (can_seat room now)); [apply assignRole_room_state|].
  apply enqueueSpectator_state.
Qed.

Lemma on_close_snapshots_from env c now st : snapshots_from st (on_close env c now st).
Proof.
  destruct (sockets st !! c) as [ws|] eqn:Hws.
  2:{ apply snapshots_from_same. unfold on_close. simpl.
      by rewrite lookup_alter_eq, Hws. }
  destruct (rooms st !! room_key (roomId ws)) as [room|] eqn:Hroom.
  2:{ apply snapshots_from_same. unfold on_close. simpl.
      rewrite lookup_alter_eq, Hws. simpl. by rewrite Hroom. }
  destruct (on_close_result env c ws now st room Hws Hroom)
    as (room1 & st1 & _ & _ & _ & Hbranch & Htail).
  assert (H1 : state room1 = state room).
  { destruct Hbranch as [(_ & -> & _) | [(r & _ & _ & _ & -> & _) | (r & _ & _ & _ & -> & _)]];
      done. }
  destruct Htail as [(_ & Hrooms & _) | (_ & Hrooms & _)];
    by eapply snapshots_from_insert.
Qed.

Lemma on_timeout_snapshots_from t st : snapshots_from st (on_timeout t st).
Proof.
  unfold on_timeout. destruct (timeouts st !! t) as [tm|]; [|by apply snapshots_from_same].
  set (st1 := set_timeouts (delete t) st).
  assert (H1 : ∀ st', snapshots_from st1 st' → snapshots_from st st') by done.
  clearbody st1. apply H1. destruct (callback tm) as [rid r|c].
  - destruct (onLeaseExpire_result rid r st1)
      as [-> | [(room & Hroom & _ & Hrooms & _)
               | (room & s & ws & stale & d & rest & Hroom & _ & _ & _ & _ & _ & Hrooms & _)]].
    + by apply snapshots_from_same.
    + by eapply snapshots_from_insert.
    + eapply snapshots_from_insert; [exact Hrooms|exact Hroom|].
      by rewrite assignRole_room_state.
  - unfold on_cleanup. destruct (sockets st1 !! c) as [ws|];
      [|by apply snapshots_from_same].
    intros rid room' v H Hv. simpl in H.
    apply lookup_delete_Some in H as [_ H]. by exists room'.
Qed.

(** A snapshot that is in the table after an event was there before, or is
    the payload of the event, a [syncState] frame. *)
Lemma step_snapshot env st e rid room' v :
  rooms (step env st e) !! rid = Some room' →
  state room' = Some v →
  (∃ room, rooms st !! rid = Some room ∧ state room = Some v) ∨
  (∃ c now clock, e = Message c (SyncState (Some v)) now clock).
Proof.
  intros Hr' Hv.
  assert (Hfrom : ∀ st', step env st e = st' → snapshots_from st st' →
            ∃ room, rooms st !! rid = Some room ∧ state room = Some v).
  { intros st' Heq Hf. rewrite Heq in Hr'. by apply (Hf rid room'). }
  destruct e as [|c m now clock|c|c now|t].
  - left. apply (Hfrom _ eq_refl). by apply snapshots_from_same.
  - simpl in Hr'. unfold on_message in Hr'.
    destruct (sockets st !! c) as [ws|] eqn:Hws; [|left; by exists room'].
    destruct m as [mroom mdev| |x|text time].
    + left. rewrite (on_join_rooms c ws mroom mdev now st Hws) in Hr'.
      destruct (decide (room_of mroom = rid)) as [<-|Hne].
      * rewrite lookup_insert_eq in Hr'. simplify_eq.
        rewrite join_room_state in Hv. unfold getOrCreateRoom in Hv.
        destruct (rooms st !! room_of mroom) as [room|]; simpl in Hv; [|done].
        by exists room.
      * rewrite lookup_insert_ne in Hr' by done. by exists room'.
    + left. unfold on_request_state in Hr'.
      destruct (rooms st !! room_key (roomId ws)); [|by exists room'].
      rewrite send_state_rooms in Hr'. by exists room'.
    + unfold on_syncState in Hr'.
      destruct (rooms st !! room_key (roomId ws)) as [room0|] eqn:Hr0;
        [|left; by exists room'].
      destruct (is_player ws); [|left; by exists room'].
      destruct x as [x|]; [|left; by exists room'].
      destruct (truthy x && typeof_object x); [|left; by exists room'].
      rewrite broadcast_rooms in Hr'. simpl in Hr'.
      destruct (decide (room_key (roomId ws) = rid)) as [<-|Hne].
      * rewrite lookup_alter_eq, Hr0 in Hr'. simpl in Hr'. simplify_eq.
        simpl in Hv. simplify_eq. right. by exists c, now, clock.
      * rewrite lookup_alter_ne in Hr' by done. left. by exists room'.
    + left. unfold on_chat in Hr'.
      destruct (rooms st !! room_key (roomId ws)); [|by exists room'].
      rewrite broadcast_rooms in Hr'. by exists room'.
  - left. apply (Hfrom _ eq_refl). by apply snapshots_from_same.
  - left. apply (Hfrom _ eq_refl). apply on_close_snapshots_from.
  - left. apply (Hfrom _ eq_refl). apply on_timeout_snapshots_from.
Qed.

Lemma run_snapshot_origin env evs st (S : JsVal → Prop) :
  (∀ rid room v, rooms st !! rid = Some room → state room = Some v → S v) →
  ∀ rid room v, rooms (run env st evs) !! rid = Some room → state room = Some v →
    S v ∨ ∃ c now clock, Message c (SyncState (Some v)) now clock ∈ evs.
Proof.
  revert st S. induction evs as [|e evs IH]; intros st S Hst rid room v Hr Hv.
  - left. by apply (Hst rid room).
  - change (run env st (e :: evs)) with (run env (step env st e) evs) in Hr.
    destruct (IH (step env st e)
                (λ v, S v ∨ ∃ c now clock, e = Message c (SyncState (Some v)) now clock))
      with (rid := rid) (room := room) (v := v) as [[HS | Hhere] | Hlater]; [|done..| | |].
    + intros rid0 room0 v0 Hr0 Hv0.
      destruct (step_snapshot env st e rid0 room0 v0 Hr0 Hv0)
        as [(room1 & Hr1 & Hv1) | Hsync]; [left; by apply (Hst rid0 room1)|by right].
    + by left.
    + destruct Hhere as (c & now & clock & ->). right. exists c, now, clock. by left.
    + destruct Hlater as (c & now & clock & Hin). right. exists c, now, clock. by right.
Qed.

Lemma room_change_keeps_snapshot room room' :
  room_change room room' → is_Some (state room) → is_Some (state room').
Proof.
  intros Hch H. destruct Hch; try exact H.
  - by rewrite join_room_state.
  - by eexists.
  - by rewrite assignRole_room_state.
Qed.

(** X21.  In every state the server reaches, the snapshot a room stores, if it
    stores one, is a truthy value of type object and the payload of a
    [syncState] frame of the run; and no event clears it: whatever event
    comes next, if the room is still in the table it still stores a
    snapshot. *)
Theorem snapshot_is_accepted_payload env evs rid room v :
  rooms (run env init evs) !! rid = Some room →
  state room = Some v →
  truthy v = true ∧ typeof_object v = true ∧
  (∃ c now clock, Message c (SyncState (Some v)) now clock ∈ evs) ∧
  ∀ e room', rooms (step env (run env init evs) e) !! rid = Some room' →
             is_Some (state room').
Proof.
  intros Hroom Hv.
  assert (H : snapshot_ok room).
  { apply (run_room_invariant snapshot_ok (λ _, I) snapshot_ok_change
             env evs rid room Hroom). }
  unfold snapshot_ok in H. rewrite Hv in H. simpl in H.
  apply andb_true_iff in H as [Ht Ho]. split; [done|]. split; [done|]. split.
  - destruct (run_snapshot_origin env evs init (λ _, False)) with (rid := rid) (room := room) (v := v)
      as [[]|Hin]; [|done..].
    intros rid0 room0 v0 Hr0. simpl in Hr0. by rewrite lookup_empty in Hr0.
  - intros e room' Hr'.
    pose proof (step_room_change env (run env init evs) e rid) as Hstep.
    rewrite Hroom, Hr' in Hstep. destruct Hstep as [-> | Hch]; [by rewrite Hv|].
    apply (room_change_keeps_snapshot room); [done|by rewrite Hv].
Qed.

Lemma snapshot_is_accepted_payload_witness :
  truthy (JObj []) = true ∧ typeof_object (JObj []) = true ∧
  (∃ c now clock,
      Message c (SyncState (Some (JObj []))) now clock
      ∈ [Connection; join_as 0 "null" "a" 0;
         Message 0 (SyncState (Some (JObj []))) 1 ""; Connection]) ∧
  ∀ e room', rooms (step None room_named_null e) !! "null"%string = Some room' →
             is_Some (state room').
Proof.
  apply (snapshot_is_accepted_payload None
           [Connection; join_as 0 "null" "a" 0;
            Message 0 (SyncState (Some (JObj []))) 1 ""; Connection]
           "null" (the_room room_named_null "null") (JObj []));
    vm_compute; reflexivity.
Defined.

(** ** Reads of the room table *)

Lemma on_timeout_roomId t st c ws' :
  sockets (on_timeout t st) !! c = Some ws' →
  ∃ ws, sockets st !! c = Some ws ∧ roomId ws = roomId ws'.
Proof.
  unfold on_timeout. destruct (timeouts st !! t) as [tm|]; [|by exists ws'].
  set (st1 := set_timeouts (delete t) st).
  change (sockets st) with (sockets st1). clearbody st1.
  destruct (callback tm) as [rid r|c0].
  - destruct (onLeaseExpire_result rid r st1)
      as [-> | [(room & _ & _ & _ & -> & _)
               | (room & s & ws & stale & d & rest & _ & _ & _ & _ & Hws & _ & _ & -> & _)]];
      [by exists ws'|by exists ws'|].
    destruct (decide (s = c)) as [<-|Hne].
    + rewrite lookup_alter_eq, Hws. simpl. intros [= <-]. by exists ws.
    + rewrite lookup_alter_ne by done. by exists ws'.
  - unfold on_cleanup. destruct (sockets st1 !! c0); by exists ws'.
Qed.

(** An event that does not throw stores no room under a name of
    [Object.prototype] and records none on a socket. *)
Lemma step_own_ids env st e :
  join_throws st e = false → own_ids st → own_ids (step env st e).
Proof.
  intros Hthrow [Hrooms Hsocks]. split.
  - intros rid [room' Hr'].
    pose proof (step_room_change env st e rid) as Hstep. rewrite Hr' in Hstep.
    destruct (rooms st !! rid) as [room|] eqn:Hr; [apply Hrooms; by rewrite Hr|].
    destruct Hstep as (c & mroom & mdev & now & clock & -> & -> & _).
    simpl in Hthrow, Hr'. unfold on_message in Hr'.
    destruct (sockets st !! c) as [ws|]; [|by rewrite Hr in Hr'].
    rewrite Hr in Hthrow. by apply bool_decide_eq_false in Hthrow.
  - assert (Hkept : ∀ st', (∀ c ws', sockets st' !! c = Some ws' →
                              ∃ ws, sockets st !! c = Some ws ∧ roomId ws = roomId ws') →
              ∀ c ws rid, sockets st' !! c = Some ws → roomId ws = Some rid →
                          rid ∉ Object_prototype_names).
    { intros st' Hk c ws' rid Hws' Hrid. destruct (Hk c ws' Hws') as (ws & Hws & Heq).
      apply (Hsocks c ws); [done|congruence]. }
    destruct e as [|c m now clock|c|c now|t]; simpl.
    + intros c ws rid Hc Hrid. simpl in Hc.
      destruct (decide (next_socket st = c)) as [<-|Hne].
      * rewrite lookup_insert_eq in Hc. by simplify_eq.
      * rewrite lookup_insert_ne in Hc by done. by apply (Hsocks c ws).
    + unfold on_message. destruct (sockets st !! c) as [ws|] eqn:Hws; [|done].
      destruct m as [mroom mdev| |v|text time].
      * destruct (on_join_sockets c ws mroom mdev now st Hws) as [Hself Hothers].
        cbv zeta in Hself, Hothers.
        intros c' ws' rid Hws' Hrid.
        destruct (decide (c = c')) as [<-|Hne].
        -- rewrite Hself in Hws'. simplify_eq. simpl in Hrid. simplify_eq.
           simpl in Hthrow. rewrite Hws in Hthrow.
           destruct (rooms st !! room_of mroom) as [room|] eqn:Hr.
           ++ apply Hrooms. by rewrite Hr.
           ++ by apply bool_decide_eq_false in Hthrow.
        -- rewrite Hothers in Hws' by done. by apply (Hsocks c' ws').
      * destruct (on_message_other_sockets c RequestState now clock st) as [Hs _];
          [done|]. unfold on_message in Hs. rewrite Hws in Hs. by rewrite Hs.
      * destruct (on_message_other_sockets c (SyncState v) now clock st) as [Hs _];
          [done|]. unfold on_message in Hs. rewrite Hws in Hs. by rewrite Hs.
      * destruct (on_message_other_sockets c (Chat text time) now clock st) as [Hs _];
          [done|]. unfold on_message in Hs. rewrite Hws in Hs. by rewrite Hs.
    + apply (Hkept (update_ws c (set_readyState CLOSING) st)).
      intros c' ws' Hc. simpl in Hc.
      destruct (decide (c = c')) as [<-|Hne].
      * rewrite lookup_alter_eq in Hc. destruct (sockets st !! c) as [ws|]; [|done].
        simpl in Hc. simplify_eq. by exists ws.
      * rewrite lookup_alter_ne in Hc by done. by exists ws'.
    + apply (Hkept (on_close env c now st)). intros c' ws' Hc.
      destruct (on_close_frame env c now st) as [_ [_ Hids]]. specialize (Hids c').
      rewrite Hc in Hids. destruct (sockets st !! c') as [ws|]; [|done].
      exists ws. split; [done|]. by destruct Hids as (-> & _).
    + apply (Hkept (on_timeout t st)). apply on_timeout_roomId.
Qed.

Lemma run_own_ids env evs st :
  survives env st evs = true → own_ids st → own_ids (run env st evs).
Proof.
  revert st. induction evs as [|e evs IH]; intros st Hs Hst; [done|].
  simpl in Hs. apply andb_true_iff in Hs as [He Hs]. apply negb_true_iff in He.
  change (run env st (e :: evs)) with (run env (step env st e) evs).
  apply IH; [done|]. by apply step_own_ids.
Qed.

(** X27.  In a run of the real process, one in which no join threw, no room is
    ever stored under a name of [Object.prototype] and no socket records
    such a name as its [roomId]: the reads [rooms[roomId]] and
    [rooms[ws.roomId]] of the handlers never find an inherited property,
    and a room id is in use only if [getOrCreateRoom] stored a room for
    it. *)
Theorem surviving_run_reads_own_rooms env evs :
  survives env init evs = true →
  own_ids (run env init evs).
Proof.
  intros Hs. apply run_own_ids; [done|]. split.
  - intros rid [room Hr]. simpl in Hr. by rewrite lookup_empty in Hr.
  - intros c ws rid Hc. simpl in Hc. by rewrite lookup_empty in Hc.
Qed.

Lemma surviving_run_reads_own_rooms_witness : own_ids three_in_r1.
Proof.
  apply (surviving_run_reads_own_rooms None
           [Connection; Connection; Connection;
            join_as 0 "r1" "d1" 0; join_as 1 "r1" "d2" 1; join_as 2 "r1" "d3" 2]).
  vm_compute. reflexivity.
Defined.
